(** * DGMS alert agent: the detection and processing loop of
      [src/alert_agent/agent.py], embedded in Rocq.

    - Python [str] values are modelled by [string] (sequences of ASCII
      characters): [str.lower], [str.strip] and [urllib.parse.unquote] are
      given on that range; paths follow [posixpath].
    - Library calls that leave the process (HTTP, the Gemini API, Supabase,
      the file system) are primitives of a small state-and-exception monad.
      Each one takes a unit of budget and is recorded in a trace; what it
      answers, and whether it fails, comes from an environment [env], which
      also holds the pure library functions the module imports
      ([os.path.abspath], [urljoin], [urlparse], BeautifulSoup's [select],
      [json.dump] and [json.load]).
    - A run ends normally ([Done]), with an exception ([Raised]), or where
      its budget ran out ([Stopped]): the process was killed there.  A
      statement about every budget is a statement about every point at which
      a run can be interrupted.
    - Files are a finite map from absolute paths to contents: regular
      files only, no directories or links.
    - [shutil.move] is written out as the library does it: [os.rename],
      and when that raises [OSError] a copy of the source over the target
      followed by the removal of the source. *)

From Stdlib Require Import ZArith Ascii Bool Lia.
From stdpp Require Import gmap strings list.

Set Warnings "-register-all".
#[local] Arguments String.append !_ _ / : simpl nomatch.

Local Open Scope Z_scope.
Local Open Scope nat_scope.

(** ** Python strings *)

Module PyStr.

Definition is_empty (s : string) : bool :=
  match s with EmptyString => true | String _ _ => false end.

Fixpoint take (n : nat) (s : string) : string :=
  match n, s with
  | S n', String c r => String c (take n' r)
  | _, _ => EmptyString
  end.

Fixpoint drop (n : nat) (s : string) : string :=
  match n, s with
  | S n', String _ r => drop n' r
  | _, _ => s
  end.

(** [s[:-n]] for a positive literal [n]. *)
Definition slice_drop_last (n : nat) (s : string) : string :=
  take (String.length s - n) s.

(** [s.endswith(suf)]. *)
Definition endswith (s suf : string) : bool :=
  (String.length suf <=? String.length s)
  && String.eqb (drop (String.length s - String.length suf) s) suf.

Definition is_upper (c : ascii) : bool :=
  (65 <=? nat_of_ascii c) && (nat_of_ascii c <=? 90).

Definition lower_char (c : ascii) : ascii :=
  if is_upper c then ascii_of_nat (nat_of_ascii c + 32) else c.

(** [s.lower()]. *)
Fixpoint lower (s : string) : string :=
  match s with
  | EmptyString => EmptyString
  | String c r => String (lower_char c) (lower r)
  end.

(** Characters for which [str.isspace] holds, in the ASCII range. *)
Definition is_space (c : ascii) : bool :=
  let n := nat_of_ascii c in
  ((9 <=? n) && (n <=? 13)) || ((28 <=? n) && (n <=? 32)).

Fixpoint lstrip (s : string) : string :=
  match s with
  | String c r => if is_space c then lstrip r else s
  | EmptyString => EmptyString
  end.

Fixpoint rstrip (s : string) : string :=
  match s with
  | EmptyString => EmptyString
  | String c r =>
      let r' := rstrip r in
      if is_empty r' && is_space c then EmptyString else String c r'
  end.

(** [s.strip()]. *)
Definition strip (s : string) : string := rstrip (lstrip s).

Definition hex_val (c : ascii) : option nat :=
  let n := nat_of_ascii c in
  if (48 <=? n) && (n <=? 57) then Some (n - 48)
  else if (65 <=? n) && (n <=? 70) then Some (n - 55)
  else if (97 <=? n) && (n <=? 102) then Some (n - 87)
  else None.

(** [urllib.parse.unquote]: every [%XY] with two hexadecimal digits
    becomes the octet it names; any other [%] is kept.  (Python then decodes
    the octets above 127 as UTF-8; the model keeps them as they are.) *)
Fixpoint unquote (s : string) : string :=
  match s with
  | EmptyString => EmptyString
  | String c r =>
      if Ascii.eqb c "%"%char then
        match r with
        | String h1 (String h2 r') =>
            match hex_val h1, hex_val h2 with
            | Some a, Some b => String (ascii_of_nat (16 * a + b)) (unquote r')
            | _, _ => String c (unquote r)
            end
        | _ => String c (unquote r)
        end
      else String c (unquote r)
  end.

(** [os.path.basename] of [posixpath]: what follows the last slash.
    [seg] is the text after the last slash seen so far. *)
Fixpoint basename_from (seg p : string) : string :=
  match p with
  | EmptyString => seg
  | String c r =>
      if Ascii.eqb c "/"%char then basename_from r r else basename_from seg r
  end.

Definition basename (p : string) : string := basename_from p p.

Fixpoint all_slashes (s : string) : bool :=
  match s with
  | EmptyString => true
  | String c r => Ascii.eqb c "/"%char && all_slashes r
  end.

Fixpoint rstrip_slash (s : string) : string :=
  match s with
  | EmptyString => EmptyString
  | String c r =>
      let r' := rstrip_slash r in
      if is_empty r' && Ascii.eqb c "/"%char then EmptyString else String c r'
  end.

(** [os.path.dirname] of [posixpath]. *)
Definition dirname (p : string) : string :=
  let head := take (String.length p - String.length (basename p)) p in
  if negb (is_empty head) && negb (all_slashes head) then rstrip_slash head
  else head.

(** [os.path.join(d, name)] of [posixpath] for a relative [name]. *)
Definition join (d name : string) : string :=
  if is_empty d || endswith d "/" then d +:+ name else d +:+ "/" +:+ name.

End PyStr.

(** ** Python values *)

(** Values of the [json] module; a float is kept as its literal, with
    whether it differs from zero. *)
Inductive json : Type :=
| JNull
| JBool (b : bool)
| JInt (z : Z)
| JFloat (nonzero : bool) (literal : string)
| JStr (s : string)
| JArr (items : list json)
| JObj (fields : list (string * json)).

(** Truth value of a Python object ([if x:]). *)
Definition truthy (v : json) : bool :=
  match v with
  | JNull => false
  | JBool b => b
  | JInt z => negb (Z.eqb z 0)
  | JFloat nonzero _ => nonzero
  | JStr s => negb (PyStr.is_empty s)
  | JArr l => match l with [] => false | _ => true end
  | JObj l => match l with [] => false | _ => true end
  end.

(** [basename in known] for a [str] and a list of loaded values: [==]
    between a [str] and anything but an equal [str] is [False]. *)
Definition str_in (x : string) (l : list json) : bool :=
  existsb (fun v => match v with JStr s => String.eqb x s | _ => false end) l.

(** ** Insertion-ordered dictionaries with [str] keys *)

Module Dict.

Definition t (V : Type) : Type := list (string * V).

(** [d[k] = v]: an existing key keeps its position. *)
Fixpoint set {V} (k : string) (v : V) (d : t V) : t V :=
  match d with
  | [] => [(k, v)]
  | (k', v') :: r =>
      if String.eqb k' k then (k', v) :: r else (k', v') :: set k v r
  end.

Definition keys {V} (d : t V) : list string := map fst d.

Definition mem {V} (k : string) (d : t V) : bool :=
  existsb (String.eqb k) (keys d).

Definition is_empty {V} (d : t V) : bool :=
  match d with [] => true | _ => false end.

(** What every Python dictionary satisfies: keys are pairwise distinct. *)
Definition wf {V} (d : t V) : Prop := NoDup (keys d).

End Dict.

(** ** Exceptions, events, environment *)

Inductive exn : Type :=
| OSError
| FileExistsError
| RequestException
| ValueError
| TypeError
| AttributeError
| OtherError (tag : nat).

(** [isinstance(e, requests.exceptions.RequestException)]. *)
Definition is_request_exception (e : exn) : bool :=
  match e with RequestException => true | _ => false end.

(** A Gemini client handle, identified by its API key. *)
Definition client : Type := string.

(** [isinstance(e, OSError)]. *)
Definition is_os_error (e : exn) : bool :=
  match e with OSError | FileExistsError => true | _ => false end.

(** Calls that leave the process, in the order they return.  A boolean
    tells whether the call returned normally.  [shutil.move] is library code
    that makes calls of its own ([os.rename] and, when that fails, the calls
    of a copy): they are recorded before the record of the move itself. *)
Inductive event : Type :=
| EvOpen (path : string) (ok : bool)
| EvRead (path : string) (ok : bool)
| EvMkstemp (dir pfx : string) (created : option string)
| EvWrite (path chunk : string) (ok : bool)
| EvClose (path : string) (ok : bool)
| EvRename (src dst : string) (ok : bool)
| EvCopyOpen (src dst : string) (ok : bool)
| EvCopy (path block : string) (ok : bool)
| EvCopystat (src dst : string) (ok : bool)
| EvMove (src dst : string) (ok : bool)
| EvRemove (path : string) (ok : bool)
| EvFetch (url : string) (ok : bool)
| EvDownload (url : string) (ok : bool)
| EvGenerate (c : client) (ok : bool)
| EvInsert (record : json) (ok : bool)
| EvSleep (secs : Z).

(** Extraction and ingestion calls. *)
Definition is_item_event (e : event) : bool :=
  match e with
  | EvDownload _ _ | EvGenerate _ _ | EvInsert _ _ => true
  | _ => false
  end.

(** Calls of [save_known_atomic]. *)
Definition is_save_event (e : event) : bool :=
  match e with
  | EvMkstemp _ _ _ | EvWrite _ _ _ | EvClose _ _ | EvRename _ _ _
  | EvCopyOpen _ _ _ | EvCopy _ _ _ | EvCopystat _ _ _ | EvMove _ _ _
  | EvRemove _ _ => true
  | _ => false
  end.

(** The library functions the module imports and the answers of the outside
    world.  An answer is indexed by the time of the call, the number of
    calls made before it. *)
Record env : Type := {
  abspath : string -> string;
  urljoin : string -> string -> string;
  urlparse_path : string -> string;
  (** [soup.select(...)], then the [href] attribute of each anchor *)
  select_anchors : string -> list string;
  (** the chunks [json.dump(data, f, indent=2, ensure_ascii=False)] writes *)
  json_chunks : list json -> list string;
  (** [json.load]; [None] when it raises *)
  json_loads : string -> option json;
  (** the module-level [genai_client] *)
  genai_client : option client;
  fs_fault : nat -> bool;
  tmp_names : nat -> list string;
  fetch_resp : nat -> string -> exn + string;
  download_resp : nat -> string -> exn + string;
  generate_resp : nat -> client -> string -> exn + json;
  insert_resp : nat -> json -> bool;
}.

(** ** Machine state and the monad *)

Record state : Type := {
  fs : gmap string string;   (** files, by absolute path *)
  known : list json;         (** the list [known] of [main_loop] *)
  trace : list event;
  budget : nat;              (** calls left before the process is killed *)
}.

Definition with_fs (f : gmap string string) (s : state) : state :=
  {| fs := f; known := known s; trace := trace s; budget := budget s |}.
Definition with_known (k : list json) (s : state) : state :=
  {| fs := fs s; known := k; trace := trace s; budget := budget s |}.
Definition with_trace (t : list event) (s : state) : state :=
  {| fs := fs s; known := known s; trace := t; budget := budget s |}.
Definition with_budget (b : nat) (s : state) : state :=
  {| fs := fs s; known := known s; trace := trace s; budget := b |}.

Inductive result (A : Type) : Type :=
| Done (a : A) (s : state)
| Raised (e : exn) (s : state)
| Stopped (s : state).
Arguments Done {A} a s.
Arguments Raised {A} e s.
Arguments Stopped {A} s.

Definition final {A} (r : result A) : state :=
  match r with Done _ s | Raised _ s | Stopped s => s end.

Definition M (A : Type) : Type := state -> result A.

Definition ret {A} (a : A) : M A := fun s => Done a s.
Definition raise {A} (e : exn) : M A := fun s => Raised e s.
Definition stop {A} : M A := fun s => Stopped s.

Definition bind {A B} (m : M A) (f : A -> M B) : M B := fun s =>
  match m s with
  | Done a s1 => f a s1
  | Raised e s1 => Raised e s1
  | Stopped s1 => Stopped s1
  end.

Declare Scope py_scope.
Delimit Scope py_scope with py.
Notation "x <- m ;; k" := (bind m (fun x => k))
  (at level 100, m at next level, right associativity) : py_scope.
Notation "m ;; k" := (bind m (fun _ => k))
  (at level 100, right associativity) : py_scope.
Local Open Scope py_scope.

(** [try: m except Exception as e: ...], the outcome made a value. *)
Definition try {A} (m : M A) : M (exn + A) := fun s =>
  match m s with
  | Done a s1 => Done (inr a) s1
  | Raised e s1 => Done (inl e) s1
  | Stopped s1 => Stopped s1
  end.

(** [try: body finally: cleanup]; also the exit of a [with] block. *)
Definition finally {A} (body : M A) (cleanup : M unit) : M A := fun s =>
  match body s with
  | Done a s1 =>
      match cleanup s1 with
      | Done _ s2 => Done a s2
      | Raised e s2 => Raised e s2
      | Stopped s2 => Stopped s2
      end
  | Raised e s1 =>
      match cleanup s1 with
      | Done _ s2 => Raised e s2
      | Raised e' s2 => Raised e' s2
      | Stopped s2 => Stopped s2
      end
  | Stopped s1 => Stopped s1
  end.

(** One call out of the process: it is not made when the budget is spent.
    The result is the time of the call. *)
Definition tick : M nat := fun s =>
  match budget s with
  | 0 => Stopped s
  | S b => Done (length (trace s)) (with_budget b s)
  end.

Definition emit (e : event) : M unit := fun s =>
  Done tt (with_trace (trace s ++ [e]) s).

Definition get_fs : M (gmap string string) := fun s => Done (fs s) s.
Definition put_fs (f : gmap string string) : M unit := fun s =>
  Done tt (with_fs f s).
Definition get_known : M (list json) := fun s => Done (known s) s.
Definition put_known (k : list json) : M unit := fun s =>
  Done tt (with_known k s).

(** ** The program *)

Section Program.

Variable E : env.

(** The file a path names. *)
Definition key (p : string) : string := abspath E p.

(** *** File-system and network calls *)

(** [os.path.exists(p)]. *)
Definition path_exists (p : string) : M bool := fun s =>
  Done (match fs s !! key p with Some _ => true | None => false end) s.

(** [open(p, "r")]. *)
Definition open_read (p : string) : M unit :=
  t <- tick ;;
  f <- get_fs ;;
  match f !! key p with
  | Some _ =>
      if fs_fault E t then (emit (EvOpen p false) ;; raise OSError)
      else emit (EvOpen p true)
  | None => emit (EvOpen p false) ;; raise OSError
  end.

(** [f.read()] of the file opened at [p]. *)
Definition read_all (p : string) : M string :=
  t <- tick ;;
  f <- get_fs ;;
  match f !! key p with
  | Some text =>
      if fs_fault E t then (emit (EvRead p false) ;; raise OSError)
      else (emit (EvRead p true) ;; ret text)
  | None => emit (EvRead p false) ;; raise OSError
  end.

Definition json_load (text : string) : M json :=
  match json_loads E text with
  | Some v => ret v
  | None => raise ValueError
  end.

(** [tempfile.mkstemp(prefix=pfx, dir=dir)]: the first candidate name
    that is not taken is created, empty. *)
Definition mkstemp (pfx dir : string) : M string :=
  t <- tick ;;
  f <- get_fs ;;
  if fs_fault E t then (emit (EvMkstemp dir pfx None) ;; raise OSError)
  else
    let file name := PyStr.join (abspath E dir) (pfx +:+ name) in
    match
      find (fun name => match f !! key (file name) with
                        | None => true | Some _ => false end)
           (tmp_names E t)
    with
    | Some name =>
        put_fs (<[key (file name) := EmptyString]> f) ;;
        emit (EvMkstemp dir pfx (Some (file name))) ;;
        ret (file name)
    | None => emit (EvMkstemp dir pfx None) ;; raise FileExistsError
    end.

(** [f.write(chunk)] on the file opened at [p]. *)
Definition write_chunk (p chunk : string) : M unit :=
  t <- tick ;;
  f <- get_fs ;;
  if fs_fault E t then (emit (EvWrite p chunk false) ;; raise OSError)
  else
    put_fs (<[key p := (default EmptyString (f !! key p)) +:+ chunk]> f) ;;
    emit (EvWrite p chunk true).

Fixpoint write_chunks (p : string) (chunks : list string) : M unit :=
  match chunks with
  | [] => ret tt
  | c :: r => write_chunk p c ;; write_chunks p r
  end.

(** [f.close()] at the exit of the [with] block. *)
Definition close_file (p : string) : M unit :=
  t <- tick ;;
  if fs_fault E t then (emit (EvClose p false) ;; raise OSError)
  else emit (EvClose p true).

(** [os.remove(p)], [os.unlink(p)]. *)
Definition remove (p : string) : M unit :=
  t <- tick ;;
  f <- get_fs ;;
  match f !! key p with
  | Some _ =>
      if fs_fault E t then (emit (EvRemove p false) ;; raise OSError)
      else (put_fs (delete (key p) f) ;; emit (EvRemove p true))
  | None => emit (EvRemove p false) ;; raise OSError
  end.

(** [os.rename(src, dst)]: it replaces [dst] in one step or changes
    nothing. *)
Definition os_rename (src dst : string) : M unit :=
  t <- tick ;;
  f <- get_fs ;;
  match f !! key src with
  | Some text =>
      if fs_fault E t then (emit (EvRename src dst false) ;; raise OSError)
      else
        put_fs (<[key dst := text]> (delete (key src) f)) ;;
        emit (EvRename src dst true)
  | None => emit (EvRename src dst false) ;; raise OSError
  end.

(** The start of [shutil.copyfile(src, dst)]: the same-file check, then
    [open(src, 'rb')] and [open(dst, 'wb')], which empties [dst].  The
    result is what is to be copied. *)
Definition copy_open (src dst : string) : M string :=
  t <- tick ;;
  f <- get_fs ;;
  match f !! key src with
  | Some text =>
      if String.eqb (key src) (key dst) || fs_fault E t
      then (emit (EvCopyOpen src dst false) ;; raise OSError)
      else
        put_fs (<[key dst := EmptyString]> f) ;;
        emit (EvCopyOpen src dst true) ;;
        ret text
  | None => emit (EvCopyOpen src dst false) ;; raise OSError
  end.

(** One block of the copy reaches [p]. *)
Definition copy_block (p block : string) : M unit :=
  t <- tick ;;
  f <- get_fs ;;
  if fs_fault E t then (emit (EvCopy p block false) ;; raise OSError)
  else
    put_fs (<[key p := (default EmptyString (f !! key p)) +:+ block]> f) ;;
    emit (EvCopy p block true).

(** The copy loop of [copyfile].  The size of a block depends on the
    platform; blocks of one character let a run stop after any prefix. *)
Fixpoint copy_blocks (p text : string) : M unit :=
  match text with
  | EmptyString => ret tt
  | String c r => copy_block p (String c EmptyString) ;; copy_blocks p r
  end.

(** [shutil.copystat(src, dst)]; file metadata is not modelled. *)
Definition copystat (src dst : string) : M unit :=
  t <- tick ;;
  if fs_fault E t then (emit (EvCopystat src dst false) ;; raise OSError)
  else emit (EvCopystat src dst true).

(** [shutil.copy2(src, dst)]: [copyfile], then [copystat]. *)
Definition copy2 (src dst : string) : M unit :=
  text <- copy_open src dst ;;
  finally (copy_blocks dst text) (close_file dst) ;;
  copystat src dst.

(** The body of [shutil.move(src, dst)] for a regular file [src] and a
    [dst] that is no directory (the model has regular files only):
    [os.rename], and when it raises [OSError] a copy of [src] onto [dst]
    followed by [os.unlink(src)]. *)
Definition rename_or_copy (src dst : string) : M unit :=
  r <- try (os_rename src dst) ;;
  match r with
  | inr _ => ret tt
  | inl e =>
      if is_os_error e then (copy2 src dst ;; remove src) else raise e
  end.

(** [shutil.move(src, dst)], recorded when it returns or raises. *)
Definition move (src dst : string) : M unit := fun s =>
  match rename_or_copy src dst s with
  | Done _ s1 => emit (EvMove src dst true) s1
  | Raised e s1 => (emit (EvMove src dst false) ;; raise e) s1
  | Stopped s1 => Stopped s1
  end.

(** [requests.get(url, ...)], [raise_for_status()], [resp.text]. *)
Definition fetch_html (url : string) : M string :=
  t <- tick ;;
  match fetch_resp E t url with
  | inl e => emit (EvFetch url false) ;; raise e
  | inr html => emit (EvFetch url true) ;; ret html
  end.

(** [requests.get(pdf_url)], [raise_for_status()], [response.content]. *)
Definition download (url : string) : M string :=
  t <- tick ;;
  match download_resp E t url with
  | inl e => emit (EvDownload url false) ;; raise e
  | inr pdf_bytes => emit (EvDownload url true) ;; ret pdf_bytes
  end.

(** [c.models.generate_content(...)], then [response.parsed]. *)
Definition generate_content (c : client) (contents : string) : M json :=
  t <- tick ;;
  match generate_resp E t c contents with
  | inl e => emit (EvGenerate c false) ;; raise e
  | inr parsed => emit (EvGenerate c true) ;; ret parsed
  end.

(** [time.sleep(secs)]. *)
Definition py_sleep (secs : Z) : M unit :=
  if (secs <? 0)%Z then raise ValueError
  else (t <- tick ;; emit (EvSleep secs)).

(** *** Agent 1: the watcher *)

(** One turn of the [for a in anchors] loop. *)
Definition scan_anchor (base_url : string)
    (names_to_urls : Dict.t string) (raw_href : string) : Dict.t string :=
  let href := PyStr.strip raw_href in
  if PyStr.is_empty href then names_to_urls
  else
    let full_url := urljoin E base_url href in
    let basename := PyStr.basename (urlparse_path E full_url) in
    if PyStr.is_empty basename then names_to_urls
    else
      let decoded_basename := PyStr.unquote basename in
      if PyStr.endswith (PyStr.lower decoded_basename) ".pdf" then
        let name := PyStr.lower (PyStr.slice_drop_last 4 decoded_basename) in
        if PyStr.is_empty name then names_to_urls
        else Dict.set name full_url names_to_urls
      else names_to_urls.

Definition extract_pdf_names_and_urls (html base_url : string)
    : Dict.t string :=
  fold_left (scan_anchor base_url) (select_anchors E html) [].

(** [list(data)] for a loaded value that is not a list. *)
Definition py_list (data : json) : M (list json) :=
  match data with
  | JArr l => ret l
  | JObj fields => ret (map (fun kv => JStr (fst kv)) fields)
  | JStr s =>
      ret (map (fun c => JStr (String c EmptyString)) (String.list_ascii_of_string s))
  | _ => raise TypeError
  end.

Definition load_known (json_path : string) : M (list json) :=
  present <- path_exists json_path ;;
  if negb present then ret []
  else
    open_read json_path ;;
    r <- try (text <- read_all json_path ;;
              data <- json_load text ;;
              match data with
              | JArr l => ret l
              | _ => py_list data
              end) ;;
    match r with
    | inr l => ret l
    | inl _ => ret []
    end.

Definition save_known_atomic (list_data : list json) (json_path : string)
    : M unit :=
  let dirn :=
    let d := PyStr.dirname (abspath E json_path) in
    if PyStr.is_empty d then "."%string else d in
  tmp <- mkstemp ("." +:+ PyStr.basename json_path +:+ ".") dirn ;;
  finally
    (finally (write_chunks tmp (json_chunks E list_data)) (close_file tmp) ;;
     move tmp json_path)
    (present <- path_exists tmp ;;
     if present then (_ <- try (remove tmp) ;; ret tt) else ret tt).

(** *** Agent 2: the extractor *)

(** The [while True] loop of [get_gemini_output]. *)
Fixpoint retry_generate (fuel : nat) (c : client) (contents : string)
    : M json :=
  match fuel with
  | 0 => stop
  | S fuel' =>
      r <- try (generate_content c contents) ;;
      match r with
      | inr parsed =>
          if truthy parsed then ret parsed
          else (py_sleep 5 ;; retry_generate fuel' c contents)
      | inl _ => py_sleep 5 ;; retry_generate fuel' c contents
      end
  end.

(** [None] is Python's [None]. *)
Definition get_gemini_output (pdf_url : string) : M (option json) :=
  match genai_client E with
  | None => ret None
  | Some c =>
      r <- try (download pdf_url) ;;
      match r with
      | inl e => if is_request_exception e then ret None else raise e
      | inr pdf_bytes =>
          parsed <- (fun s => retry_generate (S (budget s)) c pdf_bytes s) ;;
          ret (Some parsed)
      end
  end.

(** *** Agent 3: the uploader *)

Definition add_incident (supabase : option string) (incident_data : json)
    : M unit :=
  match supabase with
  | None => ret tt
  | Some _ =>
      match incident_data with
      | JObj _ =>
          t <- tick ;;
          emit (EvInsert incident_data (insert_resp E t incident_data))
      | _ => raise AttributeError
      end
  end.

(** *** The main loop *)

(** Lines 338-344: which entries of [found_urls] are new. *)
Definition detect_new (found_urls : Dict.t string) (known_list : list json)
    : Dict.t string * list string :=
  fold_left
    (fun acc kv =>
       if negb (str_in (fst kv) known_list)
       then (Dict.set (fst kv) (snd kv) (fst acc), snd acc ++ [fst kv])
       else acc)
    found_urls ([], []).

(** The body of [for basename, full_url in new_alerts.items()]. *)
Definition process_alert (supabase_client : option string)
    (item : string * string) : M unit :=
  _ <- try (extracted_data <- get_gemini_output (snd item) ;;
            match extracted_data with
            | Some data =>
                if truthy data then add_incident supabase_client data
                else ret tt
            | None => ret tt
            end) ;;
  ret tt.

Fixpoint for_each {A} (body : A -> M unit) (l : list A) : M unit :=
  match l with
  | [] => ret tt
  | x :: r => body x ;; for_each body r
  end.

(** Lines 338-381: detection, commit and processing for one page. *)
Definition handle_found (json_path : string)
    (supabase_client : option string) (found_urls : Dict.t string)
    : M unit :=
  known0 <- get_known ;;
  let new := detect_new found_urls known0 in
  if negb (Dict.is_empty (fst new)) then
    put_known (known0 ++ map JStr (snd new)) ;;
    known1 <- get_known ;;
    save_known_atomic known1 json_path ;;
    for_each (process_alert supabase_client) (fst new)
  else ret tt.

(** One turn of [while True]; [true] stands for [break]. *)
Definition poll_cycle (target_url json_path : string) (interval : Z)
    (once : bool) (supabase_client : option string) : M bool :=
  r <- try (fetch_html target_url) ;;
  match r with
  | inl _ =>
      if once then ret true else (py_sleep interval ;; ret false)
  | inr html =>
      let found_urls := extract_pdf_names_and_urls html target_url in
      handle_found json_path supabase_client found_urls ;;
      if once then ret true else (py_sleep interval ;; ret false)
  end.

Fixpoint poll_loop (fuel : nat) (target_url json_path : string)
    (interval : Z) (once : bool) (supabase_client : option string)
    : M unit :=
  match fuel with
  | 0 => stop
  | S fuel' =>
      brk <- poll_cycle target_url json_path interval once supabase_client ;;
      if brk then ret tt
      else poll_loop fuel' target_url json_path interval once supabase_client
  end.

Definition main_loop (url json_path : string) (interval : Z)
    (dev_url : option string) (once : bool)
    (supabase_client : option string) (genai_client_obj : option client)
    : M unit :=
  let target_url :=
    match dev_url with
    | Some d => if PyStr.is_empty d then url else d
    | None => url
    end in
  loaded <- load_known json_path ;;
  put_known loaded ;;
  fun s =>
    poll_loop (S (budget s)) target_url json_path interval once
              supabase_client s.

End Program.

(** ** The identifier of a document address *)

(** Lines 81-92 of [extract_pdf_names_and_urls] as a function of the
    resolved address: the name under which it is filed, if any. *)
Definition derived_identifier (E : env) (full_url : string) : option string :=
  let basename := PyStr.basename (urlparse_path E full_url) in
  if PyStr.is_empty basename then None
  else
    let decoded_basename := PyStr.unquote basename in
    if PyStr.endswith (PyStr.lower decoded_basename) ".pdf" then
      let name := PyStr.lower (PyStr.slice_drop_last 4 decoded_basename) in
      if PyStr.is_empty name then None else Some name
    else None.

Fixpoint no_slash (s : string) : bool :=
  match s with
  | EmptyString => true
  | String c r => negb (Ascii.eqb c "/"%char) && no_slash r
  end.

(** The final segment of a path, in the words of the data model: what
    remains after the last slash. *)
Definition final_segment (path seg : string) : Prop :=
  no_slash seg = true /\
  exists head, path = head +:+ seg /\
    (head = EmptyString \/ exists h, head = h +:+ "/").

(** The Document Identifier in the words of the data model: the final
    segment, percent-decoded, its [.pdf] suffix (in any case) stripped,
    lower-cased. *)
Definition spec_identifier (path id : string) : Prop :=
  exists seg stem ext,
    final_segment path seg /\
    PyStr.unquote seg = stem +:+ ext /\
    PyStr.lower ext = ".pdf"%string /\
    id = PyStr.lower stem.

(** ** A concrete environment

    Stand-ins for the library functions, enough to run the program on small
    pages: addresses are absolute [https] addresses, a page is the list of
    its anchors' addresses separated by spaces, and a known-set file holds
    strings that need no escaping. *)

Module Demo.

Definition abs_path (p : string) : string :=
  match p with
  | String c _ => if Ascii.eqb c "/" then p else "/srv/" +:+ p
  | EmptyString => "/srv"
  end.

Definition join_url (base href : string) : string := href.

Fixpoint after_authority_mark (s : string) : string :=
  match s with
  | String c r =>
      match r with
      | String c' r' =>
          if Ascii.eqb c "/" && Ascii.eqb c' "/" then r'
          else after_authority_mark r
      | EmptyString => EmptyString
      end
  | EmptyString => EmptyString
  end.

Fixpoint from_slash (s : string) : string :=
  match s with
  | String c r => if Ascii.eqb c "/" then s else from_slash r
  | EmptyString => EmptyString
  end.

Fixpoint until_query (s : string) : string :=
  match s with
  | String c r =>
      if Ascii.eqb c "?" || Ascii.eqb c "#" then EmptyString
      else String c (until_query r)
  | EmptyString => EmptyString
  end.

Definition path_of_url (url : string) : string :=
  until_query (from_slash (after_authority_mark url)).

Fixpoint words_from (cur : string) (s : string) : list string :=
  match s with
  | EmptyString => if PyStr.is_empty cur then [] else [cur]
  | String c r =>
      if Ascii.eqb c " " then
        (if PyStr.is_empty cur then words_from EmptyString r
         else cur :: words_from EmptyString r)
      else words_from (cur +:+ String c EmptyString) r
  end.

Definition anchors_of (html : string) : list string :=
  words_from EmptyString html.

Definition dq : string := String (ascii_of_nat 34) EmptyString.
Definition nl : string := String (ascii_of_nat 10) EmptyString.

Definition render (v : json) : string :=
  match v with
  | JStr s => dq +:+ s +:+ dq
  | _ => "null"
  end.

Fixpoint item_chunks (first : bool) (l : list json) : list string :=
  match l with
  | [] => []
  | v :: r =>
      ((if first then "[" +:+ nl +:+ "  " else "," +:+ nl +:+ "  ")
         +:+ render v) :: item_chunks false r
  end.

Definition chunks_of (l : list json) : list string :=
  match l with
  | [] => ["[]"%string]
  | _ => item_chunks true l ++ [nl; "]"%string]
  end.

Definition dumps (l : list json) : string :=
  fold_right String.append EmptyString (chunks_of l).

(** The documents [loads] understands. *)
Definition documents : list (string * json) :=
  [ (dumps [JStr "alpha"], JArr [JStr "alpha"]);
    ("{" +:+ dq +:+ "a" +:+ dq +:+ ": 1}", JObj [("a"%string, JInt 1)]);
    (dq +:+ "ab" +:+ dq, JStr "ab");
    ("7"%string, JInt 7);
    ("null"%string, JNull);
    ("[]"%string, JArr []) ].

Definition loads (text : string) : option json :=
  option_map snd
    (find (fun d : string * json => String.eqb (fst d) text) documents).

Definition make (genai : option client) (fault : nat -> bool)
    (fetch : nat -> string -> exn + string)
    (pdf : nat -> string -> exn + string)
    (generate : nat -> client -> string -> exn + json) : env :=
  {| abspath := abs_path;
     urljoin := join_url;
     urlparse_path := path_of_url;
     select_anchors := anchors_of;
     json_chunks := chunks_of;
     json_loads := loads;
     genai_client := genai;
     fs_fault := fault;
     tmp_names := fun _ => ["a1b2c3d4"%string; "e5f6g7h8"%string];
     fetch_resp := fetch;
     download_resp := pdf;
     generate_resp := generate;
     insert_resp := fun _ _ => true |}.

Definition no_fault : nat -> bool := fun _ => false.

(** The page at every address. *)
Definition serve (html : string) : nat -> string -> exn + string :=
  fun _ _ => inr html.

Definition pdf_ok : nat -> string -> exn + string :=
  fun _ url => inr ("%PDF " +:+ url).

Definition a_record : json :=
  JObj [("mine"%string, JStr "Pit 4"); ("casualties"%string, JInt 1)].

Definition generate_ok : nat -> client -> string -> exn + json :=
  fun _ _ _ => inr a_record.

Definition generate_never : nat -> client -> string -> exn + json :=
  fun _ _ _ => inl (OtherError 503).

Definition start (files : gmap string string) (k : list json) (b : nat)
    : state :=
  {| fs := files; known := k; trace := []; budget := b |}.

End Demo.

(** The entries of [found] whose key the known list lacks, in order. *)
Definition new_entries (found : Dict.t string) (known_list : list json)
    : Dict.t string :=
  List.filter (fun kv => negb (str_in (fst kv) known_list)) found.

(** ** Relating a state to a later one *)

(** The calls from [s] to [s'] all satisfy [P]. *)
Definition emits (P : event -> bool) (s s' : state) : Prop :=
  exists evs, trace s' = trace s ++ evs /\ Forall (fun e => P e = true) evs.

(** [frame P keep s s']: from [s] to [s'] the list [known] is the same,
    the files whose key [keep] selects are the same, and the calls made in
    between all satisfy [P]. *)
Definition frame (P : event -> bool) (keep : string -> bool) (s s' : state)
    : Prop :=
  known s' = known s /\
  (forall k, keep k = true -> fs s' !! k = fs s !! k) /\
  emits P s s'.

Definition all_keys : string -> bool := fun _ => true.
Definition no_keys : string -> bool := fun _ => false.
Definition except (k0 : string) : string -> bool :=
  fun k => negb (String.eqb k k0).

(** [m] relates every state to the state it ends in, however it ends. *)
Definition preserves {A} (R : relation state) (m : M A) : Prop :=
  forall s, R s (final (m s)).

(** [m] raises only exceptions that satisfy [P]. *)
Definition raises_only {A} (P : exn -> bool) (m : M A) : Prop :=
  forall s e s', m s = Raised e s' -> P e = true.

Definition only_os_error (e : exn) : bool :=
  match e with OSError => true | _ => false end.

Definition is_fetch_event (e : event) : bool :=
  match e with EvFetch _ _ => true | _ => false end.
Definition is_sleep_event (e : event) : bool :=
  match e with EvSleep _ => true | _ => false end.
Definition is_load_event (e : event) : bool :=
  match e with EvOpen _ _ | EvRead _ _ => true | _ => false end.
Definition any_event (e : event) : bool := true.

(** Calls made while the new items are processed. *)
Definition is_work_event (e : event) : bool :=
  is_item_event e || is_sleep_event e.

(** Calls of one turn of the polling loop. *)
Definition is_cycle_event (e : event) : bool :=
  is_fetch_event e || is_save_event e || is_work_event e.

(** The list [known] only grows, by values it did not hold, each once. *)
Definition grows (s s' : state) : Prop :=
  exists added,
    known s' = known s ++ added /\
    NoDup added /\
    forall x, In x added -> ~ In x (known s).

(** Writing, closing or removing the file at [p]. *)
Definition is_tmp_event (p : string) (e : event) : bool :=
  match e with
  | EvWrite q _ _ | EvClose q _ | EvRemove q _ => String.eqb q p
  | _ => false
  end.

(** A model call made with the client [c]. *)
Definition is_generate_by (c : client) (e : event) : bool :=
  match e with EvGenerate c' _ => String.eqb c' c | _ => false end.

(** No model call is made with a client other than [g]. *)
Definition uses_client (g : option client) (e : event) : bool :=
  match e with
  | EvGenerate c _ =>
      match g with Some c' => String.eqb c c' | None => false end
  | _ => true
  end.

Definition is_download_event (e : event) : bool :=
  match e with EvDownload _ _ => true | _ => false end.
Definition is_insert_event (e : event) : bool :=
  match e with EvInsert _ _ => true | _ => false end.

(** Calls made while items are processed, the model calls through [g]. *)
Definition is_work_of (g : option client) (e : event) : bool :=
  is_work_event e && uses_client g e.

(** Calls of one turn of the polling loop, the model calls through [g]. *)
Definition is_cycle_of (g : option client) (e : event) : bool :=
  is_cycle_event e && uses_client g e.

(** ** The shape of a run of [save_known_atomic] *)

(** A call of the copy [shutil.move src dst] makes after a failed rename. *)
Definition is_copy_event (src dst : string) (e : event) : bool :=
  match e with
  | EvCopyOpen s d _ | EvCopystat s d _ => String.eqb s src && String.eqb d dst
  | EvCopy p _ _ | EvClose p _ => String.eqb p dst
  | EvRemove p _ => String.eqb p src
  | _ => false
  end.

(** The calls of a [shutil.move src dst] that returned: the rename alone,
    or a failed rename and the calls of the copy. *)
Definition move_calls (src dst : string) (inner : list event) : Prop :=
  inner = [EvRename src dst true] \/
  exists rest,
    inner = EvRename src dst false :: rest /\
    Forall (fun e => is_copy_event src dst e = true) rest.

(** The files selected are those other than [k1] and [k2]. *)
Definition except2 (k1 k2 : string) : string -> bool :=
  fun k => negb (String.eqb k k1) && negb (String.eqb k k2).

Section SaveShape.

Variable E : env.

(** The [dir] and [prefix] arguments of [mkstemp]. *)
Definition target_dir (json_path : string) : string :=
  let d := PyStr.dirname (abspath E json_path) in
  if PyStr.is_empty d then "."%string else d.

Definition tmp_prefix (json_path : string) : string :=
  "." +:+ PyStr.basename json_path +:+ ".".

(** The temporary file [mkstemp] makes of a candidate name. *)
Definition tmp_path (json_path name : string) : string :=
  PyStr.join (abspath E (target_dir json_path)) (tmp_prefix json_path +:+ name).

(** The text [json.dump] writes. *)
Definition dump (data : list json) : string :=
  fold_right String.append EmptyString (json_chunks E data).

(** A free temporary name does not name the target; it holds as soon as
    the target exists. *)
Definition tmp_safe (json_path : string) (f : gmap string string) : Prop :=
  forall name,
    f !! key E (tmp_path json_path name) = None ->
    key E (tmp_path json_path name) <> key E json_path.

(** How a call of [save_known_atomic data json_path] from [s] can end. *)
Inductive save_run (data : list json) (json_path : string) (s : state)
    : result unit -> Prop :=
| SaveNotStarted : save_run data json_path s (Stopped s)
| SaveNoTemp (e : exn) (s' : state) :
    fs s' = fs s ->
    trace s' =
      trace s ++ [EvMkstemp (target_dir json_path) (tmp_prefix json_path) None] ->
    save_run data json_path s (Raised e s')
| SaveInterrupted (name : string) (r : result unit) (evs : list event) :
    let tmp := tmp_path json_path name in
    fs s !! key E tmp = None ->
    (forall a s', r <> Done a s') ->
    trace (final r) =
      trace s ++ EvMkstemp (target_dir json_path) (tmp_prefix json_path)
                           (Some tmp) :: evs ->
    Forall (fun e => is_tmp_event tmp e = true) evs ->
    (forall k, k <> key E tmp -> fs (final r) !! k = fs s !! k) ->
    (forall e s', r = Raised e s' ->
       fs s' !! key E tmp = None \/ In (EvRemove tmp false) evs) ->
    save_run data json_path s r
| SaveCopyStopped (name : string) (s' : state) (evs rest : list event) :
    let tmp := tmp_path json_path name in
    fs s !! key E tmp = None ->
    trace s' =
      trace s ++ EvMkstemp (target_dir json_path) (tmp_prefix json_path)
                           (Some tmp)
              :: evs ++ EvRename tmp json_path false :: rest ->
    Forall (fun e => is_tmp_event tmp e = true) evs ->
    Forall (fun e => is_copy_event tmp json_path e = true) rest ->
    (forall k, k <> key E tmp -> k <> key E json_path ->
               fs s' !! k = fs s !! k) ->
    save_run data json_path s (Stopped s')
| SaveMoveFailed (name : string) (r : result unit)
    (evs rest post : list event) :
    let tmp := tmp_path json_path name in
    fs s !! key E tmp = None ->
    (r = Raised OSError (final r) \/ r = Stopped (final r)) ->
    trace (final r) =
      trace s ++ EvMkstemp (target_dir json_path) (tmp_prefix json_path)
                           (Some tmp)
              :: evs ++ (EvRename tmp json_path false :: rest)
                     ++ EvMove tmp json_path false :: post ->
    Forall (fun e => is_tmp_event tmp e = true) evs ->
    Forall (fun e => is_copy_event tmp json_path e = true) rest ->
    (post = [] \/ exists ok, post = [EvRemove tmp ok]) ->
    (forall k, k <> key E tmp -> k <> key E json_path ->
               fs (final r) !! k = fs s !! k) ->
    (forall e s', r = Raised e s' ->
       fs s' !! key E tmp = None \/ In (EvRemove tmp false) post) ->
    save_run data json_path s r
| SaveMoved (name : string) (s' : state) (evs inner : list event) :
    let tmp := tmp_path json_path name in
    fs s !! key E tmp = None ->
    trace s' =
      trace s ++ EvMkstemp (target_dir json_path) (tmp_prefix json_path)
                           (Some tmp)
              :: evs ++ inner ++ [EvMove tmp json_path true] ->
    Forall (fun e => is_tmp_event tmp e = true) evs ->
    move_calls tmp json_path inner ->
    fs s' !! key E json_path = Some (dump data) ->
    fs s' !! key E tmp = None ->
    (forall k, k <> key E tmp -> k <> key E json_path ->
               fs s' !! k = fs s !! k) ->
    save_run data json_path s (Done tt s').

End SaveShape.

(** ** A move that fails *)

Definition is_failed_move (e : event) : bool :=
  match e with EvMove _ _ false => true | _ => false end.

Definition no_failed_move (e : event) : bool := negb (is_failed_move e).

(** No temporary name names the target. *)
Definition tmp_distinct (E : env) (json_path : string) : Prop :=
  forall name, key E (tmp_path E json_path name) <> key E json_path.

(** The run ended with an [OSError] or was stopped. *)
Definition is_fatal {A} (r : result A) : Prop :=
  match r with
  | Raised OSError _ | Stopped _ => True
  | _ => False
  end.

(** From [s], the run [r] met one failed move, made at most the removal
    of the temporary file after it, and ended there. *)
Definition fatal_rename {A} (s : state) (r : result A) : Prop :=
  exists pre src dst post,
    trace (final r) = trace s ++ pre ++ EvMove src dst false :: post /\
    Forall (fun e => is_failed_move e = false) pre /\
    (post = [] \/ exists ok, post = [EvRemove src ok]) /\
    is_fatal r.

(** [m] either meets no failed move or ends with the first one. *)
Definition rename_spec {A} (m : M A) : Prop :=
  forall s, emits no_failed_move s (final (m s)) \/ fatal_rename s (m s).

(** The state after one more call, with [b] calls left. *)
Definition after_call (e : event) (b : nat) (s : state) : state :=
  {| fs := fs s; known := known s; trace := trace s ++ [e]; budget := b |}.

(** ** Stopping only when killed *)

(** A run that was stopped had spent its budget. *)
Definition exhausted {A} (r : result A) : Prop :=
  match r with
  | Stopped s' => budget s' = 0
  | _ => True
  end.

(** From [s] the run [r] gained no budget and, if stopped, had none left. *)
Definition within {A} (s : state) (r : result A) : Prop :=
  budget (final r) <= budget s /\ exhausted r.

(** [m] stops only when no budget is left: the fuel of its loops is never
    what stops it. *)
Definition stops_only_killed {A} (m : M A) : Prop :=
  forall s, within s (m s).

(** ** Attempts of the extraction loop *)

(** The model call made at time [t] raises or returns nothing usable. *)
Definition attempt_fails (E : env) (t : nat) (c : client) (contents : string)
    : bool :=
  match generate_resp E t c contents with
  | inl _ => true
  | inr parsed => negb (truthy parsed)
  end.

Definition attempt_returns (E : env) (t : nat) (c : client) (contents : string)
    : bool :=
  match generate_resp E t c contents with
  | inl _ => false
  | inr _ => true
  end.

(** The calls of [n] failed attempts, the first at time [t]: each is a
    model call followed by a sleep of five seconds. *)
Fixpoint failed_attempts (E : env) (c : client) (contents : string)
    (t n : nat) : list event :=
  match n with
  | 0 => []
  | S n' =>
      EvGenerate c (attempt_returns E t c contents)
        :: EvSleep 5 :: failed_attempts E c contents (t + 2) n'
  end.

(** ** Scenarios *)

Module Scenario.

Definition known_file : string := "known.json".

(** A disk on which [alpha] is already known. *)
Definition disk : gmap string string :=
  {[ "/srv/known.json"%string := Demo.dumps [JStr "alpha"] ]}.

Definition page : string :=
  "https://x/alpha.pdf https://x/beta.pdf https://x/gamma.pdf".

Definition healthy : env :=
  Demo.make (Some "key-1"%string) Demo.no_fault (Demo.serve page)
            Demo.pdf_ok Demo.generate_ok.

(** The first write and the removal that follows it fail. *)
Definition write_and_remove_fail : env :=
  Demo.make (Some "key-1"%string) (fun t => Nat.eqb t 1 || Nat.eqb t 3)
            (Demo.serve page) Demo.pdf_ok Demo.generate_ok.

Definition two_known : list json := [JStr "alpha"; JStr "beta"].

(** The model call fails at every attempt. *)
Definition extraction_down : env :=
  Demo.make (Some "key-1"%string) Demo.no_fault (Demo.serve page)
            Demo.pdf_ok Demo.generate_never.

(** The file-system call made at time [t] fails. *)
Definition disk_fails_at (t : nat) : env :=
  Demo.make (Some "key-1"%string) (Nat.eqb t) (Demo.serve page)
            Demo.pdf_ok Demo.generate_ok.

(** The file-system calls made at times [t] and [t + 1] fail: a rename made
    at [t] and the opening of the files for the copy that follows it. *)
Definition move_fails_at (t : nat) : env :=
  Demo.make (Some "key-1"%string) (fun u => Nat.eqb u t || Nat.eqb u (S t))
            (Demo.serve page) Demo.pdf_ok Demo.generate_ok.

(** The document cannot be downloaded. *)
Definition pdf_unreachable : env :=
  Demo.make (Some "key-1"%string) Demo.no_fault (Demo.serve page)
            (fun _ _ => inl RequestException) Demo.generate_ok.

(** The model answers at the third attempt. *)
Definition third_time_lucky : env :=
  Demo.make (Some "key-1"%string) Demo.no_fault (Demo.serve page)
            Demo.pdf_ok
            (fun t _ _ =>
               if Nat.ltb t 3 then inl (OtherError 503)
               else if Nat.ltb t 5 then inr JNull
               else inr Demo.a_record).

(** A disk whose known-set file holds a JSON object. *)
Definition object_disk : gmap string string :=
  {[ "/srv/known.json"%string :=
       "{" +:+ Demo.dq +:+ "a" +:+ Demo.dq +:+ ": 1}" ]}.

Definition all_three : list json := [JStr "alpha"; JStr "beta"; JStr "gamma"].

End Scenario.

(** ** Vocabulary for the rest of the module *)

Definition no_exn : exn -> bool := fun _ => false.

(** What can leave the polling loop: an error of the save, or the
    [ValueError] of [time.sleep] on a negative interval. *)
Definition loop_exn (interval : Z) (e : exn) : bool :=
  is_os_error e
  || match e with ValueError => (interval <? 0)%Z | _ => false end.

(** Calls of [get_gemini_output]. *)
Definition is_extract_event (e : event) : bool :=
  match e with
  | EvDownload _ _ | EvGenerate _ _ | EvSleep _ => true
  | _ => false
  end.

(** The resolved address of an anchor and the identifier it is filed under,
    if any (lines 73-92). *)
Definition anchor_url (E : env) (base_url raw_href : string) : string :=
  urljoin E base_url (PyStr.strip raw_href).

Definition anchor_key (E : env) (base_url raw_href : string) : option string :=
  if PyStr.is_empty (PyStr.strip raw_href) then None
  else derived_identifier E (anchor_url E base_url raw_href).

Definition files_under (E : env) (base_url k raw_href : string) : bool :=
  match anchor_key E base_url raw_href with
  | Some k' => String.eqb k' k
  | None => false
  end.

(** The address of the last anchor filed under [k]. *)
Fixpoint last_url (E : env) (base_url k : string) (anchors : list string)
    : option string :=
  match anchors with
  | [] => None
  | raw :: rest =>
      match last_url E base_url k rest with
      | Some v => Some v
      | None =>
          if files_under E base_url k raw
          then Some (anchor_url E base_url raw) else None
      end
  end.

(** The files the program may write: the Known-Set file and the temporary
    files [mkstemp] makes for it. *)
Definition own_file (E : env) (json_path k : string) : Prop :=
  k = key E json_path \/ exists name, k = key E (tmp_path E json_path name).

Definition keeps_other_files (E : env) (json_path : string) (s s' : state)
    : Prop :=
  forall k, ~ own_file E json_path k -> fs s' !! k = fs s !! k.

(** Files other than the two named are the same. *)
Definition keeps_but (k1 k2 : string) (s s' : state) : Prop :=
  forall k, k <> k1 -> k <> k2 -> fs s' !! k = fs s !! k.

(** The Known-Set file holds the dump of a prefix of [known]. *)
Definition persisted_prefix (E : env) (json_path : string) (s : state) : Prop :=
  exists k0 added,
    fs s !! key E json_path = Some (dump E k0) /\ known s = k0 ++ added.

(** A rename that failed. *)
Definition is_failed_rename (e : event) : bool :=
  match e with EvRename _ _ false => true | _ => false end.

(** From [s] to [s']: unless a rename failed in between, a file that held
    the dump of a prefix of [known] still does. *)
Definition follows (E : env) (json_path : string) (s s' : state) : Prop :=
  exists evs,
    trace s' = trace s ++ evs /\
    (Forall (fun e => is_failed_rename e = false) evs ->
     persisted_prefix E json_path s -> persisted_prefix E json_path s').

(** The Known-Set file holds the dump of [known]. *)
Definition in_step (E : env) (json_path : string) (s : state) : Prop :=
  fs s !! key E json_path = Some (dump E (known s)).

Definition configured {A} (o : option A) : bool :=
  match o with Some _ => true | None => false end.

(** Opening or reading the file at [json_path]. *)
Definition is_load_of (json_path : string) (e : event) : bool :=
  match e with
  | EvOpen p _ | EvRead p _ => String.eqb p json_path
  | _ => false
  end.

(** The calls lines 346-376 can make: the save of the Known Set at
    [json_path], and for each new item a download, model calls through the
    module's client with five-second pauses, and an insert. *)
Definition commit_call (E : env) (json_path : string)
    (supabase_client : option string) (e : event) : bool :=
  match e with
  | EvOpen _ _ | EvRead _ _ | EvFetch _ _ => false
  | EvMkstemp dir pfx _ =>
      String.eqb dir (target_dir E json_path)
      && String.eqb pfx (tmp_prefix json_path)
  | EvRename _ dst _ | EvCopyOpen _ dst _ | EvCopystat _ dst _
  | EvMove _ dst _ => String.eqb dst json_path
  | EvCopy p _ _ => String.eqb p json_path
  | EvWrite _ _ _ | EvClose _ _ | EvRemove _ _ => true
  | EvDownload _ _ => configured (genai_client E)
  | EvGenerate c _ =>
      match genai_client E with
      | Some c' => String.eqb c c'
      | None => false
      end
  | EvInsert _ _ => configured (genai_client E) && configured supabase_client
  | EvSleep secs => (secs =? 5)%Z && configured (genai_client E)
  end.

(** The calls the [while True] loop of [main_loop] can make. *)
Definition loop_call (E : env) (target_url json_path : string) (interval : Z)
    (supabase_client : option string) (e : event) : bool :=
  match e with
  | EvFetch u _ => String.eqb u target_url
  | EvSleep secs =>
      (secs =? interval)%Z || commit_call E json_path supabase_client e
  | _ => commit_call E json_path supabase_client e
  end.

(** [target_url = dev_url if dev_url else url]. *)
Definition target_of (url : string) (dev_url : option string) : string :=
  match dev_url with
  | Some d => if PyStr.is_empty d then url else d
  | None => url
  end.

(** A fetch of [target_url] that failed, or a pause of [interval]. *)
Definition is_failed_poll (target_url : string) (interval : Z) (e : event)
    : bool :=
  match e with
  | EvFetch u ok => String.eqb u target_url && negb ok
  | EvSleep secs => (secs =? interval)%Z
  | _ => false
  end.

(** ** The script *)

(** [init_supabase_client()]: [supabase_url] and [supabase_key] are what
    [os.environ.get] returns, [create_client] is the library's constructor. *)
Definition init_supabase_client (supabase_url supabase_key : option string)
    (create_client : string -> string -> exn + string) : option string :=
  match supabase_url, supabase_key with
  | Some url, Some k =>
      if PyStr.is_empty url || PyStr.is_empty k then None
      else
        match create_client url k with
        | inr supabase => Some supabase
        | inl _ => None
        end
  | _, _ => None
  end.

(** How the script ends: [raise SystemExit(code)], or as [main_loop] did. *)
Inductive outcome : Type :=
| SystemExit (code : Z)
| Ran (r : result unit).

(** The [__main__] block after the arguments are parsed.  An interrupt
    from the keyboard is a run that is stopped. *)
Definition script (E : env) (url json_path : string) (interval : Z)
    (dev_url : option string) (once : bool)
    (supabase_url supabase_key : option string)
    (create_client : string -> string -> exn + string) (s : state)
    : outcome :=
  let supabase_client :=
    init_supabase_client supabase_url supabase_key create_client in
  match genai_client E with
  | None => SystemExit 1
  | Some c =>
      Ran (main_loop E url json_path interval dev_url once supabase_client
                     (Some c) s)
  end.

(** The store cannot be used: a variable is unset or empty, or the
    connection fails. *)
Definition no_store (supabase_url supabase_key : option string)
    (create_client : string -> string -> exn + string) : Prop :=
  supabase_url = None \/ supabase_url = Some EmptyString \/
  supabase_key = None \/ supabase_key = Some EmptyString \/
  exists url k e,
    supabase_url = Some url /\ supabase_key = Some k /\
    create_client url k = inl e.

(** ** Further stand-ins *)

Module Cases.

(** The page cannot be fetched. *)
Definition page_down : env :=
  Demo.make (Some "key-1"%string) Demo.no_fault
            (fun _ _ => inl RequestException) Demo.pdf_ok Demo.generate_ok.

(** No model client. *)
Definition no_extractor : env :=
  Demo.make None Demo.no_fault (Demo.serve Scenario.page) Demo.pdf_ok
            Demo.generate_ok.

(** A disk with a file that is not the program's. *)
Definition shared_disk : gmap string string :=
  <[ "/srv/notes.txt"%string := "keep"%string ]> Scenario.disk.

Definition connect_refused : string -> string -> exn + string :=
  fun _ _ => inl (OtherError 111).

End Cases.

(** * Properties *)

(** ** Strings *)

Section StringFacts.

Import PyStr.

Lemma append_nil_r (s : string) : s +:+ EmptyString = s.
Proof. induction s as [|c s IH]; cbn; [reflexivity | now rewrite IH]. Qed.

Lemma append_assoc (a b c : string) : (a +:+ b) +:+ c = a +:+ (b +:+ c).
Proof. induction a as [|x a IH]; simpl; [reflexivity | now rewrite IH]. Qed.

Lemma length_append (a b : string) :
  String.length (a +:+ b) = String.length a + String.length b.
Proof. induction a as [|x a IH]; simpl; [reflexivity | now rewrite IH]. Qed.

Lemma take_append (a b : string) : take (String.length a) (a +:+ b) = a.
Proof. induction a as [|x a IH]; simpl; [now destruct b | now rewrite IH]. Qed.

Lemma drop_append (a b : string) : drop (String.length a) (a +:+ b) = b.
Proof. induction a as [|x a IH]; simpl; [now destruct b | exact IH]. Qed.

Lemma take_drop (n : nat) (s : string) : take n s +:+ drop n s = s.
Proof.
  revert s; induction n as [|n IH]; intros [|c s]; simpl; try reflexivity.
  now rewrite IH.
Qed.

Lemma length_drop (n : nat) (s : string) :
  String.length (drop n s) = String.length s - n.
Proof.
  revert s; induction n as [|n IH]; intros [|c s]; simpl; try reflexivity.
  apply IH.
Qed.

Lemma length_lower (s : string) : String.length (lower s) = String.length s.
Proof. induction s as [|c s IH]; simpl; [reflexivity | now rewrite IH]. Qed.

Lemma lower_append (a b : string) : lower (a +:+ b) = lower a +:+ lower b.
Proof. induction a as [|x a IH]; simpl; [reflexivity | now rewrite IH]. Qed.

Lemma append_inj_length (a a' b b' : string) :
  a +:+ b = a' +:+ b' -> String.length b = String.length b' ->
  a = a' /\ b = b'.
Proof.
  revert a'; induction a as [|x a IH]; intros [|x' a'] Heq Hlen; simpl in *.
  - now split.
  - apply (f_equal String.length) in Heq; simpl in Heq.
    rewrite length_append in Heq; lia.
  - apply (f_equal String.length) in Heq; simpl in Heq.
    rewrite length_append in Heq; lia.
  - injection Heq as -> Heq. destruct (IH _ Heq Hlen) as [-> ->]. now split.
Qed.

(** [endswith] is "has this suffix". *)
Lemma endswith_iff (s suf : string) :
  endswith s suf = true <-> exists pre, s = pre +:+ suf.
Proof.
  unfold endswith; rewrite andb_true_iff, Nat.leb_le, String.eqb_eq; split.
  - intros [_ Hd]. exists (take (String.length s - String.length suf) s).
    pose proof (take_drop (String.length s - String.length suf) s) as Htd.
    rewrite Hd in Htd. now symmetry.
  - intros [pre ->]. rewrite length_append. split; [lia|].
    replace (String.length pre + String.length suf - String.length suf)
      with (String.length pre) by lia.
    apply drop_append.
Qed.

Lemma slice_drop_last_append (stem ext : string) :
  slice_drop_last (String.length ext) (stem +:+ ext) = stem.
Proof.
  unfold slice_drop_last. rewrite length_append.
  replace (String.length stem + String.length ext - String.length ext)
    with (String.length stem) by lia.
  apply take_append.
Qed.

Lemma basename_from_no_slash (seg p : string) :
  no_slash p = true -> basename_from seg p = seg.
Proof.
  revert seg; induction p as [|c p IH]; intros seg H; simpl in *; [reflexivity|].
  apply andb_true_iff in H as [Hc Hp].
  apply negb_true_iff in Hc. rewrite Hc. now apply IH.
Qed.

Lemma basename_from_append_slash (seg0 head seg : string) :
  no_slash seg = true ->
  basename_from seg0 (head +:+ "/" +:+ seg) = seg.
Proof.
  intros Hs. revert seg0; induction head as [|c h IH]; intros seg0; simpl.
  - now apply basename_from_no_slash.
  - destruct (Ascii.eqb c "/"); apply IH.
Qed.

(** What follows the last slash. *)
Lemma basename_append_slash (head seg : string) :
  no_slash seg = true -> basename (head +:+ "/" +:+ seg) = seg.
Proof. apply basename_from_append_slash. Qed.

Lemma basename_no_slash (p : string) : no_slash p = true -> basename p = p.
Proof. apply basename_from_no_slash. Qed.

Lemma final_segment_basename (path seg : string) :
  final_segment path seg -> basename path = seg.
Proof.
  intros [Hs [head [-> [-> | [h ->]]]]].
  - now apply basename_no_slash.
  - rewrite append_assoc. now apply basename_append_slash.
Qed.

Lemma no_slash_snoc (h : string) (c : ascii) :
  no_slash h = true -> Ascii.eqb c "/" = false ->
  no_slash (h +:+ String c EmptyString) = true.
Proof.
  intros Hh Hc. induction h as [|x h IH]; simpl in *.
  - now rewrite Hc.
  - apply andb_true_iff in Hh as [-> Hh]. now apply IH.
Qed.

Lemma basename_from_final (path seg0 p : string) :
  (exists pre h, path = pre +:+ seg0 /\ seg0 = h +:+ p /\ no_slash h = true /\
                 (pre = EmptyString \/ exists x, pre = x +:+ "/")) ->
  final_segment path (basename_from seg0 p).
Proof.
  revert seg0; induction p as [|c p IH];
    intros seg0 (pre & h & Hpath & Hseg & Hh & Hpre); simpl.
  - rewrite append_nil_r in Hseg. subst seg0.
    split; [exact Hh|]. now exists pre.
  - destruct (Ascii.eqb c "/") eqn:Hc.
    + apply Ascii.eqb_eq in Hc. subst c. apply IH.
      exists (pre +:+ h +:+ "/"), EmptyString. repeat split.
      * subst. now rewrite !append_assoc.
      * right. exists (pre +:+ h). now rewrite append_assoc.
    + apply IH. exists pre, (h +:+ String c EmptyString). repeat split.
      * exact Hpath.
      * subst seg0. now rewrite append_assoc.
      * now apply no_slash_snoc.
      * exact Hpre.
Qed.

Lemma basename_final (path : string) : final_segment path (basename path).
Proof.
  apply basename_from_final. exists EmptyString, EmptyString.
  repeat split. now left.
Qed.

End StringFacts.

(** ** Identifier normalization *)

Lemma scan_anchor_derived (E : env) (base_url : string) (d : Dict.t string)
    (raw_href : string) :
  scan_anchor E base_url d raw_href =
    if PyStr.is_empty (PyStr.strip raw_href) then d
    else
      let full_url := urljoin E base_url (PyStr.strip raw_href) in
      match derived_identifier E full_url with
      | Some name => Dict.set name full_url d
      | None => d
      end.
Proof.
  unfold scan_anchor, derived_identifier.
  destruct (PyStr.is_empty (PyStr.strip raw_href)); [reflexivity|].
  cbv zeta.
  destruct (PyStr.is_empty (PyStr.basename _)); [reflexivity|].
  destruct (PyStr.endswith _ _); [|reflexivity].
  destruct (PyStr.is_empty (PyStr.lower _)); reflexivity.
Qed.

Lemma is_empty_false (s : string) : PyStr.is_empty s = false <-> s <> EmptyString.
Proof. destruct s; simpl; split; congruence. Qed.

Lemma lower_pdf_length (ext : string) :
  PyStr.lower ext = ".pdf"%string -> String.length ext = 4.
Proof.
  intros H. apply (f_equal String.length) in H.
  now rewrite length_lower in H.
Qed.

Lemma derived_identifier_sound (E : env) (full_url id : string) :
  derived_identifier E full_url = Some id ->
  id <> EmptyString /\ spec_identifier (urlparse_path E full_url) id.
Proof.
  unfold derived_identifier.
  set (path := urlparse_path E full_url).
  destruct (PyStr.is_empty (PyStr.basename path)) eqn:Hb; [discriminate|].
  set (dec := PyStr.unquote (PyStr.basename path)).
  destruct (PyStr.endswith (PyStr.lower dec) ".pdf") eqn:He; [|discriminate].
  destruct (PyStr.is_empty (PyStr.lower (PyStr.slice_drop_last 4 dec))) eqn:Hn;
    [discriminate|].
  intros [= <-]. split; [now apply is_empty_false|].
  exists (PyStr.basename path), (PyStr.slice_drop_last 4 dec),
    (PyStr.drop (String.length dec - 4) dec).
  split; [apply basename_final|].
  split; [symmetry; apply take_drop|].
  split; [|reflexivity].
  apply endswith_iff in He as [pre Hpre].
  pose proof (take_drop (String.length dec - 4) dec) as Htd.
  apply (f_equal PyStr.lower) in Htd. rewrite lower_append, Hpre in Htd.
  assert (Hlen : 4 <= String.length dec).
  { apply (f_equal String.length) in Hpre.
    rewrite length_lower, length_append in Hpre. simpl in Hpre. lia. }
  apply append_inj_length in Htd as [_ Hext]; [exact Hext|].
  rewrite length_lower, length_drop. simpl. lia.
Qed.

Lemma unquote_nonempty (s : string) :
  PyStr.unquote s <> EmptyString -> s <> EmptyString.
Proof. intros H ->. now apply H. Qed.

Lemma derived_identifier_complete (E : env) (full_url id : string) :
  id <> EmptyString -> spec_identifier (urlparse_path E full_url) id ->
  derived_identifier E full_url = Some id.
Proof.
  intros Hid (seg & stem & ext & Hseg & Hdec & Hext & ->).
  unfold derived_identifier.
  rewrite (final_segment_basename _ _ Hseg).
  pose proof (lower_pdf_length _ Hext) as Hlen.
  assert (Hne : PyStr.is_empty seg = false).
  { apply is_empty_false, unquote_nonempty. rewrite Hdec.
    intros H. apply (f_equal String.length) in H.
    rewrite length_append in H. simpl in H. lia. }
  rewrite Hne, Hdec.
  assert (He : PyStr.endswith (PyStr.lower (stem +:+ ext)) ".pdf" = true).
  { apply endswith_iff. exists (PyStr.lower stem).
    now rewrite lower_append, Hext. }
  rewrite He. rewrite <- Hlen, slice_drop_last_append.
  apply is_empty_false in Hid. now rewrite Hid.
Qed.

(** C7. The identifier the scraper files an address under is the final
    segment of its path, percent-decoded, with a [.pdf] suffix of any case
    stripped, lower-cased; an address ending in [/Alert%20No%2012.PDF] is
    filed under [alert no 12], and addresses ending in [/foo.pdf] and
    [/FOO.PDF] both under [foo]. *)
Theorem identifier_normalization (E : env) (full_url : string) :
  (forall base_url d raw_href,
      PyStr.strip raw_href <> EmptyString ->
      urljoin E base_url (PyStr.strip raw_href) = full_url ->
      scan_anchor E base_url d raw_href =
        match derived_identifier E full_url with
        | Some name => Dict.set name full_url d
        | None => d
        end) /\
  (forall id, derived_identifier E full_url = Some id <->
              id <> EmptyString /\ spec_identifier (urlparse_path E full_url) id) /\
  (forall dirs, urlparse_path E full_url = dirs +:+ "/Alert%20No%2012.PDF" ->
                derived_identifier E full_url = Some "alert no 12"%string) /\
  (forall dirs, urlparse_path E full_url = dirs +:+ "/foo.pdf" ->
                derived_identifier E full_url = Some "foo"%string) /\
  (forall dirs, urlparse_path E full_url = dirs +:+ "/FOO.PDF" ->
                derived_identifier E full_url = Some "foo"%string).
Proof.
  split.
  { intros base_url d raw_href Hne Hurl. rewrite scan_anchor_derived.
    apply is_empty_false in Hne. rewrite Hne. cbv zeta. now rewrite Hurl. }
  split.
  { intros id. split.
    - apply derived_identifier_sound.
    - intros [Hid Hspec]. now apply derived_identifier_complete. }
  repeat split; intros dirs Hpath; unfold derived_identifier; rewrite Hpath.
  - change (dirs +:+ "/Alert%20No%2012.PDF")
      with (dirs +:+ "/" +:+ "Alert%20No%2012.PDF").
    rewrite basename_append_slash by reflexivity. reflexivity.
  - change (dirs +:+ "/foo.pdf") with (dirs +:+ "/" +:+ "foo.pdf").
    rewrite basename_append_slash by reflexivity. reflexivity.
  - change (dirs +:+ "/FOO.PDF") with (dirs +:+ "/" +:+ "FOO.PDF").
    rewrite basename_append_slash by reflexivity. reflexivity.
Qed.

(** ** The change detector *)

Lemma str_in_iff (x : string) (l : list json) :
  str_in x l = true <-> In (JStr x) l.
Proof.
  unfold str_in. rewrite existsb_exists. split.
  - intros [v [Hin Hv]]. destruct v; try discriminate.
    apply String.eqb_eq in Hv. now subst.
  - intros Hin. exists (JStr x). split; [exact Hin|]. apply String.eqb_refl.
Qed.

Lemma dict_set_fresh {V} (k : string) (v : V) (d : Dict.t V) :
  ~ In k (Dict.keys d) -> Dict.set k v d = d ++ [(k, v)].
Proof.
  induction d as [|[k' v'] d IH]; simpl; intros Hk; [reflexivity|].
  destruct (String.eqb_spec k' k) as [->|Hne].
  - exfalso. apply Hk. now left.
  - rewrite IH; [reflexivity|]. intros Hin. apply Hk. now right.
Qed.

Lemma dict_set_keys {V} (k : string) (v : V) (d : Dict.t V) :
  Dict.keys (Dict.set k v d) =
    if Dict.mem k d then Dict.keys d else Dict.keys d ++ [k].
Proof.
  unfold Dict.mem.
  induction d as [|[k' v'] d IH]; simpl; [reflexivity|].
  rewrite (String.eqb_sym k k').
  destruct (String.eqb k' k); simpl; [reflexivity|].
  fold (Dict.keys (Dict.set k v d)). rewrite IH.
  now destruct (existsb _ _).
Qed.

Lemma dict_mem_iff {V} (k : string) (d : Dict.t V) :
  Dict.mem k d = true <-> In k (Dict.keys d).
Proof.
  unfold Dict.mem. rewrite existsb_exists. split.
  - intros [x [Hin Hx]]. apply String.eqb_eq in Hx. now subst.
  - intros Hin. exists k. split; [exact Hin|]. apply String.eqb_refl.
Qed.

(** Assignment keeps the keys of a dictionary distinct. *)
Lemma dict_set_wf {V} (k : string) (v : V) (d : Dict.t V) :
  Dict.wf d -> Dict.wf (Dict.set k v d).
Proof.
  unfold Dict.wf. intros Hd. rewrite dict_set_keys.
  destruct (Dict.mem k d) eqn:Hm; [exact Hd|].
  apply NoDup_app. split; [exact Hd|]. split.
  - intros x Hx Hx'. apply list_elem_of_In in Hx, Hx'.
    destruct Hx' as [<-|[]].
    apply dict_mem_iff in Hx. congruence.
  - apply NoDup_singleton.
Qed.

Lemma new_entries_keys_in (found : Dict.t string) (known_list : list json)
    (k : string) :
  In k (Dict.keys (new_entries found known_list)) -> In k (Dict.keys found).
Proof.
  unfold Dict.keys, new_entries. rewrite !in_map_iff.
  intros [kv [Hk Hin]]. apply filter_In in Hin as [Hin _]. now exists kv.
Qed.

Lemma detect_new_from (found acc : Dict.t string) (names : list string)
    (known_list : list json) :
  NoDup (Dict.keys acc ++ Dict.keys found) ->
  fold_left
    (fun acc kv =>
       if negb (str_in (fst kv) known_list)
       then (Dict.set (fst kv) (snd kv) (fst acc), snd acc ++ [fst kv])
       else acc)
    found (acc, names)
  = (acc ++ new_entries found known_list,
     names ++ Dict.keys (new_entries found known_list)).
Proof.
  revert acc names; induction found as [|[k v] found IH]; intros acc names Hnd.
  - simpl. now rewrite !app_nil_r.
  - simpl. destruct (str_in k known_list); simpl.
    + apply IH. simpl in Hnd. apply NoDup_app in Hnd as (Ha & Hdis & Hf).
      apply NoDup_app. repeat split; [exact Ha| |now inversion Hf].
      intros x Hx Hx'. apply (Hdis x Hx). now right.
    + simpl in Hnd.
      assert (Hk : ~ In k (Dict.keys acc)).
      { apply NoDup_app in Hnd as (_ & Hdis & _). intros Hin.
        apply list_elem_of_In in Hin. apply (Hdis k Hin). now left. }
      rewrite dict_set_fresh by exact Hk.
      rewrite IH.
      * now rewrite <- !app_assoc.
      * unfold Dict.keys in *. rewrite map_app. simpl.
        rewrite <- app_assoc. exact Hnd.
Qed.

Lemma detect_new_eq (found : Dict.t string) (known_list : list json) :
  Dict.wf found ->
  detect_new found known_list =
    (new_entries found known_list, Dict.keys (new_entries found known_list)).
Proof. intros Hwf. unfold detect_new. now rewrite detect_new_from. Qed.

Lemma handle_found_unfold (E : env) (json_path : string) (sb : option string)
    (found : Dict.t string) (s : state) :
  handle_found E json_path sb found s =
    let new := detect_new found (known s) in
    if negb (Dict.is_empty (fst new)) then
      bind (save_known_atomic E (known s ++ map JStr (snd new)) json_path)
           (fun _ => for_each (process_alert E sb) (fst new))
           (with_known (known s ++ map JStr (snd new)) s)
    else Done tt s.
Proof.
  unfold handle_found. unfold bind at 1. unfold get_known at 1.
  cbv zeta. destruct (negb _); reflexivity.
Qed.

(** C2. The change detector returns exactly the entries of the Observed
    Map whose key is not in the Known Set, in the map's order, together with
    their keys; it is a function of these two inputs only -- when nothing is
    new the detection step makes no call and leaves the state as it is --
    and a key is in the Known Set exactly when the list holds that very
    string. *)
Theorem change_detector_exact (found : Dict.t string) (known_list : list json) :
  Dict.wf found ->
  detect_new found known_list =
    (new_entries found known_list, Dict.keys (new_entries found known_list))
  /\ (forall kv, In kv (new_entries found known_list) <->
                 In kv found /\ ~ In (JStr (fst kv)) known_list)
  /\ (forall E json_path supabase_client s,
        known s = known_list ->
        new_entries found known_list = [] ->
        handle_found E json_path supabase_client found s = Done tt s).
Proof.
  intros Hwf. split; [|split].
  - now apply detect_new_eq.
  - intros kv. unfold new_entries. rewrite filter_In, negb_true_iff.
    rewrite <- str_in_iff. now destruct (str_in (fst kv) known_list).
  - intros E json_path sb s Hk Hnone. rewrite handle_found_unfold, Hk.
    rewrite (detect_new_eq found known_list Hwf). cbv zeta. cbn [fst snd].
    now rewrite Hnone.
Qed.

(** ** The monad's combinators preserve preorders on states *)

Section Preserves.

Context (R : relation state) `{!PreOrder R}.

Lemma preserves_ret {A} (a : A) : preserves R (ret a).
Proof. intros s. simpl. reflexivity. Qed.

Lemma preserves_raise {A} (e : exn) : preserves R (@raise A e).
Proof. intros s. simpl. reflexivity. Qed.

Lemma preserves_stop {A} : preserves R (@stop A).
Proof. intros s. simpl. reflexivity. Qed.

Lemma preserves_bind {A B} (m : M A) (f : A -> M B) :
  preserves R m -> (forall a, preserves R (f a)) -> preserves R (bind m f).
Proof.
  intros Hm Hf s. unfold bind. specialize (Hm s).
  destruct (m s) as [a s1|e s1|s1]; simpl in *; try exact Hm.
  etransitivity; [exact Hm | apply Hf].
Qed.

Lemma preserves_try {A} (m : M A) : preserves R m -> preserves R (try m).
Proof.
  intros Hm s. unfold try. specialize (Hm s).
  now destruct (m s) as [a s1|e s1|s1].
Qed.

Lemma preserves_finally {A} (body : M A) (cleanup : M unit) :
  preserves R body -> preserves R cleanup -> preserves R (finally body cleanup).
Proof.
  intros Hb Hc s. unfold finally. specialize (Hb s).
  destruct (body s) as [a s1|e s1|s1]; simpl in *; try exact Hb.
  - specialize (Hc s1). destruct (cleanup s1); simpl in *;
      (etransitivity; [exact Hb | exact Hc]).
  - specialize (Hc s1). destruct (cleanup s1); simpl in *;
      (etransitivity; [exact Hb | exact Hc]).
Qed.

Lemma preserves_for_each {A} (body : A -> M unit) (l : list A) :
  (forall x, preserves R (body x)) -> preserves R (for_each body l).
Proof.
  intros Hb. induction l as [|x l IH]; simpl.
  - apply preserves_ret.
  - apply preserves_bind; [apply Hb | intros _; exact IH].
Qed.

Lemma preserves_at {A} (g : state -> M A) :
  (forall s0, preserves R (g s0)) -> preserves R (fun s => g s s).
Proof. intros Hg s. apply Hg. Qed.

End Preserves.

#[global] Instance emits_preorder (P : event -> bool) : PreOrder (emits P).
Proof.
  split.
  - intros s. exists []. split; [now rewrite app_nil_r | constructor].
  - intros s1 s2 s3 (evs1 & Ht1 & Hp1) (evs2 & Ht2 & Hp2).
    exists (evs1 ++ evs2). split.
    + now rewrite Ht2, Ht1, app_assoc.
    + now apply Forall_app.
Qed.

Lemma emits_weaken (P Q : event -> bool) (s s' : state) :
  (forall e, P e = true -> Q e = true) -> emits P s s' -> emits Q s s'.
Proof.
  intros HPQ (evs & Ht & Hp). exists evs. split; [exact Ht|].
  eapply Forall_impl; [exact Hp|]. exact HPQ.
Qed.

#[global] Instance frame_preorder (P : event -> bool) (keep : string -> bool) :
  PreOrder (frame P keep).
Proof.
  split.
  - intros s. split; [reflexivity|]. split; [reflexivity|]. reflexivity.
  - intros s1 s2 s3 (Hk1 & Hf1 & He1) (Hk2 & Hf2 & He2).
    split; [congruence|]. split.
    + intros k Hk. rewrite Hf2, Hf1; auto.
    + etransitivity; eassumption.
Qed.

Lemma frame_weaken (P Q : event -> bool) (keep keep' : string -> bool)
    (s s' : state) :
  (forall e, P e = true -> Q e = true) ->
  (forall k, keep' k = true -> keep k = true) ->
  frame P keep s s' -> frame Q keep' s s'.
Proof.
  intros HPQ Hk (Hkn & Hfs & He).
  split; [exact Hkn|]. split; [auto|]. eapply emits_weaken; eauto.
Qed.

Lemma preserves_weaken {A} (P Q : event -> bool) (keep keep' : string -> bool)
    (m : M A) :
  (forall e, P e = true -> Q e = true) ->
  (forall k, keep' k = true -> keep k = true) ->
  preserves (frame P keep) m -> preserves (frame Q keep') m.
Proof. intros HPQ Hk Hm s. eapply frame_weaken; eauto. Qed.

Lemma frame_all_keys (P : event -> bool) (s s' : state) :
  frame P all_keys s s' -> fs s' = fs s.
Proof. intros (_ & Hf & _). apply map_eq. intros k. now apply Hf. Qed.

(** *** The primitives *)

Lemma frame_same (P : event -> bool) (keep : string -> bool) (s s' : state) :
  known s' = known s -> fs s' = fs s -> trace s' = trace s ->
  frame P keep s s'.
Proof.
  intros Hk Hf Ht. split; [exact Hk|]. split; [intros; now rewrite Hf|].
  exists []. split; [now rewrite app_nil_r | constructor].
Qed.

Lemma frame_emit (P : event -> bool) (keep : string -> bool) (s s' : state)
    (e : event) :
  trace s' = trace s ++ [e] -> P e = true ->
  known s' = known s ->
  (forall k, keep k = true -> fs s' !! k = fs s !! k) ->
  frame P keep s s'.
Proof.
  intros Ht He Hk Hf. split; [exact Hk|]. split; [exact Hf|].
  exists [e]. split; [exact Ht | now repeat constructor].
Qed.

Ltac unfold_monad :=
  unfold bind, try, finally, tick, emit, ret, raise, stop, get_fs, put_fs,
    get_known, put_known in *.

Ltac split_cases :=
  repeat first
    [ progress cbn [final fs known trace budget with_fs with_budget
                    with_trace with_known]
    | match goal with
      | |- context [match budget ?s with _ => _ end] =>
          destruct (budget s) eqn:?
      | |- context [match ?x with _ => _ end] => destruct x eqn:?
      | |- context [if ?x then _ else _] => destruct x eqn:?
      end ].

Ltac keep_goal :=
  let k := fresh "k" in
  let Hk := fresh "Hk" in
  intros k Hk; cbn in *; try reflexivity; try discriminate;
  unfold except in Hk; apply negb_true_iff, String.eqb_neq in Hk;
  rewrite ?lookup_insert_ne, ?lookup_delete_ne by congruence; reflexivity.

Ltac run_prim :=
  intros s; unfold_monad; split_cases;
  first [ apply frame_same; reflexivity
        | eapply frame_emit;
            [reflexivity | first [reflexivity | apply String.eqb_refl]
            | reflexivity | keep_goal ] ].

Section PrimitiveFrames.

Variable E : env.

Lemma tick_frame (P : event -> bool) (k : string -> bool) : preserves (frame P k) tick.
Proof. unfold tick. run_prim. Qed.

Lemma fetch_html_frame (url : string) :
  preserves (frame is_fetch_event all_keys) (fetch_html E url).
Proof. unfold fetch_html. run_prim. Qed.

Lemma download_frame (url : string) :
  preserves (frame is_download_event all_keys) (download E url).
Proof. unfold download. run_prim. Qed.

Lemma generate_content_frame (c : client) (contents : string) :
  preserves (frame (is_generate_by c) all_keys) (generate_content E c contents).
Proof. unfold generate_content. run_prim. Qed.

Lemma py_sleep_frame (secs : Z) :
  preserves (frame is_sleep_event all_keys) (py_sleep secs).
Proof. unfold py_sleep. run_prim. Qed.

Lemma add_incident_frame (sb : option string) (data : json) :
  preserves (frame is_insert_event all_keys) (add_incident E sb data).
Proof. unfold add_incident. run_prim. Qed.

Lemma open_read_frame (p : string) :
  preserves (frame is_load_event all_keys) (open_read E p).
Proof. unfold open_read. run_prim. Qed.

Lemma read_all_frame (p : string) :
  preserves (frame is_load_event all_keys) (read_all E p).
Proof. unfold read_all. run_prim. Qed.

Lemma mkstemp_frame (pfx dir : string) :
  preserves (frame is_save_event no_keys) (mkstemp E pfx dir).
Proof. unfold mkstemp. run_prim. Qed.

Lemma write_chunk_frame (p chunk : string) :
  preserves (frame (is_tmp_event p) (except (key E p))) (write_chunk E p chunk).
Proof. unfold write_chunk. run_prim. Qed.

Lemma close_file_frame (p : string) :
  preserves (frame (is_tmp_event p) all_keys) (close_file E p).
Proof. unfold close_file. run_prim. Qed.

Lemma remove_frame (p : string) :
  preserves (frame (is_tmp_event p) (except (key E p))) (remove E p).
Proof. unfold remove. run_prim. Qed.

Lemma path_exists_frame (P : event -> bool) (k : string -> bool) (p : string) :
  preserves (frame P k) (path_exists E p).
Proof. unfold path_exists. run_prim. Qed.

End PrimitiveFrames.

(** *** The functions of the program *)

Ltac event_cases :=
  let e := fresh "e" in
  intros e; destruct e; cbn; intros; try reflexivity; try discriminate;
  try assumption.

Ltac by_prim lemma :=
  eapply preserves_weaken; [ | | apply lemma];
  [ event_cases | intros; try reflexivity; try discriminate; try assumption ].

Ltac keep2_goal :=
  let k := fresh "k" in
  let Hk := fresh "Hk" in
  let Hk' := fresh "Hk" in
  intros k Hk; cbn in *; try reflexivity; try discriminate;
  unfold except2 in Hk; apply andb_true_iff in Hk as [Hk Hk'];
  apply negb_true_iff, String.eqb_neq in Hk, Hk';
  rewrite ?lookup_insert_ne, ?lookup_delete_ne by congruence; reflexivity.

Ltac run_prim2 :=
  intros s; unfold_monad; split_cases;
  first [ apply frame_same; reflexivity
        | eapply frame_emit;
            [ reflexivity
            | cbn; rewrite ?String.eqb_refl; reflexivity
            | reflexivity | keep2_goal ] ].

(** [shutil.move src dst] touches no file but [src] and [dst]. *)
Section MoveFrames.

Variable E : env.
Variables src dst : string.

Lemma os_rename_frame :
  preserves (frame is_save_event (except2 (key E src) (key E dst)))
    (os_rename E src dst).
Proof. unfold os_rename. run_prim2. Qed.

Lemma copy_open_frame :
  preserves (frame (is_copy_event src dst) (except2 (key E src) (key E dst)))
    (copy_open E src dst).
Proof. unfold copy_open. run_prim2. Qed.

Lemma copy_block_frame (block : string) :
  preserves (frame (is_copy_event src dst) (except2 (key E src) (key E dst)))
    (copy_block E dst block).
Proof. unfold copy_block. run_prim2. Qed.

Lemma copy_blocks_frame (text : string) :
  preserves (frame (is_copy_event src dst) (except2 (key E src) (key E dst)))
    (copy_blocks E dst text).
Proof.
  induction text as [|c r IH]; simpl.
  - apply preserves_ret; apply _.
  - apply preserves_bind; [apply _ | apply copy_block_frame | intros _; exact IH].
Qed.

Lemma copystat_frame :
  preserves (frame (is_copy_event src dst) (except2 (key E src) (key E dst)))
    (copystat E src dst).
Proof. unfold copystat. run_prim2. Qed.

Lemma copy2_frame :
  preserves (frame (is_copy_event src dst) (except2 (key E src) (key E dst)))
    (copy2 E src dst).
Proof.
  unfold copy2.
  apply preserves_bind; [apply _ | apply copy_open_frame | intros text].
  apply preserves_bind; [apply _ | | intros _; apply copystat_frame].
  apply preserves_finally; [apply _ | apply copy_blocks_frame|].
  unfold close_file. run_prim2.
Qed.

(** The copy and the removal of [src] that follow a failed rename. *)
Lemma copy_and_unlink_frame :
  preserves (frame (is_copy_event src dst) (except2 (key E src) (key E dst)))
    (bind (copy2 E src dst) (fun _ => remove E src)).
Proof.
  apply preserves_bind; [apply _ | apply copy2_frame | intros _].
  unfold remove. run_prim2.
Qed.

Lemma copy_event_save_event (e : event) :
  is_copy_event src dst e = true -> is_save_event e = true.
Proof. destruct e; cbn; intros; try reflexivity; discriminate. Qed.

Lemma rename_or_copy_frame :
  preserves (frame is_save_event (except2 (key E src) (key E dst)))
    (rename_or_copy E src dst).
Proof.
  unfold rename_or_copy.
  apply preserves_bind; [apply _ | | intros r].
  - apply preserves_try, os_rename_frame.
  - destruct r as [e|u]; [|apply preserves_ret; apply _].
    destruct (is_os_error e); [|apply preserves_raise; apply _].
    eapply preserves_weaken; [| |apply copy_and_unlink_frame].
    + apply copy_event_save_event.
    + auto.
Qed.

Lemma move_files :
  preserves (frame is_save_event (except2 (key E src) (key E dst)))
    (move E src dst).
Proof.
  intros s. unfold move.
  pose proof (rename_or_copy_frame s) as H.
  destruct (rename_or_copy E src dst s) as [u s1|e s1|s1]; cbn [final] in H.
  - etransitivity; [exact H|].
    eapply frame_emit; [reflexivity | reflexivity | reflexivity | auto].
  - etransitivity; [exact H|].
    eapply frame_emit; [reflexivity | reflexivity | reflexivity | auto].
  - exact H.
Qed.

Lemma move_frame :
  preserves (frame is_save_event no_keys) (move E src dst).
Proof.
  eapply preserves_weaken; [| |apply move_files]; [auto | discriminate].
Qed.

End MoveFrames.

Section ProgramFrames.

Variable E : env.

Lemma write_chunks_frame (p : string) (chunks : list string) :
  preserves (frame (is_tmp_event p) (except (key E p)))
    (write_chunks E p chunks).
Proof.
  induction chunks as [|c r IH]; simpl.
  - apply preserves_ret; apply _.
  - apply preserves_bind; [apply _ | apply write_chunk_frame | intros _; exact IH].
Qed.

(** The [with] block of [save_known_atomic]. *)
Lemma write_phase_frame (p : string) (chunks : list string) :
  preserves (frame (is_tmp_event p) (except (key E p)))
    (finally (write_chunks E p chunks) (close_file E p)).
Proof.
  apply preserves_finally; [apply _ | apply write_chunks_frame|].
  by_prim (close_file_frame E).
Qed.

(** The [finally] block of [save_known_atomic]. *)
Lemma cleanup_frame (p : string) :
  preserves (frame (is_tmp_event p) (except (key E p)))
    (bind (path_exists E p)
          (fun present : bool =>
             if present then bind (try (remove E p)) (fun _ => ret tt)
             else ret tt)).
Proof.
  apply preserves_bind; [apply _ | apply path_exists_frame | intros present].
  destruct present; [|apply preserves_ret; apply _].
  apply preserves_bind; [apply _ | | intros _; apply preserves_ret; apply _].
  apply preserves_try. apply remove_frame.
Qed.

Lemma is_tmp_event_save (p : string) (e : event) :
  is_tmp_event p e = true -> is_save_event e = true.
Proof. destruct e; cbn; intros; try reflexivity; discriminate. Qed.

Lemma save_known_atomic_frame (data : list json) (json_path : string) :
  preserves (frame is_save_event no_keys) (save_known_atomic E data json_path).
Proof.
  unfold save_known_atomic.
  apply preserves_bind; [apply _ | apply mkstemp_frame | intros tmp].
  apply preserves_finally; [apply _ | | ].
  - apply preserves_bind; [apply _ | | intros _; apply move_frame].
    eapply preserves_weaken; [apply is_tmp_event_save | | apply write_phase_frame].
    intros k; discriminate.
  - eapply preserves_weaken; [apply is_tmp_event_save | | apply cleanup_frame].
    intros k; discriminate.
Qed.

Lemma retry_generate_frame (fuel : nat) (c : client) (contents : string) :
  preserves (frame (is_work_of (Some c)) all_keys)
    (retry_generate E fuel c contents).
Proof.
  induction fuel as [|fuel IH]; simpl.
  - apply preserves_stop; apply _.
  - apply preserves_bind; [apply _ | | intros r].
    + apply preserves_try. by_prim (generate_content_frame E).
    + assert (Hs : preserves (frame (is_work_of (Some c)) all_keys)
                     (bind (py_sleep 5)
                           (fun _ => retry_generate E fuel c contents))).
      { apply preserves_bind; [apply _ | | intros _; exact IH].
        by_prim py_sleep_frame. }
      destruct r as [e|parsed]; [exact Hs|].
      destruct (truthy parsed); [apply preserves_ret; apply _ | exact Hs].
Qed.

Lemma get_gemini_output_frame (pdf_url : string) :
  preserves (frame (is_work_of (genai_client E)) all_keys)
    (get_gemini_output E pdf_url).
Proof.
  unfold get_gemini_output.
  destruct (genai_client E) as [c|]; [|apply preserves_ret; apply _].
  apply preserves_bind; [apply _ | | intros r].
  - apply preserves_try. by_prim (download_frame E).
  - destruct r as [e|pdf_bytes].
    + destruct (is_request_exception e);
        [apply preserves_ret | apply preserves_raise]; apply _.
    + apply preserves_bind; [apply _ | | intros parsed; apply preserves_ret; apply _].
      apply (preserves_at _ (fun s0 => retry_generate E (S (budget s0)) c pdf_bytes)).
      intros s0. apply retry_generate_frame.
Qed.

Lemma process_alert_frame (sb : option string) (item : string * string) :
  preserves (frame (is_work_of (genai_client E)) all_keys)
    (process_alert E sb item).
Proof.
  unfold process_alert.
  apply preserves_bind; [apply _ | | intros _; apply preserves_ret; apply _].
  apply preserves_try.
  apply preserves_bind; [apply _ | apply get_gemini_output_frame | intros r].
  destruct r as [data|]; [|apply preserves_ret; apply _].
  destruct (truthy data); [|apply preserves_ret; apply _].
  by_prim (add_incident_frame E).
Qed.

Lemma process_all_frame (sb : option string) (items : Dict.t string) :
  preserves (frame (is_work_of (genai_client E)) all_keys)
    (for_each (process_alert E sb) items).
Proof.
  apply preserves_for_each; [apply _ | intros x; apply process_alert_frame].
Qed.

Lemma load_known_frame (json_path : string) :
  preserves (frame is_load_event all_keys) (load_known E json_path).
Proof.
  unfold load_known.
  apply preserves_bind; [apply _ | apply path_exists_frame | intros present].
  destruct present; simpl; [|apply preserves_ret; apply _].
  apply preserves_bind; [apply _ | apply open_read_frame | intros _].
  apply preserves_bind; [apply _ | | intros r].
  - apply preserves_try.
    apply preserves_bind; [apply _ | apply read_all_frame | intros text].
    apply preserves_bind; [apply _ | | intros data].
    + unfold json_load. destruct (json_loads E text);
        [apply preserves_ret | apply preserves_raise]; apply _.
    + unfold py_list. destruct data;
        first [apply preserves_ret; apply _ | apply preserves_raise; apply _].
  - destruct r; apply preserves_ret; apply _.
Qed.

End ProgramFrames.

(** ** The Known Set only grows *)

#[global] Instance grows_preorder : PreOrder grows.
Proof.
  split.
  - intros s. exists []. rewrite app_nil_r.
    split; [reflexivity|]. split; [constructor | intros x []].
  - intros s1 s2 s3 (a1 & Hk1 & Hn1 & Hf1) (a2 & Hk2 & Hn2 & Hf2).
    exists (a1 ++ a2). split; [now rewrite Hk2, Hk1, app_assoc|]. split.
    + apply NoDup_app. split; [exact Hn1|]. split; [|exact Hn2].
      intros x Hx1 Hx2. apply list_elem_of_In in Hx1, Hx2.
      apply (Hf2 x Hx2). rewrite Hk1. apply in_or_app. now right.
    + intros x Hx. apply in_app_or in Hx as [Hx|Hx]; [now apply Hf1|].
      intros Hin. apply (Hf2 x Hx). rewrite Hk1. apply in_or_app. now left.
Qed.

Lemma frame_grows (P : event -> bool) (k : string -> bool) (s s' : state) :
  frame P k s s' -> grows s s'.
Proof.
  intros (Hk & _). exists []. rewrite app_nil_r.
  split; [exact Hk|]. split; [constructor | intros x []].
Qed.

Lemma preserves_frame_grows {A} (P : event -> bool) (k : string -> bool)
    (m : M A) :
  preserves (frame P k) m -> preserves grows m.
Proof. intros Hm s. eapply frame_grows, Hm. Qed.

Lemma new_entries_keys_nodup (found : Dict.t string) (known_list : list json) :
  Dict.wf found -> NoDup (Dict.keys (new_entries found known_list)).
Proof.
  unfold Dict.wf, Dict.keys, new_entries.
  induction found as [|[k v] found IH]; simpl; intros Hnd; [constructor|].
  apply NoDup_cons in Hnd as [Hk Hnd].
  destruct (str_in k known_list); simpl; [now apply IH|].
  apply NoDup_cons. split; [|now apply IH].
  intros Hin. apply Hk. apply list_elem_of_In in Hin. apply list_elem_of_In.
  apply in_map_iff in Hin as [kv [Hkv Hin]].
  apply filter_In in Hin as [Hin _]. apply in_map_iff. now exists kv.
Qed.

Lemma new_entries_keys_fresh (found : Dict.t string) (known_list : list json)
    (k : string) :
  In k (Dict.keys (new_entries found known_list)) -> ~ In (JStr k) known_list.
Proof.
  unfold Dict.keys, new_entries. intros Hin.
  apply in_map_iff in Hin as [kv [<- Hin]].
  apply filter_In in Hin as [_ Hn]. apply negb_true_iff in Hn.
  intros Hk. apply str_in_iff in Hk. congruence.
Qed.

Lemma extract_wf (E : env) (html base_url : string) :
  Dict.wf (extract_pdf_names_and_urls E html base_url).
Proof.
  unfold extract_pdf_names_and_urls.
  assert (H : forall l d, Dict.wf d -> Dict.wf (fold_left (scan_anchor E base_url) l d)).
  { induction l as [|a l IH]; intros d Hd; simpl; [exact Hd|].
    apply IH. rewrite scan_anchor_derived.
    destruct (PyStr.is_empty _); [exact Hd|]. cbv zeta.
    destruct (derived_identifier _ _); [now apply dict_set_wf | exact Hd]. }
  apply H. constructor.
Qed.

Section KnownGrowth.

Variable E : env.

Lemma commit_and_process_frame (data : list json) (json_path : string)
    (sb : option string) (items : Dict.t string) :
  preserves (frame (is_cycle_of (genai_client E)) no_keys)
    (bind (save_known_atomic E data json_path)
          (fun _ => for_each (process_alert E sb) items)).
Proof.
  apply preserves_bind; [apply _ | | intros _].
  - by_prim (save_known_atomic_frame E).
  - by_prim (process_all_frame E).
Qed.

Lemma handle_found_grows (json_path : string) (sb : option string)
    (found : Dict.t string) :
  Dict.wf found -> preserves grows (handle_found E json_path sb found).
Proof.
  intros Hwf s. rewrite handle_found_unfold. cbv zeta.
  rewrite (detect_new_eq found (known s) Hwf). simpl.
  destruct (negb _); [|simpl; reflexivity].
  etransitivity;
    [|eapply frame_grows; apply commit_and_process_frame].
  exists (map JStr (Dict.keys (new_entries found (known s)))).
  split; [reflexivity|]. split.
  - apply NoDup_fmap_2; [intros x y [=]; assumption|].
    now apply new_entries_keys_nodup.
  - intros x Hx. simpl. apply in_map_iff in Hx as [k [<- Hk]].
    now apply new_entries_keys_fresh in Hk.
Qed.

Lemma poll_cycle_grows (target_url json_path : string) (interval : Z)
    (once : bool) (sb : option string) :
  preserves grows (poll_cycle E target_url json_path interval once sb).
Proof.
  unfold poll_cycle.
  assert (Hend : preserves grows
            (if once then ret true else bind (py_sleep interval) (fun _ => ret false))).
  { destruct once; [apply preserves_ret; apply _|].
    apply preserves_bind; [apply _ | | intros _; apply preserves_ret; apply _].
    eapply preserves_frame_grows, py_sleep_frame. }
  apply preserves_bind; [apply _ | | intros r].
  - apply preserves_try. eapply preserves_frame_grows, fetch_html_frame.
  - destruct r as [e|html]; [exact Hend|].
    apply preserves_bind; [apply _ | | intros _; exact Hend].
    apply handle_found_grows, extract_wf.
Qed.

Lemma poll_loop_grows (fuel : nat) (target_url json_path : string)
    (interval : Z) (once : bool) (sb : option string) :
  preserves grows (poll_loop E fuel target_url json_path interval once sb).
Proof.
  induction fuel as [|fuel IH]; simpl.
  - apply preserves_stop; apply _.
  - apply preserves_bind; [apply _ | apply poll_cycle_grows | intros brk].
    destruct brk; [apply preserves_ret; apply _ | exact IH].
Qed.

End KnownGrowth.

Lemma grows_nodup (s s' : state) :
  grows s s' -> NoDup (known s) -> NoDup (known s').
Proof.
  intros (added & Hk & Hn & Hf) Hs. rewrite Hk.
  apply NoDup_app. split; [exact Hs|]. split; [|exact Hn].
  intros x Hx Hx'. apply list_elem_of_In in Hx, Hx'. now apply (Hf x Hx').
Qed.

(** C6. Whatever the polling loop does and wherever it is stopped, the list
    [known] it ends with is the list it started with followed by values the
    list did not hold: nothing is removed, nothing is added twice, and a
    duplicate-free list stays duplicate-free. *)
Theorem known_set_invariant (E : env) (fuel : nat)
    (target_url json_path : string) (interval : Z) (once : bool)
    (supabase_client : option string) (s : state) :
  NoDup (known s) ->
  let s' :=
    final (poll_loop E fuel target_url json_path interval once
                     supabase_client s) in
  (exists added,
      known s' = known s ++ added /\
      forall x, In x added -> ~ In x (known s)) /\
  (forall x, In x (known s) -> In x (known s')) /\
  NoDup (known s').
Proof.
  intros Hnd s'.
  pose proof (poll_loop_grows E fuel target_url json_path interval once
                supabase_client s) as Hg.
  fold s' in Hg. split; [|split].
  - destruct Hg as (added & Hk & _ & Hf). now exists added.
  - destruct Hg as (added & Hk & _). intros x Hx. rewrite Hk.
    apply in_or_app. now left.
  - now apply (grows_nodup s s').
Qed.

(** ** What a computation can raise *)

Lemma ro_ret {A} (P : exn -> bool) (a : A) : raises_only P (ret a).
Proof. intros s e s' [=]. Qed.

Lemma ro_stop {A} (P : exn -> bool) : raises_only P (@stop A).
Proof. intros s e s' [=]. Qed.

Lemma ro_raise {A} (P : exn -> bool) (e : exn) :
  P e = true -> raises_only P (@raise A e).
Proof. intros He s e' s' [= <- _]. exact He. Qed.

Lemma ro_bind {A B} (P : exn -> bool) (m : M A) (f : A -> M B) :
  raises_only P m -> (forall a, raises_only P (f a)) ->
  raises_only P (bind m f).
Proof.
  intros Hm Hf s e s'. unfold bind.
  destruct (m s) as [a s1|e1 s1|s1] eqn:Hms; try discriminate.
  - apply Hf.
  - intros [= <- _]. eapply Hm, Hms.
Qed.

Lemma ro_try {A} (P : exn -> bool) (m : M A) : raises_only P (try m).
Proof. intros s e s'. unfold try. now destruct (m s). Qed.

Lemma ro_finally {A} (P : exn -> bool) (body : M A) (cleanup : M unit) :
  raises_only P body -> raises_only P cleanup ->
  raises_only P (finally body cleanup).
Proof.
  intros Hb Hc s e s'. unfold finally.
  destruct (body s) as [a s1|e1 s1|s1] eqn:Hbs; try discriminate.
  - destruct (cleanup s1) as [u s2|e2 s2|s2] eqn:Hcs; try discriminate.
    intros [= <- _]. eapply Hc, Hcs.
  - destruct (cleanup s1) as [u s2|e2 s2|s2] eqn:Hcs; try discriminate.
    + intros [= <- _]. eapply Hb, Hbs.
    + intros [= <- _]. eapply Hc, Hcs.
Qed.

Lemma ro_for_each {A} (P : exn -> bool) (body : A -> M unit) (l : list A) :
  (forall x, raises_only P (body x)) -> raises_only P (for_each body l).
Proof.
  intros Hb. induction l as [|x l IH]; simpl; [apply ro_ret|].
  apply ro_bind; [apply Hb | intros _; exact IH].
Qed.

Lemma ro_weaken {A} (P Q : exn -> bool) (m : M A) :
  (forall e, P e = true -> Q e = true) -> raises_only P m -> raises_only Q m.
Proof. intros HPQ Hm s e s' H. eapply HPQ, Hm, H. Qed.

Ltac ro_prim :=
  let s := fresh "s" in
  let e := fresh "e" in
  let s' := fresh "s'" in
  let H := fresh "H" in
  intros s e s'; unfold_monad; split_cases; intros H;
  try discriminate; injection H as <- _; reflexivity.

(** ** How [save_known_atomic] runs *)

Lemma bind_done_inv {A B} (m : M A) (f : A -> M B) (s s' : state) (b : B) :
  bind m f s = Done b s' ->
  exists a s1, m s = Done a s1 /\ f a s1 = Done b s'.
Proof.
  unfold bind. destruct (m s) as [a s1|e s1|s1]; try discriminate.
  intros H. now exists a, s1.
Qed.

Lemma finally_done_inv {A} (body : M A) (cleanup : M unit) (s s' : state) (a : A) :
  finally body cleanup s = Done a s' ->
  exists s1 u, body s = Done a s1 /\ cleanup s1 = Done u s'.
Proof.
  unfold finally. destruct (body s) as [a1 s1|e s1|s1]; try discriminate.
  - destruct (cleanup s1) as [u s2|e s2|s2] eqn:Hc; try discriminate.
    intros [= <- <-]. now exists s1, u.
  - destruct (cleanup s1); discriminate.
Qed.

Section SaveRuns.

Variable E : env.

Lemma mkstemp_cases (pfx dir : string) (s : state) :
  mkstemp E pfx dir s = Stopped s
  \/ (exists e s',
        mkstemp E pfx dir s = Raised e s' /\
        fs s' = fs s /\ trace s' = trace s ++ [EvMkstemp dir pfx None])
  \/ (exists name s',
        let file := PyStr.join (abspath E dir) (pfx +:+ name) in
        mkstemp E pfx dir s = Done file s' /\
        fs s !! key E file = None /\
        fs s' = <[key E file := EmptyString]> (fs s) /\
        trace s' = trace s ++ [EvMkstemp dir pfx (Some file)]).
Proof.
  unfold mkstemp. unfold_monad.
  destruct (budget s) as [|b]; [now left|]. cbn.
  destruct (fs_fault E (length (trace s))).
  { right; left. eexists _, _. split; [reflexivity|]. now split. }
  destruct (find _ _) as [name|] eqn:Hfind.
  - right; right. exists name. eexists. cbv zeta.
    split; [reflexivity|]. apply find_some in Hfind as [_ Hfree].
    split; [|now split].
    now destruct (fs s !! _).
  - right; left. eexists _, _. split; [reflexivity|]. now split.
Qed.

Lemma write_chunk_done (p c : string) (s s' : state) :
  write_chunk E p c s = Done tt s' ->
  fs s' = <[key E p := default EmptyString (fs s !! key E p) +:+ c]> (fs s).
Proof.
  unfold write_chunk. unfold_monad.
  destruct (budget s); [discriminate|]. cbn.
  destruct (fs_fault E _); [discriminate|]. now intros [= <-].
Qed.

Lemma write_chunks_done (p : string) (chunks : list string) (s s' : state)
    (text : string) :
  fs s !! key E p = Some text ->
  write_chunks E p chunks s = Done tt s' ->
  fs s' !! key E p =
    Some (text +:+ fold_right String.append EmptyString chunks).
Proof.
  revert s text; induction chunks as [|c r IH]; intros s text Hs; simpl.
  - intros [= <-]. now rewrite append_nil_r.
  - intros H. apply bind_done_inv in H as ([] & s1 & Hw & Hr).
    apply write_chunk_done in Hw.
    assert (H1 : fs s1 !! key E p = Some (text +:+ c)).
    { rewrite Hw. cbn. rewrite Hs. apply lookup_insert_eq. }
    rewrite (IH s1 _ H1 Hr). now rewrite append_assoc.
Qed.

Lemma write_phase_done (p : string) (chunks : list string) (s s' : state) :
  fs s !! key E p = Some EmptyString ->
  finally (write_chunks E p chunks) (close_file E p) s = Done tt s' ->
  fs s' !! key E p = Some (fold_right String.append EmptyString chunks).
Proof.
  intros Hs H. apply finally_done_inv in H as (s1 & u & Hw & Hc).
  pose proof (close_file_frame E p s1) as Hf. rewrite Hc in Hf.
  apply frame_all_keys in Hf. cbn in Hf. rewrite Hf.
  now rewrite (write_chunks_done _ _ _ _ _ Hs Hw).
Qed.

Lemma os_rename_cases (src dst : string) (s : state) :
  os_rename E src dst s = Stopped s
  \/ (exists s',
        os_rename E src dst s = Raised OSError s' /\
        fs s' = fs s /\ trace s' = trace s ++ [EvRename src dst false])
  \/ (exists text s',
        os_rename E src dst s = Done tt s' /\
        fs s !! key E src = Some text /\
        fs s' = <[key E dst := text]> (delete (key E src) (fs s)) /\
        trace s' = trace s ++ [EvRename src dst true]).
Proof.
  unfold os_rename. unfold_monad.
  destruct (budget s) as [|b]; [now left|]. cbn.
  destruct (fs s !! key E src) as [text|] eqn:Hsrc.
  - destruct (fs_fault E _).
    + right; left. eexists. split; [reflexivity|]. now split.
    + right; right. exists text. eexists. split; [reflexivity|]. now repeat split.
  - right; left. eexists. split; [reflexivity|]. now split.
Qed.

Lemma copy_open_done (src dst : string) (s s' : state) (text : string) :
  copy_open E src dst s = Done text s' ->
  fs s !! key E src = Some text /\
  fs s' = <[key E dst := EmptyString]> (fs s).
Proof.
  unfold copy_open. unfold_monad.
  destruct (budget s); [discriminate|]. cbn.
  destruct (fs s !! key E src) as [t|]; [|discriminate].
  destruct (_ || _); [discriminate|]. intros [= <- <-]. now split.
Qed.

Lemma copy_block_done (p block : string) (s s' : state) :
  copy_block E p block s = Done tt s' ->
  fs s' = <[key E p := default EmptyString (fs s !! key E p) +:+ block]> (fs s).
Proof.
  unfold copy_block. unfold_monad.
  destruct (budget s); [discriminate|]. cbn.
  destruct (fs_fault E _); [discriminate|]. now intros [= <-].
Qed.

Lemma copy_blocks_done (p text : string) :
  forall (s s' : state) (cur : string),
    fs s !! key E p = Some cur ->
    copy_blocks E p text s = Done tt s' ->
    fs s' !! key E p = Some (cur +:+ text).
Proof.
  induction text as [|c r IH]; intros s s' cur Hs; simpl.
  - intros [= <-]. now rewrite append_nil_r.
  - intros H. apply bind_done_inv in H as ([] & s1 & Hb & Hr).
    apply copy_block_done in Hb.
    assert (H1 : fs s1 !! key E p = Some (cur +:+ String c EmptyString)).
    { rewrite Hb. cbn. rewrite Hs. apply lookup_insert_eq. }
    rewrite (IH s1 s' _ H1 Hr). now rewrite append_assoc.
Qed.

Lemma copystat_done (src dst : string) (s s' : state) :
  copystat E src dst s = Done tt s' -> fs s' = fs s.
Proof.
  unfold copystat. unfold_monad.
  destruct (budget s); [discriminate|]. cbn.
  destruct (fs_fault E _); [discriminate|]. now intros [= <-].
Qed.

Lemma remove_done (p : string) (s s' : state) :
  remove E p s = Done tt s' -> fs s' = delete (key E p) (fs s).
Proof.
  unfold remove. unfold_monad.
  destruct (budget s); [discriminate|]. cbn.
  destruct (fs s !! key E p); [|discriminate].
  destruct (fs_fault E _); [discriminate|]. now intros [= <-].
Qed.

(** A copy that goes through puts the text of [src] at [dst], and the
    removal that follows takes [src] away. *)
Lemma copy_and_unlink_done (src dst text : string) (s s' : state) :
  key E src <> key E dst ->
  fs s !! key E src = Some text ->
  bind (copy2 E src dst) (fun _ => remove E src) s = Done tt s' ->
  fs s' !! key E dst = Some text /\ fs s' !! key E src = None.
Proof.
  intros Hne Hsrc H.
  apply bind_done_inv in H as ([] & s3 & Hcopy & Hrm).
  unfold copy2 in Hcopy.
  apply bind_done_inv in Hcopy as (t & s1 & Hopen & Hcopy).
  apply bind_done_inv in Hcopy as ([] & s2 & Hfin & Hstat).
  apply finally_done_inv in Hfin as (s1' & u & Hblocks & Hclose).
  apply copy_open_done in Hopen as [Ht Hfs1].
  rewrite Hsrc in Ht. injection Ht as <-.
  assert (H1 : fs s1 !! key E dst = Some EmptyString).
  { rewrite Hfs1. apply lookup_insert_eq. }
  pose proof (copy_blocks_done dst text s1 s1' _ H1 Hblocks) as H2.
  pose proof (close_file_frame E dst s1') as Hc. rewrite Hclose in Hc.
  apply frame_all_keys in Hc. cbn [final] in Hc.
  apply copystat_done in Hstat. apply remove_done in Hrm.
  rewrite Hrm. split.
  - rewrite lookup_delete_ne by exact Hne. now rewrite Hstat, Hc.
  - apply lookup_delete_eq.
Qed.

Lemma copy_and_unlink_raises (src dst : string) :
  raises_only only_os_error
    (bind (copy2 E src dst) (fun _ => remove E src)).
Proof.
  apply ro_bind; [|intros _; unfold remove; ro_prim].
  unfold copy2. apply ro_bind; [unfold copy_open; ro_prim | intros text].
  apply ro_bind; [|intros _; unfold copystat; ro_prim].
  apply ro_finally; [|unfold close_file; ro_prim].
  induction text as [|c r IH]; simpl; [apply ro_ret|].
  apply ro_bind; [unfold copy_block; ro_prim | intros _; exact IH].
Qed.

Lemma frame_except2_outside (P : event -> bool) (k1 k2 : string)
    (s s' : state) :
  frame P (except2 k1 k2) s s' ->
  forall k, k <> k1 -> k <> k2 -> fs s' !! k = fs s !! k.
Proof.
  intros (_ & Hf & _) k H1 H2. apply Hf. unfold except2.
  apply andb_true_iff. split; now apply negb_true_iff, String.eqb_neq.
Qed.

(** How the body of [shutil.move] can end when [src] holds [text]. *)
Lemma rename_or_copy_cases (src dst text : string) (s : state) :
  key E src <> key E dst ->
  fs s !! key E src = Some text ->
  let r := rename_or_copy E src dst s in
  r = Stopped s
  \/ (exists s',
        r = Done tt s' /\
        trace s' = trace s ++ [EvRename src dst true] /\
        fs s' = <[key E dst := text]> (delete (key E src) (fs s)))
  \/ (exists rest,
        trace (final r) = trace s ++ EvRename src dst false :: rest /\
        Forall (fun e => is_copy_event src dst e = true) rest /\
        (forall k, k <> key E src -> k <> key E dst ->
                   fs (final r) !! k = fs s !! k) /\
        match r with
        | Done _ s' =>
            fs s' !! key E dst = Some text /\ fs s' !! key E src = None
        | Raised e _ => e = OSError
        | Stopped _ => True
        end).
Proof.
  intros Hne Hsrc r.
  assert (Hr : r = match os_rename E src dst s with
                   | Done _ s1 => Done tt s1
                   | Raised e s1 =>
                       if is_os_error e
                       then bind (copy2 E src dst) (fun _ => remove E src) s1
                       else Raised e s1
                   | Stopped s1 => Stopped s1
                   end).
  { unfold r, rename_or_copy. unfold bind at 1. unfold try.
    destruct (os_rename E src dst s) as [[] s1|e s1|s1]; try reflexivity.
    now destruct (is_os_error e). }
  clearbody r.
  destruct (os_rename_cases src dst s)
    as [H | [(s1 & H & Hfs & Htr) | (text' & s1 & H & Hsrc' & Hfs & Htr)]];
    rewrite H in Hr; subst r.
  - now left.
  - right; right. cbn [is_os_error].
    pose proof (copy_and_unlink_frame E src dst s1) as Hf.
    pose proof (frame_except2_outside _ _ _ _ _ Hf) as Hout.
    destruct Hf as (_ & _ & rest & Htr2 & Hall).
    exists rest. split; [|split; [exact Hall|split]].
    + rewrite Htr2, Htr. now rewrite <- app_assoc.
    + intros k H1 H2. rewrite Hout by assumption. now rewrite Hfs.
    + destruct (bind (copy2 E src dst) (fun _ => remove E src) s1)
        as [[] s2|e s2|s2] eqn:Hrun; [| |exact I].
      * apply (copy_and_unlink_done src dst text s1 s2 Hne); [|exact Hrun].
        now rewrite Hfs.
      * pose proof (copy_and_unlink_raises src dst s1 e s2 Hrun) as He.
        now destruct e.
  - right; left. exists s1. rewrite Hsrc in Hsrc'. injection Hsrc' as <-.
    now repeat split.
Qed.

(** How [shutil.move] can end when [src] holds [text]. *)
Lemma move_cases (src dst text : string) (s : state) :
  key E src <> key E dst ->
  fs s !! key E src = Some text ->
  move E src dst s = Stopped s
  \/ (exists s' rest,
        move E src dst s = Stopped s' /\
        trace s' = trace s ++ EvRename src dst false :: rest /\
        Forall (fun e => is_copy_event src dst e = true) rest /\
        (forall k, k <> key E src -> k <> key E dst ->
                   fs s' !! k = fs s !! k))
  \/ (exists s' rest,
        move E src dst s = Raised OSError s' /\
        trace s' = trace s ++ (EvRename src dst false :: rest)
                           ++ [EvMove src dst false] /\
        Forall (fun e => is_copy_event src dst e = true) rest /\
        (forall k, k <> key E src -> k <> key E dst ->
                   fs s' !! k = fs s !! k))
  \/ (exists s' inner,
        move E src dst s = Done tt s' /\
        trace s' = trace s ++ inner ++ [EvMove src dst true] /\
        move_calls src dst inner /\
        fs s' !! key E dst = Some text /\
        fs s' !! key E src = None /\
        (forall k, k <> key E src -> k <> key E dst ->
                   fs s' !! k = fs s !! k)).
Proof.
  intros Hne Hsrc. unfold move.
  destruct (rename_or_copy_cases src dst text s Hne Hsrc)
    as [H | [(s1 & H & Htr & Hfs) | (rest & Htr & Hall & Hout & Hend)]];
    cbv zeta in *.
  - rewrite H. now left.
  - rewrite H. do 3 right. eexists _, [EvRename src dst true].
    split; [reflexivity|]. cbn [trace with_trace].
    split; [|split; [|split; [|split]]].
    + rewrite Htr. now rewrite <- app_assoc.
    + now left.
    + cbn. rewrite Hfs. apply lookup_insert_eq.
    + cbn. rewrite Hfs. rewrite lookup_insert_ne by congruence.
      apply lookup_delete_eq.
    + intros k H1 H2. cbn. rewrite Hfs.
      rewrite lookup_insert_ne by congruence.
      now rewrite lookup_delete_ne by congruence.
  - destruct (rename_or_copy E src dst s) as [[] s1|e s1|s1];
      cbn [final] in *.
    + do 3 right. eexists _, (EvRename src dst false :: rest).
      split; [reflexivity|]. cbn [trace with_trace fs].
      destruct Hend as [Hd Hs]. repeat split; try assumption.
      * rewrite Htr. now rewrite <- app_assoc.
      * right. now exists rest.
    + subst e. right; right; left. eexists _, rest.
      split; [reflexivity|]. cbn [trace with_trace fs].
      repeat split; try assumption.
      rewrite Htr. now rewrite <- app_assoc.
    + right; left. exists s1, rest. now repeat split.
Qed.

(** The [finally] block, started where the file at [p] may or may not
    exist. *)
Lemma cleanup_cases (p : string) (s : state) :
  let cleanup :=
    bind (path_exists E p)
         (fun present : bool =>
            if present then bind (try (remove E p)) (fun _ => ret tt)
            else ret tt) in
  (fs s !! key E p = None /\ cleanup s = Done tt s)
  \/ cleanup s = Stopped s
  \/ (exists s' ok,
        cleanup s = Done tt s' /\
        trace s' = trace s ++ [EvRemove p ok] /\
        (ok = true -> fs s' !! key E p = None) /\
        (forall k, k <> key E p -> fs s' !! k = fs s !! k)).
Proof.
  cbv zeta. unfold path_exists, remove. unfold_monad.
  destruct (fs s !! key E p) as [text|] eqn:Hp; [|now left].
  destruct (budget s) as [|b]; [right; now left|]. cbn. rewrite Hp.
  right; right. destruct (fs_fault E _); cbn.
  - eexists _, false. split; [reflexivity|]. split; [reflexivity|].
    split; [discriminate | reflexivity].
  - eexists _, true. split; [reflexivity|]. split; [reflexivity|]. split.
    + intros _. cbn. apply lookup_delete_eq.
    + intros k Hk. cbn. now apply lookup_delete_ne.
Qed.

Lemma cleanup_absent (p : string) (s : state) :
  fs s !! key E p = None ->
  bind (path_exists E p)
       (fun present : bool =>
          if present then bind (try (remove E p)) (fun _ => ret tt)
          else ret tt) s = Done tt s.
Proof. intros Hp. unfold path_exists, bind. now rewrite Hp. Qed.

Lemma frame_except_outside (P : event -> bool) (k0 : string) (s s' : state) :
  frame P (except k0) s s' ->
  forall k, k <> k0 -> fs s' !! k = fs s !! k.
Proof.
  intros (_ & Hf & _) k Hk. apply Hf. unfold except.
  now apply negb_true_iff, String.eqb_neq.
Qed.

Lemma snoc_app {A} (l : list A) (x : A) (l' : list A) :
  (l ++ [x]) ++ l' = l ++ x :: l'.
Proof. now rewrite <- app_assoc. Qed.

Lemma save_known_atomic_run (data : list json) (json_path : string)
    (s : state) :
  tmp_safe E json_path (fs s) ->
  save_run E data json_path s (save_known_atomic E data json_path s).
Proof.
  intros Hsafe.
  change (save_known_atomic E data json_path s) with
    (bind (mkstemp E (tmp_prefix json_path) (target_dir E json_path))
       (fun tmp =>
          finally
            (bind (finally (write_chunks E tmp (json_chunks E data))
                           (close_file E tmp))
                  (fun _ => move E tmp json_path))
            (bind (path_exists E tmp)
                  (fun present : bool =>
                     if present then bind (try (remove E tmp)) (fun _ => ret tt)
                     else ret tt))) s).
  unfold bind at 1.
  destruct (mkstemp_cases (tmp_prefix json_path) (target_dir E json_path) s)
    as [H | [(e & s' & H & Hfs & Htr) | (name & s1 & H & Hfree & Hfs1 & Htr1)]];
    rewrite H.
  { constructor. }
  { now constructor. }
  clear H. cbv zeta in Hfree, Hfs1, Htr1.
  fold (tmp_path E json_path name) in *.
  set (tmp := tmp_path E json_path name) in *.
  pose proof (Hsafe name Hfree) as Hne. fold tmp in Hne.
  assert (Hout1 : forall k, k <> key E tmp -> fs s1 !! k = fs s !! k).
  { intros k Hk. rewrite Hfs1. now apply lookup_insert_ne. }
  assert (Htmp1 : fs s1 !! key E tmp = Some EmptyString).
  { rewrite Hfs1. apply lookup_insert_eq. }
  unfold finally at 1. unfold bind at 1.
  pose proof (write_phase_frame E tmp (json_chunks E data) s1) as Hw.
  destruct (finally (write_chunks E tmp (json_chunks E data))
                    (close_file E tmp) s1) as [[] s2|e s2|s2] eqn:HW;
    cbn [final] in Hw;
    pose proof (frame_except_outside _ _ _ _ Hw) as Hout2;
    destruct Hw as (_ & _ & evs & Htr2 & Hevs);
    rewrite Htr1, snoc_app in Htr2.
  - (* the text is written *)
    pose proof (write_phase_done tmp _ s1 s2 Htmp1 HW) as Htext.
    assert (Hout12 : forall k, k <> key E tmp -> fs s2 !! k = fs s !! k).
    { intros k Hk. rewrite Hout2, Hout1; auto. }
    destruct (move_cases tmp json_path _ s2 Hne Htext)
      as [Hm | [(s3 & rest & Hm & Htr3 & Hrest & Hout3)
             | [(s3 & rest & Hm & Htr3 & Hrest & Hout3)
               | (s3 & inner & Hm & Htr3 & Hcalls & Hdst & Hgone & Hout3)]]];
      rewrite Hm.
    + apply (SaveInterrupted E data json_path s name (Stopped s2) evs);
        try assumption; try discriminate.
    + apply (SaveCopyStopped E data json_path s name s3 evs rest);
        try assumption.
      * rewrite Htr3, Htr2. now rewrite <- app_assoc.
      * intros k Hk Hk'. rewrite Hout3, Hout12; auto.
    + assert (Hout3' : forall k, k <> key E tmp -> k <> key E json_path ->
                                 fs s3 !! k = fs s !! k).
      { intros k Hk Hk'. rewrite Hout3, Hout12; auto. }
      assert (Htr3' : trace s3 =
                trace s ++ EvMkstemp (target_dir E json_path)
                  (tmp_prefix json_path) (Some tmp)
                  :: evs ++ (EvRename tmp json_path false :: rest)
                         ++ [EvMove tmp json_path false]).
      { rewrite Htr3, Htr2. now rewrite <- app_assoc. }
      destruct (cleanup_cases tmp s3)
        as [[Hnone Hc] | [Hc | (s4 & ok & Hc & Htr4 & Hok & Hout4)]];
        cbv zeta in Hc; rewrite Hc.
      * apply (SaveMoveFailed E data json_path s name (Raised OSError s3)
                 evs rest []); try assumption; auto.
        intros e0 s0 [= _ <-]. now left.
      * apply (SaveMoveFailed E data json_path s name (Stopped s3)
                 evs rest []); try assumption; auto. discriminate.
      * apply (SaveMoveFailed E data json_path s name (Raised OSError s4)
                 evs rest [EvRemove tmp ok]); try assumption; auto.
        -- cbn [final]. rewrite Htr4, Htr3'.
           repeat (rewrite <- app_assoc || rewrite <- app_comm_cons).
           reflexivity.
        -- right. now exists ok.
        -- intros k Hk Hk'. cbn [final]. rewrite Hout4, Hout3'; auto.
        -- intros e0 s0 [= _ <-]. destruct ok; [left; auto | right; now left].
    + rewrite (cleanup_absent tmp s3 Hgone).
      apply (SaveMoved E data json_path s name s3 evs inner); try assumption.
      * rewrite Htr3, Htr2. now rewrite <- app_assoc.
      * intros k Hk Hk'. rewrite Hout3, Hout12; auto.
  - (* writing or closing failed *)
    destruct (cleanup_cases tmp s2)
      as [[Hnone Hc] | [Hc | (s4 & ok & Hc & Htr4 & Hok & Hout4)]];
      cbv zeta in Hc; rewrite Hc.
    + apply (SaveInterrupted E data json_path s name (Raised e s2) evs);
        try assumption; try discriminate.
      * intros k Hk. cbn [final]. rewrite Hout2, Hout1; auto.
      * intros e0 s0 [= _ <-]. now left.
    + apply (SaveInterrupted E data json_path s name (Stopped s2) evs);
        try assumption; try discriminate.
      intros k Hk. cbn [final]. rewrite Hout2, Hout1; auto.
    + apply (SaveInterrupted E data json_path s name (Raised e s4)
               (evs ++ [EvRemove tmp ok])); try discriminate.
      * assumption.
      * cbn [final]. rewrite Htr4, Htr2.
        now rewrite <- app_assoc, <- app_comm_cons.
      * apply Forall_app. split; [assumption|].
        repeat constructor. cbn [is_tmp_event]. apply String.eqb_refl.
      * intros k Hk. cbn [final]. rewrite Hout4, Hout2, Hout1; auto.
      * intros e0 s0 [= _ <-]. destruct ok; [left; auto|].
        right. apply in_or_app. right. now left.
  - (* killed while writing *)
    apply (SaveInterrupted E data json_path s name (Stopped s2) evs);
      try assumption; try discriminate.
    intros k Hk. cbn [final]. rewrite Hout2, Hout1; auto.
Qed.

End SaveRuns.

(** *** A save that meets no fault *)

Section SaveCompletes.

Variable E : env.
Hypothesis Hsound : forall t, fs_fault E t = false.

Lemma mkstemp_ok (pfx dir : string) (s : state) :
  0 < budget s ->
  (exists name,
      In name (tmp_names E (length (trace s))) /\
      fs s !! key E (PyStr.join (abspath E dir) (pfx +:+ name)) = None) ->
  exists name s',
    let file := PyStr.join (abspath E dir) (pfx +:+ name) in
    mkstemp E pfx dir s = Done file s' /\
    budget s' = budget s - 1 /\
    fs s !! key E file = None /\
    fs s' = <[key E file := EmptyString]> (fs s) /\
    trace s' = trace s ++ [EvMkstemp dir pfx (Some file)].
Proof.
  intros Hb (name & Hin & Hfree). unfold mkstemp. unfold_monad.
  destruct (budget s) as [|b]; [lia|]. cbn. rewrite Hsound.
  destruct (find _ _) as [name'|] eqn:Hfind.
  - exists name'. eexists. cbv zeta. split; [reflexivity|].
    apply find_some in Hfind as [_ Hf].
    split; [cbn; lia|]. split; [|now split].
    clear Hfree. now destruct (fs s !! _).
  - exfalso. apply (find_none _ _ Hfind) in Hin. cbn in Hin.
    now rewrite Hfree in Hin.
Qed.

Lemma write_chunks_ok (p : string) (chunks : list string) :
  forall s,
    length chunks <= budget s ->
    exists s',
      write_chunks E p chunks s = Done tt s' /\
      budget s' = budget s - length chunks.
Proof.
  induction chunks as [|c r IH]; intros s Hb; simpl in *.
  - exists s. split; [reflexivity|lia].
  - unfold bind. unfold write_chunk at 1. unfold_monad.
    destruct (budget s) as [|b] eqn:Hbs; [lia|]. cbn. rewrite Hsound.
    match goal with
    | |- exists s', write_chunks E p r ?s1 = _ /\ _ =>
        destruct (IH s1) as (s' & Hr & Hb'); [cbn; lia|]
    end.
    exists s'. split; [exact Hr|]. cbn in Hb'. lia.
Qed.

Lemma close_file_ok (p : string) (s : state) :
  0 < budget s ->
  exists s', close_file E p s = Done tt s' /\ budget s' = budget s - 1.
Proof.
  intros Hb. unfold close_file. unfold_monad.
  destruct (budget s) as [|b]; [lia|]. cbn. rewrite Hsound.
  eexists. split; [reflexivity|]. cbn. lia.
Qed.

Lemma move_ok (src dst text : string) (s : state) :
  0 < budget s ->
  fs s !! key E src = Some text ->
  exists s',
    move E src dst s = Done tt s' /\
    fs s' = <[key E dst := text]> (delete (key E src) (fs s)) /\
    trace s' = trace s ++ [EvRename src dst true; EvMove src dst true].
Proof.
  intros Hb Hsrc. unfold move, rename_or_copy, os_rename. unfold_monad.
  destruct (budget s) as [|b]; [lia|]. cbn. rewrite Hsrc, Hsound. cbn.
  eexists. split; [reflexivity|]. cbn. split; [reflexivity|].
  now rewrite <- app_assoc.
Qed.

(** With no fault, a free temporary name and a call of budget for the
    temporary file, each chunk, the close and the rename, the save runs to
    its end and the rename is what puts the text in place. *)
Lemma save_known_atomic_completes (data : list json) (json_path : string)
    (s : state) :
  tmp_safe E json_path (fs s) ->
  (exists name,
      In name (tmp_names E (length (trace s))) /\
      fs s !! key E (tmp_path E json_path name) = None) ->
  length (json_chunks E data) + 3 <= budget s ->
  exists s' tmp pre,
    save_known_atomic E data json_path s = Done tt s' /\
    trace s' = trace s ++ pre ++ [EvRename tmp json_path true;
                                  EvMove tmp json_path true].
Proof.
  intros Hsafe Hname Hb.
  change (save_known_atomic E data json_path s) with
    (bind (mkstemp E (tmp_prefix json_path) (target_dir E json_path))
       (fun tmp =>
          finally
            (bind (finally (write_chunks E tmp (json_chunks E data))
                           (close_file E tmp))
                  (fun _ => move E tmp json_path))
            (bind (path_exists E tmp)
                  (fun present : bool =>
                     if present then bind (try (remove E tmp)) (fun _ => ret tt)
                     else ret tt))) s).
  destruct (mkstemp_ok (tmp_prefix json_path) (target_dir E json_path) s)
    as (name & s1 & Hmk & Hb1 & Hfree & Hfs1 & Htr1); [lia|exact Hname|].
  cbv zeta in *. fold (tmp_path E json_path name) in *.
  set (tmp := tmp_path E json_path name) in *.
  pose proof (Hsafe name Hfree) as Hne. fold tmp in Hne.
  unfold bind at 1. rewrite Hmk.
  destruct (write_chunks_ok tmp (json_chunks E data) s1) as (s2 & Hw & Hb2);
    [lia|].
  destruct (close_file_ok tmp s2) as (s3 & Hc & Hb3); [lia|].
  assert (HW : finally (write_chunks E tmp (json_chunks E data))
                       (close_file E tmp) s1 = Done tt s3).
  { unfold finally. now rewrite Hw, Hc. }
  assert (Htmp1 : fs s1 !! key E tmp = Some EmptyString).
  { rewrite Hfs1. apply lookup_insert_eq. }
  pose proof (write_phase_done E tmp _ s1 s3 Htmp1 HW) as Htext.
  destruct (move_ok tmp json_path (dump E data) s3)
    as (s4 & Hm & Hfs4 & Htr4);
    [lia|exact Htext|].
  assert (Hgone : fs s4 !! key E tmp = None).
  { rewrite Hfs4. rewrite lookup_insert_ne by congruence.
    apply lookup_delete_eq. }
  pose proof (write_phase_frame E tmp (json_chunks E data) s1) as Hf.
  rewrite HW in Hf. destruct Hf as (_ & _ & evs & Htr3 & _).
  cbn [final] in Htr3.
  exists s4, tmp,
    (EvMkstemp (target_dir E json_path) (tmp_prefix json_path) (Some tmp)
       :: evs).
  split.
  - unfold finally at 1. unfold bind at 1. rewrite HW, Hm.
    now rewrite (cleanup_absent E tmp s4 Hgone).
  - rewrite Htr4, Htr3, Htr1.
    repeat (rewrite <- app_assoc || rewrite <- app_comm_cons). reflexivity.
Qed.

End SaveCompletes.

(** ** Atomic persistence *)

Lemma tmp_safe_of_target (E : env) (json_path : string)
    (f : gmap string string) :
  is_Some (f !! key E json_path) -> tmp_safe E json_path f.
Proof. intros [text Ht] name Hfree Heq. rewrite Heq in Hfree. congruence. Qed.

Lemma tmp_event_in (tmp : string) (evs : list event) (e : event) :
  Forall (fun e => is_tmp_event tmp e = true) evs -> In e evs ->
  is_tmp_event tmp e = true.
Proof. intros Hall Hin. rewrite Forall_forall in Hall. apply Hall. now apply list_elem_of_In. Qed.

Lemma copy_event_in (src dst : string) (evs : list event) (e : event) :
  Forall (fun e => is_copy_event src dst e = true) evs -> In e evs ->
  is_copy_event src dst e = true.
Proof. intros Hall Hin. rewrite Forall_forall in Hall. apply Hall. now apply list_elem_of_In. Qed.

(** The calls of a save after the temporary file is made, when the move
    did not go through: calls on the temporary file, the failed rename,
    calls of the copy, the record of the failed move. *)
Lemma failed_save_events (tmp json_path : string)
    (evs rest post : list event) (e : event) :
  Forall (fun e => is_tmp_event tmp e = true) evs ->
  Forall (fun e => is_copy_event tmp json_path e = true) rest ->
  (post = [] \/ exists ok, post = [EvRemove tmp ok]) ->
  In e (evs ++ (EvRename tmp json_path false :: rest)
            ++ EvMove tmp json_path false :: post) ->
  is_tmp_event tmp e = true \/ is_copy_event tmp json_path e = true \/
  e = EvRename tmp json_path false \/ e = EvMove tmp json_path false.
Proof.
  intros Hevs Hrest Hpost Hin.
  apply in_app_or in Hin as [Hin|Hin];
    [left; now apply (tmp_event_in _ _ _ Hevs)|].
  apply in_app_or in Hin as [[<-|Hin]|[<-|Hin]]; auto.
  - right; left. now apply (copy_event_in _ _ _ _ Hrest).
  - left. destruct Hpost as [->|[ok ->]]; [destruct Hin|].
    destruct Hin as [<-|[]]. cbn. apply String.eqb_refl.
Qed.

(** The calls of a save that returned, after the temporary file is made. *)
Lemma moved_save_events (tmp json_path : string) (evs inner : list event)
    (e : event) :
  Forall (fun e => is_tmp_event tmp e = true) evs ->
  move_calls tmp json_path inner ->
  In e (evs ++ inner ++ [EvMove tmp json_path true]) ->
  is_tmp_event tmp e = true \/ is_copy_event tmp json_path e = true \/
  (exists ok, e = EvRename tmp json_path ok) \/ e = EvMove tmp json_path true.
Proof.
  intros Hevs Hcalls Hin.
  apply in_app_or in Hin as [Hin|Hin];
    [left; now apply (tmp_event_in _ _ _ Hevs)|].
  apply in_app_or in Hin as [Hin|[<-|[]]]; [|now do 3 right].
  destruct Hcalls as [->|(rest & -> & Hrest)].
  - destruct Hin as [<-|[]]. right; right; left. now exists true.
  - destruct Hin as [<-|Hin]; [right; right; left; now exists false|].
    right; left. now apply (copy_event_in _ _ _ _ Hrest).
Qed.

(** C3 (amended). [save_known_atomic] makes its temporary file in the
    directory of the target and [json.dump] writes only there; as long as
    no rename has been attempted the target holds its original bytes, and
    once the rename has succeeded it holds the whole new text; a call that
    returns leaves the new text in the target and no temporary file; when
    the call fails, the temporary file is gone unless removing it failed;
    and with no fault, a free temporary name and budget for its calls, the
    call returns, by the rename.  What the target holds after a rename that
    failed is not stated. *)
Theorem atomic_save (E : env) (data : list json) (json_path : string)
    (s : state) (original : string) :
  fs s !! key E json_path = Some original ->
  let r := save_known_atomic E data json_path s in
  exists evs,
    trace (final r) = trace s ++ evs /\
    (forall dir pfx created,
        In (EvMkstemp dir pfx created) evs ->
        dir = target_dir E json_path /\ pfx = tmp_prefix json_path /\
        forall tmp, created = Some tmp ->
                    exists name, tmp = tmp_path E json_path name) /\
    (forall p chunk ok,
        In (EvWrite p chunk ok) evs ->
        (exists name, p = tmp_path E json_path name) /\
        key E p <> key E json_path) /\
    ((forall src dst ok, ~ In (EvRename src dst ok) evs) ->
     fs (final r) !! key E json_path = Some original) /\
    ((exists src, In (EvRename src json_path true) evs) ->
     fs (final r) !! key E json_path = Some (dump E data)) /\
    (forall u s', r = Done u s' ->
       fs s' !! key E json_path = Some (dump E data) /\
       forall dir pfx tmp,
         In (EvMkstemp dir pfx (Some tmp)) evs -> fs s' !! key E tmp = None) /\
    (forall e s', r = Raised e s' ->
       forall dir pfx tmp,
         In (EvMkstemp dir pfx (Some tmp)) evs ->
         fs s' !! key E tmp = None \/ In (EvRemove tmp false) evs) /\
    ((forall t, fs_fault E t = false) ->
     (exists name,
         In name (tmp_names E (length (trace s))) /\
         fs s !! key E (tmp_path E json_path name) = None) ->
     length (json_chunks E data) + 3 <= budget s ->
     (exists s', r = Done tt s') /\
     exists src, In (EvRename src json_path true) evs).
Proof.
  intros Horig r.
  assert (Hsafe : tmp_safe E json_path (fs s)).
  { apply tmp_safe_of_target. now exists original. }
  assert (Hlive : forall evs,
             trace (final r) = trace s ++ evs ->
             (forall t, fs_fault E t = false) ->
             (exists name,
                 In name (tmp_names E (length (trace s))) /\
                 fs s !! key E (tmp_path E json_path name) = None) ->
             length (json_chunks E data) + 3 <= budget s ->
             (exists s', r = Done tt s') /\
             exists src, In (EvRename src json_path true) evs).
  { intros evs Htr Hsound Hname Hb.
    destruct (save_known_atomic_completes E Hsound data json_path s Hsafe
                Hname Hb) as (s' & tmp & pre & Hdone & Htr').
    fold r in Hdone. split; [now exists s'|]. exists tmp.
    rewrite Hdone in Htr. cbn [final] in Htr. rewrite Htr' in Htr.
    apply app_inv_head in Htr. subst evs.
    apply in_or_app. right. now left. }
  pose proof (save_known_atomic_run E data json_path s Hsafe) as Hrun.
  fold r in Hrun. clearbody r.
  destruct Hrun as
    [ | e s' Hfs Htr
      | name r evs tmp Hfree Hnd Htr Hevs Hout Hcl
      | name s' evs rest tmp Hfree Htr Hevs Hrest Hout
      | name r evs rest post tmp Hfree Hres Htr Hevs Hrest Hpost Hout Hcl
      | name s' evs inner tmp Hfree Htr Hevs Hcalls Htext Hgone Hout ].
  - (* not started *)
    exists []. cbn [final]. rewrite app_nil_r.
    split; [reflexivity|]. split; [intros ? ? ? []|].
    split; [intros ? ? ? []|]. split; [auto|].
    split; [intros [src []]|]. split; [intros u s' [=]|].
    split; [intros e s' [=]|]. apply Hlive. cbn. now rewrite app_nil_r.
  - (* no temporary file *)
    eexists. split; [exact Htr|]. cbn [final].
    split; [|split; [|split; [|split; [|split; [|split]]]]].
    + intros dir pfx created [[= <- <- <-]|[]]. repeat split. discriminate.
    + intros p chunk ok [[=]|[]].
    + intros _. now rewrite Hfs.
    + intros [src [[=]|[]]].
    + intros u s0 [=].
    + intros e0 s0 _ dir pfx tmp [[=]|[]].
    + now apply Hlive.
  - (* stopped or failed before the rename *)
    assert (Hne : key E tmp <> key E json_path) by now apply Hsafe.
    eexists. split; [exact Htr|].
    split; [|split; [|split; [|split; [|split; [|split]]]]].
    + intros dir pfx created [[= <- <- <-]|Hin].
      * repeat split. intros tmp0 [= <-]. now exists name.
      * apply (tmp_event_in _ _ _ Hevs) in Hin. discriminate.
    + intros p chunk ok [[=]|Hin].
      apply (tmp_event_in _ _ _ Hevs) in Hin. cbn in Hin.
      apply String.eqb_eq in Hin. subst p. split; [now exists name|exact Hne].
    + intros _. rewrite Hout by congruence. exact Horig.
    + intros [src [[=]|Hin]].
      apply (tmp_event_in _ _ _ Hevs) in Hin. discriminate.
    + intros u s0 Hr. now destruct (Hnd u s0).
    + intros e0 s0 Hr dir pfx tmp0 [[= _ _ <-]|Hin].
      * destruct (Hcl e0 s0 Hr) as [Ha|Hb]; [now left|right; now right].
      * apply (tmp_event_in _ _ _ Hevs) in Hin. discriminate.
    + now apply Hlive.
  - (* stopped during the copy that follows a failed rename *)
    assert (Hne : key E tmp <> key E json_path) by now apply Hsafe.
    assert (Hcases : forall e0,
               In e0 (evs ++ EvRename tmp json_path false :: rest) ->
               is_tmp_event tmp e0 = true \/
               is_copy_event tmp json_path e0 = true \/
               e0 = EvRename tmp json_path false \/
               e0 = EvMove tmp json_path false).
    { intros e0 Hin.
      apply (failed_save_events tmp json_path evs rest [] e0 Hevs Hrest);
        [now left|].
      apply in_app_or in Hin as [Hin|Hin]; apply in_or_app; [now left|right].
      apply in_or_app. now left. }
    eexists. split; [exact Htr|]. cbn [final].
    split; [|split; [|split; [|split; [|split; [|split]]]]].
    + intros dir pfx created [[= <- <- <-]|Hin].
      * repeat split. intros tmp0 [= <-]. now exists name.
      * apply Hcases in Hin as [Hin|[Hin|[Hin|Hin]]]; discriminate.
    + intros p chunk ok [[=]|Hin].
      apply Hcases in Hin as [Hin|[Hin|[Hin|Hin]]]; try discriminate.
      cbn in Hin. apply String.eqb_eq in Hin. subst p.
      split; [now exists name|exact Hne].
    + intros Hno. exfalso. apply (Hno tmp json_path false).
      right. apply in_or_app. right. now left.
    + intros [src [[=]|Hin]].
      apply Hcases in Hin as [Hin|[Hin|[Hin|Hin]]]; discriminate.
    + intros u s0 [=].
    + intros e0 s0 [=].
    + now apply Hlive.
  - (* the move failed *)
    assert (Hne : key E tmp <> key E json_path) by now apply Hsafe.
    pose proof (fun e0 =>
                  failed_save_events tmp json_path evs rest post e0
                    Hevs Hrest Hpost) as Hcases.
    eexists. split; [exact Htr|].
    split; [|split; [|split; [|split; [|split; [|split]]]]].
    + intros dir pfx created [[= <- <- <-]|Hin].
      * repeat split. intros tmp0 [= <-]. now exists name.
      * apply Hcases in Hin as [Hin|[Hin|[Hin|Hin]]]; discriminate.
    + intros p chunk ok [[=]|Hin].
      apply Hcases in Hin as [Hin|[Hin|[Hin|Hin]]]; try discriminate.
      cbn in Hin. apply String.eqb_eq in Hin. subst p.
      split; [now exists name|exact Hne].
    + intros Hno. exfalso. apply (Hno tmp json_path false).
      right. apply in_or_app. right. now left.
    + intros [src [[=]|Hin]].
      apply Hcases in Hin as [Hin|[Hin|[Hin|Hin]]]; discriminate.
    + intros u s0 Hr. subst r. destruct Hres as [Hres|Hres]; discriminate.
    + intros e0 s0 Hr dir pfx tmp0 [[= _ _ <-]|Hin].
      * destruct (Hcl e0 s0 Hr) as [Ha|Hb]; [now left|].
        right. right. apply in_or_app. right.
        apply in_or_app. right. now right.
      * apply Hcases in Hin as [Hin|[Hin|[Hin|Hin]]]; discriminate.
    + now apply Hlive.
  - (* moved *)
    assert (Hne : key E tmp <> key E json_path) by now apply Hsafe.
    pose proof (fun e0 =>
                  moved_save_events tmp json_path evs inner e0 Hevs Hcalls)
      as Hcases.
    eexists. split; [exact Htr|]. cbn [final].
    split; [|split; [|split; [|split; [|split; [|split]]]]].
    + intros dir pfx created [[= <- <- <-]|Hin].
      * repeat split. intros tmp0 [= <-]. now exists name.
      * apply Hcases in Hin as [Hin|[Hin|[[ok Hin]|Hin]]]; discriminate.
    + intros p chunk ok [[=]|Hin].
      apply Hcases in Hin as [Hin|[Hin|[[ok' Hin]|Hin]]]; try discriminate.
      cbn in Hin. apply String.eqb_eq in Hin. subst p.
      split; [now exists name|exact Hne].
    + intros Hno. exfalso.
      destruct Hcalls as [->|(rest & -> & _)].
      * apply (Hno tmp json_path true). right. apply in_or_app. right. now left.
      * apply (Hno tmp json_path false). right. apply in_or_app. right. now left.
    + intros _. exact Htext.
    + intros u s0 [= _ <-]. split; [exact Htext|].
      intros dir pfx tmp0 [[= _ _ <-]|Hin]; [exact Hgone|].
      apply Hcases in Hin as [Hin|[Hin|[[ok Hin]|Hin]]]; discriminate.
    + intros e0 s0 [=].
    + now apply Hlive.
Qed.

(** A save on a sound disk: the call returns, by the rename, and the file
    holds the new list. *)
Lemma atomic_save_witness :
  let E := Scenario.healthy in
  let s := Demo.start Scenario.disk Scenario.two_known 20 in
  let r := save_known_atomic E Scenario.two_known Scenario.known_file s in
  fs s !! key E Scenario.known_file = Some (Demo.dumps [JStr "alpha"]) /\
  (exists s', r = Done tt s') /\
  fs (final r) !! key E Scenario.known_file
    = Some (dump E Scenario.two_known).
Proof.
  intros E s r.
  assert (H : fs s !! key E Scenario.known_file
              = Some (Demo.dumps [JStr "alpha"])) by reflexivity.
  split; [exact H|].
  destruct (atomic_save E Scenario.two_known Scenario.known_file s _ H)
    as (evs & Htr & _ & _ & _ & Hnew & _ & _ & Hlive).
  assert (Hsound : forall t, fs_fault E t = false) by reflexivity.
  assert (Hname : exists name,
             In name (tmp_names E (length (trace s))) /\
             fs s !! key E (tmp_path E Scenario.known_file name) = None).
  { exists "a1b2c3d4"%string. split; [now left|reflexivity]. }
  assert (Hb : length (json_chunks E Scenario.two_known) + 3 <= budget s).
  { vm_compute. repeat constructor. }
  destruct (Hlive Hsound Hname Hb) as [Hdone Hren].
  split; [exact Hdone | exact (Hnew Hren)].
Defined.

(** When the rename fails, [shutil.move] copies the temporary file over
    the target in place: a run stopped during that copy leaves a target that
    holds neither its original bytes nor the new text. *)
Lemma failed_rename_overwrites_in_place :
  match save_known_atomic (Scenario.disk_fails_at 6) Scenario.two_known
          Scenario.known_file (Demo.start Scenario.disk Scenario.two_known 9)
  with
  | Stopped s' =>
      last (trace s') = Some (EvCopy Scenario.known_file "[" true) /\
      fs s' !! "/srv/known.json"%string = Some "["%string
  | _ => False
  end.
Proof. vm_compute. split; reflexivity. Qed.

(** With the first write and the removal both failing, the call fails and
    the temporary file stays. *)
Lemma cleanup_can_fail :
  match save_known_atomic Scenario.write_and_remove_fail Scenario.two_known
          Scenario.known_file (Demo.start Scenario.disk Scenario.two_known 20)
  with
  | Raised OSError s' =>
      fs s' !! "/srv/.known.json.a1b2c3d4"%string = Some EmptyString
  | _ => False
  end.
Proof. vm_compute. reflexivity. Qed.

(** ** Commit before process *)

Lemma split_after_prefix (Q : event -> bool) (l1 l2 pre post : list event)
    (e : event) :
  l1 ++ l2 = pre ++ e :: post ->
  Forall (fun x => Q x = false) l1 -> Q e = true ->
  exists pre', pre = l1 ++ pre' /\ l2 = pre' ++ e :: post.
Proof.
  revert pre; induction l1 as [|a l1 IH]; intros pre Heq Hall He.
  - now exists pre.
  - apply Forall_cons in Hall as [Ha Hall]. destruct pre as [|b pre].
    + simpl in Heq. injection Heq as -> _. congruence.
    + simpl in Heq. injection Heq as -> Heq.
      destruct (IH pre Heq Hall He) as (pre' & -> & ->). now exists pre'.
Qed.

Lemma save_event_not_item (e : event) :
  is_save_event e = true -> is_item_event e = false.
Proof. destruct e; cbn; intros; try reflexivity; discriminate. Qed.

Lemma save_known_atomic_done (E : env) (data : list json) (json_path : string)
    (s s1 : state) (u : unit) :
  tmp_safe E json_path (fs s) ->
  save_known_atomic E data json_path s = Done u s1 ->
  exists tmp evs,
    trace s1 = trace s ++ evs /\
    Forall (fun e => is_save_event e = true) evs /\
    In (EvMove tmp json_path true) evs /\
    fs s1 !! key E json_path = Some (dump E data) /\
    known s1 = known s.
Proof.
  intros Hsafe Hdone.
  pose proof (save_known_atomic_frame E data json_path s) as Hf.
  pose proof (save_known_atomic_run E data json_path s Hsafe) as Hrun.
  rewrite Hdone in Hf, Hrun. destruct Hf as (Hk & _ & evs0 & Htr0 & Hall0).
  cbn [final] in *.
  inversion Hrun as
    [ | | name r evs tmp Hfree Hnd Htr Hevs Hout Hcl Hr
      |
      | name r evs rest post tmp Hfree Hres Htr Hevs Hrest Hpost Hout Hcl Hr
      | name s' evs inner tmp Hfree Htr Hevs Hcalls Htext Hgone Hout Hu ].
  - exfalso. now apply (Hnd u s1).
  - exfalso. subst r. destruct Hres as [Hres|Hres]; discriminate.
  - subst. exists tmp, evs0. repeat split; try assumption.
    rewrite Htr in Htr0. apply app_inv_head in Htr0. subst evs0.
    right. apply in_or_app. right. apply in_or_app. right. now left.
Qed.



(** ** A failed move ends the loop *)

Lemma rename_spec_clean {A} (m : M A) :
  preserves (emits no_failed_move) m -> rename_spec m.
Proof. intros Hm s. left. apply Hm. Qed.

Lemma rename_spec_frame {A} (P : event -> bool) (keep : string -> bool)
    (m : M A) :
  (forall e, P e = true -> is_failed_move e = false) ->
  preserves (frame P keep) m -> rename_spec m.
Proof.
  intros HP Hm. apply rename_spec_clean. intros s.
  destruct (Hm s) as (_ & _ & He). eapply emits_weaken; [|exact He].
  intros e He'. unfold no_failed_move. now rewrite HP.
Qed.

Lemma fatal_rename_not_done {A} (s s1 : state) (a : A) :
  ~ fatal_rename s (Done a s1).
Proof. intros (pre & src & dst & post & _ & _ & _ & []). Qed.

Lemma rename_spec_bind {A B} (m : M A) (f : A -> M B) :
  rename_spec m -> (forall a, rename_spec (f a)) -> rename_spec (bind m f).
Proof.
  intros Hm Hf s. unfold bind. specialize (Hm s).
  destruct (m s) as [a s1|e s1|s1].
  - destruct Hm as [Hc|Hbad]; [|now apply fatal_rename_not_done in Hbad].
    cbn [final] in Hc. destruct (Hf a s1) as [Hc2|Hbad2].
    + left. etransitivity; eassumption.
    + right. destruct Hc as (evs & Htr & Hall).
      destruct Hbad2 as (pre & src & dst & post & Htr2 & Hpre & Hpost & Hfat).
      exists (evs ++ pre), src, dst, post. repeat split; try assumption.
      * rewrite Htr2, Htr. now rewrite <- !app_assoc.
      * apply Forall_app. split; [|exact Hpre].
        eapply Forall_impl; [exact Hall|]. intros e He.
        now apply negb_true_iff in He.
  - destruct Hm as [Hc|(pre & src & dst & post & Htr & Hpre & Hpost & Hfat)];
      [now left|right].
    exists pre, src, dst, post. repeat split; assumption.
  - destruct Hm as [Hc|(pre & src & dst & post & Htr & Hpre & Hpost & Hfat)];
      [now left|right].
    exists pre, src, dst, post. repeat split; assumption.
Qed.

Lemma tmp_event_not_failed_move (tmp : string) (e : event) :
  is_tmp_event tmp e = true -> is_failed_move e = false.
Proof. destruct e; cbn; intros; try reflexivity; discriminate. Qed.

Lemma copy_event_not_failed_move (src dst : string) (e : event) :
  is_copy_event src dst e = true -> is_failed_move e = false.
Proof. destruct e; cbn; intros; try reflexivity; discriminate. Qed.

Lemma rename_spec_save (E : env) (data : list json) (json_path : string) :
  tmp_distinct E json_path -> rename_spec (save_known_atomic E data json_path).
Proof.
  intros Hd s.
  assert (Hsafe : tmp_safe E json_path (fs s)) by (intros name _; apply Hd).
  pose proof (save_known_atomic_run E data json_path s Hsafe) as Hrun.
  set (r := save_known_atomic E data json_path s) in *. clearbody r.
  assert (Htmp : forall tmp evs,
             Forall (fun e => is_tmp_event tmp e = true) evs ->
             Forall (fun e => is_failed_move e = false) evs)
    by (intros tmp evs H; eapply Forall_impl;
        [exact H | apply tmp_event_not_failed_move]).
  assert (Hcopy : forall tmp rest,
             Forall (fun e => is_copy_event tmp json_path e = true) rest ->
             Forall (fun e => is_failed_move e = false) rest)
    by (intros tmp rest H; eapply Forall_impl;
        [exact H | apply copy_event_not_failed_move]).
  assert (Hclean : forall evs,
             Forall (fun e => is_failed_move e = false) evs ->
             Forall (fun e => no_failed_move e = true) evs).
  { intros evs H. eapply Forall_impl; [exact H|]. intros e He.
    unfold no_failed_move. now rewrite He. }
  destruct Hrun as
    [ | e s' Hfs Htr
      | name r evs tmp Hfree Hnd Htr Hevs Hout Hcl
      | name s' evs rest tmp Hfree Htr Hevs Hrest Hout
      | name r evs rest post tmp Hfree Hres Htr Hevs Hrest Hpost Hout Hcl
      | name s' evs inner tmp Hfree Htr Hevs Hcalls Htext Hgone Hout ].
  - left. reflexivity.
  - left. eexists. split; [exact Htr|]. now repeat constructor.
  - left. eexists. split; [exact Htr|]. apply Hclean.
    constructor; [reflexivity|]. now apply (Htmp tmp).
  - left. eexists. split; [exact Htr|]. apply Hclean.
    constructor; [reflexivity|]. apply Forall_app. split; [now apply (Htmp tmp)|].
    constructor; [reflexivity|]. now apply (Hcopy tmp).
  - right. exists (EvMkstemp (target_dir E json_path) (tmp_prefix json_path)
                            (Some tmp)
                     :: evs ++ EvRename tmp json_path false :: rest),
      tmp, json_path, post.
    repeat split.
    + rewrite Htr.
      repeat (rewrite <- app_assoc || rewrite <- app_comm_cons). reflexivity.
    + constructor; [reflexivity|]. apply Forall_app.
      split; [now apply (Htmp tmp)|].
      constructor; [reflexivity|]. now apply (Hcopy tmp).
    + exact Hpost.
    + destruct Hres as [-> | ->]; exact I.
  - left. eexists. split; [exact Htr|]. apply Hclean.
    constructor; [reflexivity|]. apply Forall_app.
    split; [now apply (Htmp tmp)|].
    apply Forall_app. split; [|now repeat constructor].
    destruct Hcalls as [->|(rest & -> & Hrest)]; [now repeat constructor|].
    constructor; [reflexivity|]. now apply (Hcopy tmp).
Qed.

Lemma work_event_not_failed_move (g : option client) (e : event) :
  is_work_of g e = true -> is_failed_move e = false.
Proof. destruct e; cbn; intros; try reflexivity; discriminate. Qed.

Section RenameFailure.

Variable E : env.
Variable json_path : string.
Hypothesis Hdistinct : tmp_distinct E json_path.

Lemma rename_spec_handle_found (sb : option string) (found : Dict.t string) :
  rename_spec (handle_found E json_path sb found).
Proof.
  intros s. rewrite handle_found_unfold. cbv zeta.
  destruct (negb _); [|left; reflexivity].
  set (s0 := with_known _ s).
  assert (H : rename_spec
            (bind (save_known_atomic E (known s0) json_path)
                  (fun _ => for_each (process_alert E sb)
                              (fst (detect_new found (known s)))))).
  { apply rename_spec_bind; [now apply rename_spec_save|intros _].
    eapply rename_spec_frame; [|apply process_all_frame].
    apply work_event_not_failed_move. }
  exact (H s0).
Qed.

Lemma rename_spec_poll_cycle (target_url : string) (interval : Z)
    (once : bool) (sb : option string) :
  rename_spec (poll_cycle E target_url json_path interval once sb).
Proof.
  unfold poll_cycle.
  assert (Hend : rename_spec
            (if once then ret true
             else bind (py_sleep interval) (fun _ => ret false))).
  { apply rename_spec_clean. destruct once; [apply preserves_ret; apply _|].
    apply preserves_bind; [apply _ | | intros _; apply preserves_ret; apply _].
    intros s. destruct (py_sleep_frame interval s) as (_ & _ & He).
    eapply emits_weaken; [|exact He]. now intros []. }
  apply rename_spec_bind; [|intros r].
  - apply rename_spec_clean, preserves_try. intros s.
    destruct (fetch_html_frame E target_url s) as (_ & _ & He).
    eapply emits_weaken; [|exact He]. now intros [].
  - destruct r as [e|html]; [exact Hend|].
    apply rename_spec_bind; [apply rename_spec_handle_found|intros _; exact Hend].
Qed.

Lemma rename_spec_poll_loop (fuel : nat) (target_url : string) (interval : Z)
    (once : bool) (sb : option string) :
  rename_spec (poll_loop E fuel target_url json_path interval once sb).
Proof.
  induction fuel as [|fuel IH]; simpl.
  - apply rename_spec_clean, preserves_stop; apply _.
  - apply rename_spec_bind; [apply rename_spec_poll_cycle|intros brk].
    destruct brk; [|exact IH].
    apply rename_spec_clean, preserves_ret; apply _.
Qed.

End RenameFailure.

Lemma failed_move_unique (pre post pre' post' : list event) (x x' : event) :
  pre ++ x :: post = pre' ++ x' :: post' ->
  Forall (fun e => is_failed_move e = false) pre ->
  Forall (fun e => is_failed_move e = false) post ->
  is_failed_move x' = true ->
  pre' = pre /\ x' = x /\ post' = post.
Proof.
  revert pre'; induction pre as [|a pre IH]; intros pre' Heq Hpre Hpost Hx'.
  - destruct pre' as [|b pre']; simpl in Heq.
    + injection Heq as -> ->. now repeat split.
    + injection Heq as -> ->. exfalso.
      rewrite Forall_forall in Hpost.
      assert (Hin : x' ∈ pre' ++ x' :: post').
      { apply list_elem_of_In, in_or_app. right. now left. }
      apply Hpost in Hin. congruence.
  - apply Forall_cons in Hpre as [Ha Hpre].
    destruct pre' as [|b pre']; simpl in Heq.
    + injection Heq as -> _. congruence.
    + injection Heq as -> Heq.
      destruct (IH pre' Heq Hpre Hpost Hx') as (-> & -> & ->).
      now repeat split.
Qed.




(** ** The empty page *)

(** C9. When the page yields an empty Observed Map, detection yields
    nothing, [handle_found] returns normally without a call, and the cycle is
    the fetch followed by the end of the cycle: [known] and the files are
    unchanged and no call of [save_known_atomic] is made. *)
Theorem empty_page_cycle (E : env) (target_url json_path : string)
    (interval : Z) (once : bool) (supabase_client : option string)
    (s : state) (b : nat) (html : string) :
  budget s = S b ->
  fetch_resp E (length (trace s)) target_url = inr html ->
  extract_pdf_names_and_urls E html target_url = [] ->
  let s1 := with_trace (trace s ++ [EvFetch target_url true]) (with_budget b s) in
  let r := poll_cycle E target_url json_path interval once supabase_client s in
  detect_new [] (known s) = ([], []) /\
  handle_found E json_path supabase_client [] s1 = Done tt s1 /\
  r = (if once then ret true
       else bind (py_sleep interval) (fun _ => ret false)) s1 /\
  known (final r) = known s /\
  fs (final r) = fs s /\
  exists evs,
    trace (final r) = trace s ++ evs /\
    Forall (fun e => is_save_event e = false) evs.
Proof.
  intros Hb Hfetch Hext s1 r.
  assert (Hr : r = (if once then ret true
                    else bind (py_sleep interval) (fun _ => ret false)) s1).
  { unfold r, poll_cycle, fetch_html, try, bind, tick.
    rewrite Hb, Hfetch. cbn [emit ret]. now rewrite Hext. }
  split; [reflexivity|]. split; [reflexivity|]. split; [exact Hr|].
  rewrite Hr. clear Hr r.
  assert (Hend : frame is_sleep_event all_keys s1
            (final ((if once then ret true
                     else bind (py_sleep interval) (fun _ => ret false)) s1))).
  { destruct once; [reflexivity|].
    apply preserves_bind; [apply _ | apply py_sleep_frame
                          | intros _; apply preserves_ret; apply _]. }
  pose proof (frame_all_keys _ _ _ Hend) as Hfs.
  destruct Hend as (Hk & _ & evs & Htr & Hall).
  split; [exact Hk|]. split; [exact Hfs|].
  exists (EvFetch target_url true :: evs). split.
  - rewrite Htr. cbn [s1 trace with_trace]. now rewrite <- app_assoc.
  - constructor; [reflexivity|].
    eapply Forall_impl; [exact Hall|]. now intros [].
Qed.

Lemma empty_page_cycle_witness :
  let E := Demo.make (Some "key-1"%string) Demo.no_fault
                     (Demo.serve EmptyString) Demo.pdf_ok Demo.generate_ok in
  let s := Demo.start Scenario.disk [JStr "alpha"] 10 in
  let r := poll_cycle E "https://x/" Scenario.known_file 5 true
                      (Some "sb"%string) s in
  (budget s = 10 /\
   fetch_resp E (length (trace s)) "https://x/" = inr EmptyString /\
   extract_pdf_names_and_urls E EmptyString "https://x/" = []) /\
  known (final r) = known s /\ fs (final r) = fs s.
Proof.
  intros E s r.
  assert (H1 : budget s = 10) by reflexivity.
  assert (H2 : fetch_resp E (length (trace s)) "https://x/" = inr EmptyString)
    by reflexivity.
  assert (H3 : extract_pdf_names_and_urls E EmptyString "https://x/" = [])
    by reflexivity.
  split; [now repeat split|].
  destruct (empty_page_cycle E "https://x/" Scenario.known_file 5 true
              (Some "sb"%string) s 9 EmptyString H1 H2 H3)
    as (_ & _ & _ & Hk & Hf & _).
  split; [exact Hk | exact Hf].
Defined.

(** ** The injected client *)

Lemma emits_same_trace (P : event -> bool) (s s0 s' : state) :
  trace s0 = trace s -> emits P s0 s' -> emits P s s'.
Proof. intros Ht (evs & Htr & Hall). exists evs. now rewrite <- Ht. Qed.

Lemma frame_emits (P Q : event -> bool) (keep : string -> bool) (s s' : state) :
  (forall e, P e = true -> Q e = true) -> frame P keep s s' -> emits Q s s'.
Proof. intros HPQ (_ & _ & He). eapply emits_weaken; eauto. Qed.

Section ClientUse.

Variable E : env.

Let P := uses_client (genai_client E).

Lemma handle_found_uses_client (json_path : string) (sb : option string)
    (found : Dict.t string) :
  preserves (emits P) (handle_found E json_path sb found).
Proof.
  intros s. rewrite handle_found_unfold. cbv zeta.
  destruct (negb _); [|reflexivity].
  eapply emits_same_trace; [|eapply frame_emits;
                              [|apply commit_and_process_frame]].
  - reflexivity.
  - intros e He. unfold is_cycle_of in He. now apply andb_true_iff in He.
Qed.

Lemma poll_cycle_uses_client (target_url json_path : string) (interval : Z)
    (once : bool) (sb : option string) :
  preserves (emits P) (poll_cycle E target_url json_path interval once sb).
Proof.
  unfold poll_cycle.
  assert (Hend : preserves (emits P)
            (if once then ret true
             else bind (py_sleep interval) (fun _ => ret false))).
  { destruct once; [apply preserves_ret; apply _|].
    apply preserves_bind; [apply _ | | intros _; apply preserves_ret; apply _].
    intros s. eapply frame_emits; [|apply py_sleep_frame]. now intros []. }
  apply preserves_bind; [apply _ | | intros r].
  - apply preserves_try. intros s.
    eapply frame_emits; [|apply fetch_html_frame]. now intros [].
  - destruct r as [e|html]; [exact Hend|].
    apply preserves_bind; [apply _ | | intros _; exact Hend].
    apply handle_found_uses_client.
Qed.

Lemma poll_loop_uses_client (fuel : nat) (target_url json_path : string)
    (interval : Z) (once : bool) (sb : option string) :
  preserves (emits P) (poll_loop E fuel target_url json_path interval once sb).
Proof.
  induction fuel as [|fuel IH]; simpl.
  - apply preserves_stop; apply _.
  - apply preserves_bind; [apply _ | apply poll_cycle_uses_client | intros brk].
    destruct brk; [apply preserves_ret; apply _ | exact IH].
Qed.

Lemma main_loop_uses_client (url json_path : string) (interval : Z)
    (dev_url : option string) (once : bool) (sb : option string)
    (injected : option client) :
  preserves (emits P)
    (main_loop E url json_path interval dev_url once sb injected).
Proof.
  unfold main_loop.
  apply preserves_bind; [apply _ | | intros loaded].
  - intros s. eapply frame_emits; [|apply load_known_frame]. now intros [].
  - apply preserves_bind; [apply _ | | intros _].
    { intros s.
      apply (emits_same_trace P s (final (put_known loaded s)) _ eq_refl).
      reflexivity. }
    apply (preserves_at _ (fun s0 => poll_loop E (S (budget s0)) _ _ _ _ _)).
    intros s0. apply poll_loop_uses_client.
Qed.

End ClientUse.

(** C10. [main_loop] never reads [genai_client_obj]: two runs that differ
    only in it are equal, and every model call of a run is made through the
    module-level [genai_client]. *)
Theorem injected_client_unused (E : env) (url json_path : string)
    (interval : Z) (dev_url : option string) (once : bool)
    (supabase_client : option string) (g1 g2 : option client) (s : state) :
  main_loop E url json_path interval dev_url once supabase_client g1 s =
  main_loop E url json_path interval dev_url once supabase_client g2 s
  /\
  exists evs,
    trace (final (main_loop E url json_path interval dev_url once
                            supabase_client g1 s)) = trace s ++ evs /\
    forall c ok, In (EvGenerate c ok) evs -> genai_client E = Some c.
Proof.
  split; [reflexivity|].
  destruct (main_loop_uses_client E url json_path interval dev_url once
              supabase_client g1 s) as (evs & Htr & Hall).
  exists evs. split; [exact Htr|]. intros c ok Hin.
  rewrite Forall_forall in Hall. apply list_elem_of_In, Hall in Hin.
  cbn in Hin. destruct (genai_client E) as [g|]; [|discriminate].
  apply String.eqb_eq in Hin. now subst.
Qed.

(** ** The fuel of the loops is never what stops a run *)

Lemma sok_ret {A} (a : A) : stops_only_killed (ret a).
Proof. intros s. now split. Qed.

Lemma sok_raise {A} (e : exn) : stops_only_killed (@raise A e).
Proof. intros s. now split. Qed.

Lemma sok_bind {A B} (m : M A) (f : A -> M B) :
  stops_only_killed m -> (forall a, stops_only_killed (f a)) ->
  stops_only_killed (bind m f).
Proof.
  intros Hm Hf s. unfold bind. destruct (Hm s) as [Hb Hx].
  destruct (m s) as [a s1|e s1|s1]; cbn [final] in *; try now split.
  destruct (Hf a s1) as [Hb' Hx']. split; [lia|exact Hx'].
Qed.

Lemma sok_try {A} (m : M A) : stops_only_killed m -> stops_only_killed (try m).
Proof.
  intros Hm s. unfold try. destruct (Hm s) as [Hb Hx].
  now destruct (m s) as [a s1|e s1|s1].
Qed.

Lemma sok_finally {A} (body : M A) (cleanup : M unit) :
  stops_only_killed body -> stops_only_killed cleanup ->
  stops_only_killed (finally body cleanup).
Proof.
  intros Hb Hc s. unfold finally. destruct (Hb s) as [Hle Hx].
  destruct (body s) as [a s1|e s1|s1]; cbn [final] in *; try now split.
  - destruct (Hc s1) as [Hle' Hx'].
    destruct (cleanup s1); cbn [final] in *; split; cbn [final];
      try lia; try exact I; exact Hx'.
  - destruct (Hc s1) as [Hle' Hx'].
    destruct (cleanup s1); cbn [final] in *; split; cbn [final];
      try lia; try exact I; exact Hx'.
Qed.

Lemma sok_for_each {A} (body : A -> M unit) (l : list A) :
  (forall x, stops_only_killed (body x)) -> stops_only_killed (for_each body l).
Proof.
  intros Hb. induction l as [|x l IH]; simpl; [apply sok_ret|].
  apply sok_bind; [apply Hb | intros _; exact IH].
Qed.

Ltac within_tac :=
  split; cbn [final exhausted] in *; try lia; try exact I; try assumption.

Ltac sok_prim :=
  intros s; unfold_monad; split_cases; split; cbn; try lia; try exact I;
  try assumption.

Section Adequacy.

Variable E : env.

Lemma sok_path_exists (p : string) : stops_only_killed (path_exists E p).
Proof. unfold path_exists. sok_prim. Qed.

Lemma sok_open_read (p : string) : stops_only_killed (open_read E p).
Proof. unfold open_read. sok_prim. Qed.

Lemma sok_read_all (p : string) : stops_only_killed (read_all E p).
Proof. unfold read_all. sok_prim. Qed.

Lemma sok_mkstemp (pfx dir : string) : stops_only_killed (mkstemp E pfx dir).
Proof. unfold mkstemp. sok_prim. Qed.

Lemma sok_write_chunk (p c : string) : stops_only_killed (write_chunk E p c).
Proof. unfold write_chunk. sok_prim. Qed.

Lemma sok_close_file (p : string) : stops_only_killed (close_file E p).
Proof. unfold close_file. sok_prim. Qed.

Lemma sok_remove (p : string) : stops_only_killed (remove E p).
Proof. unfold remove. sok_prim. Qed.

Lemma sok_os_rename (src dst : string) :
  stops_only_killed (os_rename E src dst).
Proof. unfold os_rename. sok_prim. Qed.

Lemma sok_copy_open (src dst : string) :
  stops_only_killed (copy_open E src dst).
Proof. unfold copy_open. sok_prim. Qed.

Lemma sok_copy_blocks (p text : string) :
  stops_only_killed (copy_blocks E p text).
Proof.
  induction text as [|c r IH]; simpl; [apply sok_ret|].
  apply sok_bind; [|intros _; exact IH].
  unfold copy_block. sok_prim.
Qed.

Lemma sok_copystat (src dst : string) :
  stops_only_killed (copystat E src dst).
Proof. unfold copystat. sok_prim. Qed.

Lemma sok_move (src dst : string) : stops_only_killed (move E src dst).
Proof.
  assert (H : stops_only_killed (rename_or_copy E src dst)).
  { unfold rename_or_copy.
    apply sok_bind; [apply sok_try, sok_os_rename | intros r].
    destruct r as [e|u]; [|apply sok_ret].
    destruct (is_os_error e); [|apply sok_raise].
    apply sok_bind; [|intros _; apply sok_remove].
    unfold copy2. apply sok_bind; [apply sok_copy_open|intros text].
    apply sok_bind; [|intros _; apply sok_copystat].
    apply sok_finally; [apply sok_copy_blocks | apply sok_close_file]. }
  intros s. unfold move. destruct (H s) as [Hle Hx].
  destruct (rename_or_copy E src dst s) as [u s1|e s1|s1];
    cbn [final] in *; split; cbn; try lia; try exact I; assumption.
Qed.

Lemma sok_fetch_html (url : string) : stops_only_killed (fetch_html E url).
Proof. unfold fetch_html. sok_prim. Qed.

Lemma sok_download (url : string) : stops_only_killed (download E url).
Proof. unfold download. sok_prim. Qed.

Lemma sok_generate_content (c : client) (contents : string) :
  stops_only_killed (generate_content E c contents).
Proof. unfold generate_content. sok_prim. Qed.

Lemma sok_py_sleep (secs : Z) : stops_only_killed (py_sleep secs).
Proof. unfold py_sleep. sok_prim. Qed.

Lemma sok_add_incident (sb : option string) (data : json) :
  stops_only_killed (add_incident E sb data).
Proof. unfold add_incident. sok_prim. Qed.

Lemma sok_load_known (json_path : string) :
  stops_only_killed (load_known E json_path).
Proof.
  unfold load_known.
  apply sok_bind; [apply sok_path_exists | intros present].
  destruct present; cbn [negb]; [|apply sok_ret].
  apply sok_bind; [apply sok_open_read | intros _].
  apply sok_bind; [|intros r; destruct r; apply sok_ret].
  apply sok_try. apply sok_bind; [apply sok_read_all | intros text].
  apply sok_bind; [|intros data].
  - unfold json_load. destruct (json_loads E text); [apply sok_ret|apply sok_raise].
  - unfold py_list. destruct data; first [apply sok_ret | apply sok_raise].
Qed.

Lemma sok_write_chunks (p : string) (chunks : list string) :
  stops_only_killed (write_chunks E p chunks).
Proof.
  induction chunks as [|c r IH]; simpl; [apply sok_ret|].
  apply sok_bind; [apply sok_write_chunk | intros _; exact IH].
Qed.

Lemma sok_save_known_atomic (data : list json) (json_path : string) :
  stops_only_killed (save_known_atomic E data json_path).
Proof.
  unfold save_known_atomic.
  apply sok_bind; [apply sok_mkstemp | intros tmp].
  apply sok_finally.
  - apply sok_bind; [|intros _; apply sok_move].
    apply sok_finally; [apply sok_write_chunks | apply sok_close_file].
  - apply sok_bind; [apply sok_path_exists | intros present].
    destruct present; [|apply sok_ret].
    apply sok_bind; [apply sok_try, sok_remove | intros _; apply sok_ret].
Qed.

(** A call that was made took one unit of budget. *)
Lemma generate_content_costs (c : client) (contents : string) (s : state) :
  match generate_content E c contents s with
  | Stopped _ => True
  | Done _ s1 | Raised _ s1 => S (budget s1) = budget s
  end.
Proof.
  unfold generate_content. unfold_monad.
  destruct (budget s); [exact I|].
  now destruct (generate_resp E _ c contents).
Qed.

Lemma fetch_html_costs (url : string) (s : state) :
  match fetch_html E url s with
  | Stopped _ => True
  | Done _ s1 | Raised _ s1 => S (budget s1) = budget s
  end.
Proof.
  unfold fetch_html. unfold_monad.
  destruct (budget s); [exact I|].
  now destruct (fetch_resp E _ url).
Qed.

Lemma sok_retry_generate (c : client) (contents : string) (fuel : nat) :
  forall s, budget s < fuel -> within s (retry_generate E fuel c contents s).
Proof.
  induction fuel as [|fuel IH]; intros s Hlt; [lia|].
  cbn [retry_generate]. unfold bind at 1. unfold try.
  pose proof (sok_generate_content c contents s) as [Hle Hx].
  pose proof (generate_content_costs c contents s) as Hcost.
  assert (Hsleep : forall s1, S (budget s1) = budget s ->
             within s (bind (py_sleep 5)
                         (fun _ => retry_generate E fuel c contents) s1)).
  { intros s1 Hs1. unfold bind.
    pose proof (sok_py_sleep 5 s1) as [Hle1 Hx1].
    destruct (py_sleep 5 s1) as [[] s2|e s2|s2]; cbn [final] in *;
      [|now within_tac|now within_tac].
    destruct (IH s2) as [Hle2 Hx2]; [lia|]. now within_tac. }
  destruct (generate_content E c contents s) as [parsed s1|e s1|s1];
    cbn [final] in *.
  - destruct (truthy parsed); [now within_tac|now apply Hsleep].
  - now apply Hsleep.
  - now within_tac.
Qed.

Lemma sok_get_gemini_output (pdf_url : string) :
  stops_only_killed (get_gemini_output E pdf_url).
Proof.
  unfold get_gemini_output.
  destruct (genai_client E) as [c|]; [|apply sok_ret].
  apply sok_bind; [apply sok_try, sok_download | intros r].
  destruct r as [e|pdf_bytes].
  - destruct (is_request_exception e); [apply sok_ret|apply sok_raise].
  - apply sok_bind; [|intros parsed; apply sok_ret].
    intros s. apply sok_retry_generate. lia.
Qed.

Lemma sok_process_alert (sb : option string) (item : string * string) :
  stops_only_killed (process_alert E sb item).
Proof.
  unfold process_alert.
  apply sok_bind; [|intros _; apply sok_ret].
  apply sok_try. apply sok_bind; [apply sok_get_gemini_output | intros r].
  destruct r as [data|]; [|apply sok_ret].
  destruct (truthy data); [apply sok_add_incident | apply sok_ret].
Qed.

Lemma sok_handle_found (json_path : string) (sb : option string)
    (found : Dict.t string) :
  stops_only_killed (handle_found E json_path sb found).
Proof.
  intros s. rewrite handle_found_unfold. cbv zeta.
  destruct (negb _); [|now split].
  set (s0 := with_known _ s).
  assert (H : stops_only_killed
            (bind (save_known_atomic E (known s0) json_path)
                  (fun _ => for_each (process_alert E sb)
                              (fst (detect_new found (known s)))))).
  { apply sok_bind; [apply sok_save_known_atomic | intros _].
    apply sok_for_each. intros x. apply sok_process_alert. }
  exact (H s0).
Qed.

Lemma sok_poll_cycle (target_url json_path : string) (interval : Z)
    (once : bool) (sb : option string) :
  stops_only_killed (poll_cycle E target_url json_path interval once sb).
Proof.
  unfold poll_cycle.
  assert (Hend : stops_only_killed
            (if once then ret true
             else bind (py_sleep interval) (fun _ => ret false))).
  { destruct once; [apply sok_ret|].
    apply sok_bind; [apply sok_py_sleep | intros _; apply sok_ret]. }
  apply sok_bind; [apply sok_try, sok_fetch_html | intros r].
  destruct r as [e|html]; [exact Hend|].
  apply sok_bind; [apply sok_handle_found | intros _; exact Hend].
Qed.

(** A turn of the loop that ends took at least the fetch. *)
Lemma poll_cycle_costs (target_url json_path : string) (interval : Z)
    (once : bool) (sb : option string) (s s1 : state) (brk : bool) :
  poll_cycle E target_url json_path interval once sb s = Done brk s1 ->
  budget s1 < budget s.
Proof.
  unfold poll_cycle. unfold bind at 1. unfold try.
  pose proof (fetch_html_costs target_url s) as Hcost.
  assert (Hend : forall s2 s3 b,
             (if once then ret true
              else bind (py_sleep interval) (fun _ => ret false)) s2
               = Done b s3 -> budget s3 <= budget s2).
  { intros s2 s3 b H.
    assert (Hs : stops_only_killed
              (if once then ret true
               else bind (py_sleep interval) (fun _ => ret false))).
    { destruct once; [apply sok_ret|].
      apply sok_bind; [apply sok_py_sleep | intros _; apply sok_ret]. }
    destruct (Hs s2) as [Hle _]. now rewrite H in Hle. }
  destruct (fetch_html E target_url s) as [html s0|e s0|s0]; [| |discriminate].
  - intros H. apply bind_done_inv in H as ([] & s2 & Hh & He).
    apply Hend in He.
    destruct (sok_handle_found json_path sb
                (extract_pdf_names_and_urls E html target_url) s0) as [Hle _].
    rewrite Hh in Hle. cbn [final] in Hle. lia.
  - intros H. apply Hend in H. lia.
Qed.

Lemma sok_poll_loop (target_url json_path : string) (interval : Z)
    (once : bool) (sb : option string) (fuel : nat) :
  forall s, budget s < fuel ->
    within s (poll_loop E fuel target_url json_path interval once sb s).
Proof.
  induction fuel as [|fuel IH]; intros s Hlt; [lia|].
  cbn [poll_loop]. unfold bind.
  pose proof (sok_poll_cycle target_url json_path interval once sb s)
    as [Hle Hx].
  pose proof (poll_cycle_costs target_url json_path interval once sb s) as Hc.
  destruct (poll_cycle E target_url json_path interval once sb s)
    as [brk s1|e s1|s1]; cbn [final] in *;
    [|now within_tac|now within_tac].
  specialize (Hc s1 brk eq_refl).
  destruct brk; [now within_tac|].
  destruct (IH s1) as [Hle1 Hx1]; [lia|]. now within_tac.
Qed.

(** [main_loop] stops only when the process is killed. *)
Lemma sok_main_loop (url json_path : string) (interval : Z)
    (dev_url : option string) (once : bool) (sb : option string)
    (injected : option client) :
  stops_only_killed
    (main_loop E url json_path interval dev_url once sb injected).
Proof.
  unfold main_loop.
  apply sok_bind; [apply sok_load_known | intros loaded].
  apply sok_bind; [intros s; now split | intros _].
  intros s. apply sok_poll_loop. lia.
Qed.

End Adequacy.

(** ** The extraction loop *)

Section Extraction.

Variable E : env.
Variable c : client.
Variable contents : string.

Lemma retry_step_ok (fuel b : nat) (s : state) (parsed : json) :
  budget s = S b ->
  generate_resp E (length (trace s)) c contents = inr parsed ->
  truthy parsed = true ->
  retry_generate E (S fuel) c contents s =
    Done parsed (after_call (EvGenerate c true) b s).
Proof.
  intros Hb Hresp Ht. cbn [retry_generate].
  unfold generate_content, try, bind, tick. rewrite Hb, Hresp.
  cbn [emit ret]. now rewrite Ht.
Qed.

Lemma retry_step_fail (fuel b : nat) (s : state) :
  budget s = S (S b) ->
  attempt_fails E (length (trace s)) c contents = true ->
  retry_generate E (S fuel) c contents s =
    retry_generate E fuel c contents
      (after_call (EvSleep 5) b
         (after_call
            (EvGenerate c (attempt_returns E (length (trace s)) c contents))
            (S b) s)).
Proof.
  intros Hb Hfail. cbn [retry_generate].
  unfold attempt_fails, attempt_returns in *.
  unfold generate_content, py_sleep, try, bind, tick. rewrite Hb.
  destruct (generate_resp E (length (trace s)) c contents) as [e|parsed];
    cbn [emit ret raise].
  - reflexivity.
  - apply negb_true_iff in Hfail. rewrite Hfail. reflexivity.
Qed.

Lemma retry_stops_in_sleep (fuel : nat) (s : state) :
  budget s = 1 ->
  attempt_fails E (length (trace s)) c contents = true ->
  exists s', retry_generate E (S fuel) c contents s = Stopped s'.
Proof.
  intros Hb Hfail. cbn [retry_generate].
  unfold attempt_fails in *.
  unfold generate_content, py_sleep, try, bind, tick. rewrite Hb.
  destruct (generate_resp E (length (trace s)) c contents) as [e|parsed];
    cbn [emit ret raise].
  - eexists. reflexivity.
  - apply negb_true_iff in Hfail. rewrite Hfail. eexists. reflexivity.
Qed.

Lemma length_after_two (e1 e2 : event) (b1 b2 : nat) (s : state) :
  length (trace (after_call e2 b2 (after_call e1 b1 s))) =
    length (trace s) + 2.
Proof. cbn. rewrite !length_app. cbn. lia. Qed.

(** After [n] failed attempts and one that succeeds, the loop returns
    what the last attempt parsed. *)
Lemma retry_generate_success (n : nat) :
  forall (fuel : nat) (s : state) (parsed : json),
    n < fuel -> 2 * n + 1 <= budget s ->
    (forall i, i < n ->
       attempt_fails E (length (trace s) + 2 * i) c contents = true) ->
    generate_resp E (length (trace s) + 2 * n) c contents = inr parsed ->
    truthy parsed = true ->
    exists s',
      retry_generate E fuel c contents s = Done parsed s' /\
      trace s' = trace s ++ failed_attempts E c contents (length (trace s)) n
                         ++ [EvGenerate c true] /\
      fs s' = fs s /\ known s' = known s /\
      budget s' = budget s - (2 * n + 1).
Proof.
  induction n as [|n IH]; intros fuel s parsed Hfuel Hb Hfails Hresp Ht.
  - destruct fuel as [|fuel]; [lia|].
    destruct (budget s) as [|b] eqn:Hbs; [lia|].
    rewrite Nat.add_0_r in Hresp.
    rewrite (retry_step_ok fuel b s parsed Hbs Hresp Ht).
    eexists. split; [reflexivity|]. cbn. repeat split. lia.
  - destruct fuel as [|fuel]; [lia|].
    destruct (budget s) as [|[|b]] eqn:Hbs; [lia|lia|].
    assert (H0 : attempt_fails E (length (trace s)) c contents = true).
    { rewrite <- (Nat.add_0_r (length (trace s))). apply (Hfails 0). lia. }
    rewrite (retry_step_fail fuel b s Hbs H0).
    set (s2 := after_call _ b _).
    assert (Hlen : length (trace s2) = length (trace s) + 2)
      by apply length_after_two.
    destruct (IH fuel s2 parsed) as (s' & Hrun & Htr & Hfs & Hk & Hbud).
    + lia.
    + cbn. lia.
    + intros i Hi. rewrite Hlen.
      replace (length (trace s) + 2 + 2 * i)
        with (length (trace s) + 2 * S i) by lia.
      apply Hfails. lia.
    + rewrite Hlen.
      replace (length (trace s) + 2 + 2 * n)
        with (length (trace s) + 2 * S n) by lia.
      exact Hresp.
    + exact Ht.
    + exists s'. split; [exact Hrun|]. split; [|split; [|split]].
      * rewrite Htr, Hlen. cbn [failed_attempts]. cbn [s2 after_call trace].
        rewrite <- !app_assoc. reflexivity.
      * rewrite Hfs. reflexivity.
      * rewrite Hk. reflexivity.
      * rewrite Hbud. cbn. lia.
Qed.

(** If no attempt ever succeeds the loop does not return. *)
Lemma retry_generate_never (fuel : nat) :
  (forall t, attempt_fails E t c contents = true) ->
  forall s, exists s', retry_generate E fuel c contents s = Stopped s'.
Proof.
  intros Hfail. induction fuel as [|fuel IH]; intros s.
  - exists s. reflexivity.
  - destruct (budget s) as [|[|b]] eqn:Hbs.
    + exists s. cbn [retry_generate].
      unfold generate_content, try, bind, tick. now rewrite Hbs.
    + apply retry_stops_in_sleep; [exact Hbs | apply Hfail].
    + rewrite (retry_step_fail fuel b s Hbs (Hfail _)). apply IH.
Qed.

(** The loop returns only something parsed and usable, and never raises. *)
Lemma retry_generate_result (fuel : nat) (s : state) :
  match retry_generate E fuel c contents s with
  | Done parsed _ => truthy parsed = true
  | Raised _ _ => False
  | Stopped _ => True
  end.
Proof.
  revert s; induction fuel as [|fuel IH]; intros s; [exact I|].
  cbn [retry_generate]. unfold bind at 1. unfold try.
  assert (Hsleep : forall s1,
             match bind (py_sleep 5)
                        (fun _ => retry_generate E fuel c contents) s1 with
             | Done parsed _ => truthy parsed = true
             | Raised _ _ => False
             | Stopped _ => True
             end).
  { intros s1. unfold py_sleep, bind, tick. cbn [Z.ltb Z.compare].
    destruct (budget s1); [exact I|]. cbn [emit]. apply IH. }
  destruct (generate_content E c contents s) as [parsed s1|e s1|s1];
    [|apply Hsleep|exact I].
  destruct (truthy parsed) eqn:Ht; [exact Ht|apply Hsleep].
Qed.

End Extraction.

(** C5 (amended). With the client set, [get_gemini_output] gives up at
    once, with no result, when the download fails with a request error; once
    the document is downloaded it never gives up: it returns only a usable
    record and never raises, each failed attempt (an error of the call or an
    empty result) is followed by a sleep of five seconds and another attempt,
    whatever their number, and if no attempt succeeds it does not return:
    it runs until the process is killed. *)
Theorem extraction_retry_policy (E : env) (pdf_url : string) (s : state)
    (c : client) (b : nat) :
  genai_client E = Some c ->
  budget s = S b ->
  let t0 := length (trace s) in
  let r := get_gemini_output E pdf_url s in
  (forall e,
      download_resp E t0 pdf_url = inl e -> is_request_exception e = true ->
      r = Done None (after_call (EvDownload pdf_url false) b s)) /\
  (forall pdf,
      download_resp E t0 pdf_url = inr pdf ->
      match r with
      | Done (Some parsed) _ => truthy parsed = true
      | Done None _ => False
      | Raised _ _ => False
      | Stopped _ => True
      end /\
      (forall n parsed,
          2 * n + 1 <= b ->
          (forall i, i < n -> attempt_fails E (t0 + 1 + 2 * i) c pdf = true) ->
          generate_resp E (t0 + 1 + 2 * n) c pdf = inr parsed ->
          truthy parsed = true ->
          exists s',
            r = Done (Some parsed) s' /\
            trace s' = trace s ++ EvDownload pdf_url true
                         :: failed_attempts E c pdf (t0 + 1) n
                         ++ [EvGenerate c true]) /\
      ((forall t, attempt_fails E t c pdf = true) ->
       exists s', r = Stopped s' /\ budget s' = 0)).
Proof.
  intros Hc Hb t0 r. split.
  - intros e He Hreq. unfold r, get_gemini_output. rewrite Hc.
    unfold download, try, bind, tick. rewrite Hb. fold t0. rewrite He.
    cbn [emit raise]. now rewrite Hreq.
  - intros pdf Hpdf.
    set (s1 := after_call (EvDownload pdf_url true) b s).
    assert (Hr : r = bind (retry_generate E (S b) c pdf)
                          (fun parsed => ret (Some parsed)) s1).
    { unfold r, get_gemini_output. rewrite Hc.
      unfold download, try. unfold bind at 1 2 3. unfold tick. rewrite Hb.
      fold t0. rewrite Hpdf. reflexivity. }
    assert (Hlen : length (trace s1) = t0 + 1).
    { cbn. rewrite length_app. reflexivity. }
    rewrite Hr. unfold bind. split; [|split].
    + pose proof (retry_generate_result E c pdf (S b) s1) as Hres.
      now destruct (retry_generate E (S b) c pdf s1).
    + intros n parsed Hn Hfails Hresp Ht.
      destruct (retry_generate_success E c pdf n (S b) s1 parsed)
        as (s' & Hrun & Htr & _); try (rewrite Hlen; assumption);
        [lia | cbn; lia | exact Ht |].
      rewrite Hrun. exists s'. split; [reflexivity|].
      rewrite Htr, Hlen. cbn [s1 after_call trace].
      now rewrite <- app_assoc.
    + intros Hnever.
      destruct (retry_generate_never E c pdf (S b) Hnever s1) as (s' & Hs').
      pose proof (sok_get_gemini_output E pdf_url s) as [_ Hx].
      fold r in Hx. rewrite Hr in Hx. unfold bind in Hx |- *.
      rewrite Hs' in Hx |- *. now exists s'.
Qed.

Lemma extraction_retry_policy_witness :
  let E := Scenario.third_time_lucky in
  let s := Demo.start Scenario.disk [] 20 in
  (genai_client E = Some "key-1"%string /\ budget s = 20) /\
  exists s',
    get_gemini_output E "https://x/beta.pdf" s = Done (Some Demo.a_record) s' /\
    trace s' =
      [EvDownload "https://x/beta.pdf" true;
       EvGenerate "key-1" false; EvSleep 5;
       EvGenerate "key-1" true; EvSleep 5;
       EvGenerate "key-1" true].
Proof.
  intros E s. split; [now split|].
  destruct (extraction_retry_policy E "https://x/beta.pdf" s "key-1" 19
              eq_refl eq_refl) as [_ H].
  destruct (H ("%PDF https://x/beta.pdf"%string) eq_refl) as (_ & Hn & _).
  apply (Hn 2 Demo.a_record).
  - lia.
  - intros i Hi. destruct i as [|[|i]]; [reflexivity|reflexivity|lia].
  - reflexivity.
  - reflexivity.
Defined.

(** The download fails with a request error: no result, and no retry. *)
Lemma download_failure_gives_up :
  get_gemini_output Scenario.pdf_unreachable "https://x/beta.pdf"
                    (Demo.start Scenario.disk [] 20)
  = Done None (after_call (EvDownload "https://x/beta.pdf" false) 19
                          (Demo.start Scenario.disk [] 20)).
Proof. reflexivity. Qed.

(** ** Loading the Known Set *)

(** C4 (amended). [load_known] returns the empty list when the file is
    missing; once the file is opened it never raises, and returns the empty
    list when reading fails, when the content is not valid JSON and when the
    top level is a number, a boolean or null, the array itself for a top
    level array, the keys for a top-level object and the characters for a
    top-level string. *)
Theorem load_known_lenient (E : env) (json_path : string) (s : state) :
  let r := load_known E json_path s in
  let returns l := exists s', r = Done l s' in
  (fs s !! key E json_path = None -> r = Done [] s) /\
  (fs_fault E (length (trace s)) = false -> forall e s', r <> Raised e s') /\
  (forall text b,
      fs s !! key E json_path = Some text ->
      budget s = S (S b) ->
      fs_fault E (length (trace s)) = false ->
      (fs_fault E (S (length (trace s))) = true -> returns []) /\
      (fs_fault E (S (length (trace s))) = false ->
       (json_loads E text = None -> returns []) /\
       (forall items, json_loads E text = Some (JArr items) -> returns items) /\
       (forall fields,
           json_loads E text = Some (JObj fields) ->
           returns (map (fun kv => JStr (fst kv)) fields)) /\
       (forall str,
           json_loads E text = Some (JStr str) ->
           returns (map (fun ch => JStr (String ch EmptyString))
                        (String.list_ascii_of_string str))) /\
       (forall v,
           json_loads E text = Some v ->
           match v with
           | JNull | JBool _ | JInt _ | JFloat _ _ => returns []
           | _ => True
           end))).
Proof.
  intros r returns. split; [|split].
  - intros Hnone. unfold r, load_known, path_exists, bind. now rewrite Hnone.
  - intros Hfault e s' Hr. unfold r, load_known, path_exists in Hr.
    unfold bind at 1 in Hr.
    destruct (fs s !! key E json_path) as [text|] eqn:Hfile;
      cbn [negb] in Hr; [|discriminate].
    unfold open_read in Hr. unfold bind at 1 2 3 in Hr.
    unfold tick, get_fs in Hr.
    destruct (budget s) as [|b1]; [discriminate|].
    cbn [fs with_budget] in Hr. rewrite Hfile, Hfault in Hr.
    cbn [emit] in Hr. unfold bind, try in Hr.
    destruct (read_all E json_path _) as [x s1|x s1|s1]; try discriminate.
    destruct (json_load E x s1) as [d s2|x2 s2|s2]; try discriminate.
    destruct d; discriminate.
  - intros text b Hfile Hb Hopen.
    assert (Hrun : r =
      let s2 := after_call (EvRead json_path
                              (negb (fs_fault E (S (length (trace s))))))
                  b (after_call (EvOpen json_path true) (S b) s) in
      if fs_fault E (S (length (trace s))) then Done [] s2
      else match json_loads E text with
           | None => Done [] s2
           | Some (JArr items) => Done items s2
           | Some (JObj fields) =>
               Done (map (fun kv => JStr (fst kv)) fields) s2
           | Some (JStr str) =>
               Done (map (fun ch => JStr (String ch EmptyString))
                         (String.list_ascii_of_string str)) s2
           | Some _ => Done [] s2
           end).
    { unfold r, load_known, path_exists. unfold bind at 1. rewrite Hfile.
      cbn [negb]. unfold open_read, read_all, try.
      unfold bind, tick, get_fs. rewrite Hb.
      cbn [fs with_budget trace budget]. rewrite Hfile, Hopen.
      cbn [emit fs with_trace with_budget trace budget].
      rewrite Hfile. rewrite length_app, Nat.add_1_r.
      destruct (fs_fault E (S (length (trace s)))); [reflexivity|].
      cbn [emit ret raise negb]. unfold json_load.
      destruct (json_loads E text) as [[]|]; reflexivity. }
    cbv zeta in Hrun. unfold returns. rewrite Hrun. split.
    + intros ->. eexists. reflexivity.
    + intros ->. repeat split.
      * intros ->. eexists. reflexivity.
      * intros items ->. eexists. reflexivity.
      * intros fields ->. eexists. reflexivity.
      * intros str ->. eexists. reflexivity.
      * intros v ->. destruct v; try exact I; eexists; reflexivity.
Qed.

Lemma load_known_lenient_witness :
  let E := Scenario.healthy in
  let s := Demo.start Scenario.disk [] 20 in
  (fs s !! key E Scenario.known_file = Some (Demo.dumps [JStr "alpha"]) /\
   budget s = 20 /\
   fs_fault E (length (trace s)) = false /\
   fs_fault E (S (length (trace s))) = false /\
   json_loads E (Demo.dumps [JStr "alpha"]) = Some (JArr [JStr "alpha"])) /\
  exists s', load_known E Scenario.known_file s = Done [JStr "alpha"] s'.
Proof.
  intros E s. split; [now repeat split|].
  destruct (load_known_lenient E Scenario.known_file s) as (_ & _ & H).
  destruct (H (Demo.dumps [JStr "alpha"]) 18 eq_refl eq_refl eq_refl)
    as [_ H2].
  destruct (H2 eq_refl) as (_ & Harr & _).
  apply Harr. reflexivity.
Defined.

(** The file holds the JSON object with the one key [a]: the list loaded is
    the list of its keys, not the empty list. *)
Lemma object_file_loads_its_keys :
  match load_known Scenario.healthy Scenario.known_file
                   (Demo.start Scenario.object_disk [] 20)
  with
  | Done l _ => l = [JStr "a"]
  | _ => False
  end.
Proof. vm_compute. reflexivity. Qed.

(** [open] is outside the [try]: when the file exists and cannot be opened,
    the error leaves [load_known]. *)
Lemma load_known_open_failure :
  load_known (Scenario.disk_fails_at 0) Scenario.known_file
             (Demo.start Scenario.disk [] 20)
  = Raised OSError (after_call (EvOpen Scenario.known_file false) 19
                               (Demo.start Scenario.disk [] 20)).
Proof. reflexivity. Qed.

(** ** Runs on the demonstration page *)

Lemma change_detector_exact_witness :
  let found :=
    [("alpha"%string, "https://x/alpha.pdf"%string);
     ("beta"%string, "https://x/beta.pdf"%string)] in
  Dict.wf found /\
  detect_new found [JStr "alpha"] =
    ([("beta"%string, "https://x/beta.pdf"%string)], ["beta"%string]).
Proof.
  intros found.
  assert (Hwf : Dict.wf found).
  { unfold Dict.wf. cbn. apply NoDup_cons. split.
    - intros Hin. apply list_elem_of_In in Hin. destruct Hin as [[=]|[]].
    - apply NoDup_singleton. }
  split; [exact Hwf|].
  exact (proj1 (change_detector_exact found [JStr "alpha"] Hwf)).
Defined.

Lemma known_set_invariant_witness :
  let s := Demo.start Scenario.disk [JStr "alpha"] 60 in
  let r := poll_loop Scenario.healthy 30 "https://x/" Scenario.known_file 5
                     false (Some "sb"%string) s in
  NoDup (known s) /\ NoDup (known (final r)) /\
  (forall x, In x (known s) -> In x (known (final r))).
Proof.
  intros s r.
  assert (Hnd : NoDup (known s)) by apply NoDup_singleton.
  split; [exact Hnd|].
  destruct (known_set_invariant Scenario.healthy 30 "https://x/"
              Scenario.known_file 5 false (Some "sb"%string) s Hnd)
    as (_ & Hsub & Hnd').
  split; [exact Hnd' | exact Hsub].
Defined.

Lemma identifier_normalization_witness :
  let E := Scenario.healthy in
  (urlparse_path E "https://x/docs/Alert%20No%2012.PDF"
     = "/docs" +:+ "/Alert%20No%2012.PDF" /\
   urlparse_path E "https://x/docs/foo.pdf" = "/docs" +:+ "/foo.pdf" /\
   urlparse_path E "https://x/old/FOO.PDF" = "/old" +:+ "/FOO.PDF") /\
  derived_identifier E "https://x/docs/Alert%20No%2012.PDF"
    = Some "alert no 12"%string /\
  derived_identifier E "https://x/docs/foo.pdf" = Some "foo"%string /\
  derived_identifier E "https://x/old/FOO.PDF" = Some "foo"%string.
Proof.
  intros E. split; [now repeat split|]. split; [|split].
  - apply (proj1 (proj2 (proj2
             (identifier_normalization E "https://x/docs/Alert%20No%2012.PDF")))
             "/docs"%string).
    reflexivity.
  - apply (proj1 (proj2 (proj2 (proj2
             (identifier_normalization E "https://x/docs/foo.pdf"))))
             "/docs"%string).
    reflexivity.
  - apply (proj2 (proj2 (proj2 (proj2
             (identifier_normalization E "https://x/old/FOO.PDF"))))
             "/old"%string).
    reflexivity.
Defined.

(** The two spellings of one document are filed once. *)
Example same_item_filed_once :
  extract_pdf_names_and_urls Scenario.healthy
    "https://x/docs/foo.pdf https://x/old/FOO.PDF" "https://x/"
  = [("foo"%string, "https://x/old/FOO.PDF"%string)].
Proof. reflexivity. Qed.


(** * More of the module *)

(** ** What can be raised, and where *)

Section Raising.

Variable E : env.

Lemma ro_mkstemp (pfx dir : string) : raises_only is_os_error (mkstemp E pfx dir).
Proof. unfold mkstemp. ro_prim. Qed.

Lemma ro_write_chunk (p c : string) : raises_only is_os_error (write_chunk E p c).
Proof. unfold write_chunk. ro_prim. Qed.

Lemma ro_close_file (p : string) : raises_only is_os_error (close_file E p).
Proof. unfold close_file. ro_prim. Qed.

Lemma ro_move (src dst : string) : raises_only is_os_error (move E src dst).
Proof.
  assert (H : raises_only is_os_error (rename_or_copy E src dst)).
  { intros s e s'. unfold rename_or_copy. unfold bind at 1. unfold try.
    destruct (os_rename_cases E src dst s)
      as [H | [(s1 & H & _) | (text & s1 & H & _)]]; rewrite H;
      try discriminate.
    cbn [is_os_error]. intros Hr.
    pose proof (copy_and_unlink_raises E src dst s1 e s' Hr) as He.
    now destruct e. }
  intros s e s'. unfold move.
  destruct (rename_or_copy E src dst s) as [u s1|e1 s1|s1] eqn:Hr;
    try discriminate.
  intros [= <- _]. exact (H s e1 s1 Hr).
Qed.

Lemma ro_path_exists (P : exn -> bool) (p : string) :
  raises_only P (path_exists E p).
Proof. intros s e s' [=]. Qed.

Lemma ro_write_chunks (p : string) (chunks : list string) :
  raises_only is_os_error (write_chunks E p chunks).
Proof.
  induction chunks as [|c r IH]; simpl; [apply ro_ret|].
  apply ro_bind; [apply ro_write_chunk | intros _; exact IH].
Qed.

Lemma ro_save_known_atomic (data : list json) (json_path : string) :
  raises_only is_os_error (save_known_atomic E data json_path).
Proof.
  unfold save_known_atomic.
  apply ro_bind; [apply ro_mkstemp | intros tmp].
  apply ro_finally.
  - apply ro_bind; [|intros _; apply ro_move].
    apply ro_finally; [apply ro_write_chunks | apply ro_close_file].
  - apply ro_bind; [apply ro_path_exists | intros present].
    destruct present; [|apply ro_ret].
    apply ro_bind; [apply ro_try | intros _; apply ro_ret].
Qed.

Lemma ro_py_sleep (secs : Z) :
  raises_only (loop_exn secs) (py_sleep secs).
Proof.
  intros s e s'. unfold py_sleep, loop_exn.
  destruct (secs <? 0)%Z eqn:Hs.
  - intros [= <- _]. reflexivity.
  - unfold_monad. destruct (budget s); discriminate.
Qed.

(** Whatever happens to one item, nothing is raised out of its turn. *)
Lemma ro_process_alert (sb : option string) (item : string * string) :
  raises_only no_exn (process_alert E sb item).
Proof.
  unfold process_alert.
  apply ro_bind; [apply ro_try | intros _; apply ro_ret].
Qed.

Lemma ro_handle_found (json_path : string) (sb : option string)
    (found : Dict.t string) :
  raises_only is_os_error (handle_found E json_path sb found).
Proof.
  intros s. rewrite handle_found_unfold. cbv zeta.
  destruct (negb _); [|intros e s' [=]].
  apply ro_bind; [apply ro_save_known_atomic | intros _].
  apply ro_for_each. intros x.
  eapply ro_weaken; [|apply ro_process_alert]. intros e [=].
Qed.

Lemma ro_poll_cycle (target_url json_path : string) (interval : Z)
    (once : bool) (sb : option string) :
  raises_only (loop_exn interval)
    (poll_cycle E target_url json_path interval once sb).
Proof.
  unfold poll_cycle.
  assert (Hend : raises_only (loop_exn interval)
            (if once then ret true
             else bind (py_sleep interval) (fun _ => ret false))).
  { destruct once; [apply ro_ret|].
    apply ro_bind; [apply ro_py_sleep | intros _; apply ro_ret]. }
  apply ro_bind; [apply ro_try | intros r].
  destruct r as [e|html]; [exact Hend|].
  apply ro_bind; [|intros _; exact Hend].
  eapply ro_weaken; [|apply ro_handle_found].
  intros e He. unfold loop_exn. now rewrite He.
Qed.

Lemma ro_poll_loop (fuel : nat) (target_url json_path : string)
    (interval : Z) (once : bool) (sb : option string) :
  raises_only (loop_exn interval)
    (poll_loop E fuel target_url json_path interval once sb).
Proof.
  induction fuel as [|fuel IH]; simpl; [apply ro_stop|].
  apply ro_bind; [apply ro_poll_cycle | intros brk].
  destruct brk; [apply ro_ret | exact IH].
Qed.

(** In polling mode a turn of the loop never asks to leave it. *)
Lemma poll_cycle_polling_continues (target_url json_path : string)
    (interval : Z) (sb : option string) (s s' : state) (brk : bool) :
  poll_cycle E target_url json_path interval false sb s = Done brk s' ->
  brk = false.
Proof.
  unfold poll_cycle. unfold bind at 1.
  destruct (try (fetch_html E target_url) s) as [r s1|e s1|s1];
    try discriminate.
  assert (Hend : forall s2, bind (py_sleep interval) (fun _ => ret false) s2
                            = Done brk s' -> brk = false).
  { intros s2. unfold bind.
    destruct (py_sleep interval s2); try discriminate. now intros [= <- _]. }
  destruct r as [e|html]; [apply Hend|].
  unfold bind at 1.
  destruct (handle_found E json_path sb _ s1); try discriminate. apply Hend.
Qed.

Lemma poll_loop_polling_not_done (fuel : nat) (target_url json_path : string)
    (interval : Z) (sb : option string) (s s' : state) (u : unit) :
  poll_loop E fuel target_url json_path interval false sb s <> Done u s'.
Proof.
  revert s; induction fuel as [|fuel IH]; intros s; simpl; [discriminate|].
  unfold bind.
  destruct (poll_cycle E target_url json_path interval false sb s)
    as [brk s1|e s1|s1] eqn:Hc; try discriminate.
  apply poll_cycle_polling_continues in Hc. subst brk. apply IH.
Qed.

End Raising.

(** X1. Errors met while one item is processed never leave its turn: the
    processing of the new items ends normally or where the process is
    killed, never with an exception, whatever the download, the model and
    the insert do. *)
Theorem item_errors_stay_local (E : env) (supabase_client : option string)
    (items : Dict.t string) (s : state) :
  (forall e s',
      for_each (process_alert E supabase_client) items s <> Raised e s') /\
  (forall item e s', process_alert E supabase_client item s <> Raised e s').
Proof.
  split.
  - intros e s' H.
    assert (Hro : raises_only no_exn (for_each (process_alert E supabase_client) items)).
    { apply ro_for_each. intros x. apply ro_process_alert. }
    apply Hro in H. discriminate.
  - intros item e s' H. apply ro_process_alert in H. discriminate.
Qed.


(** ** One insert per item at most *)

Section Ingestion.

Variable E : env.

Lemma retry_generate_extracts (fuel : nat) (c : client) (contents : string) :
  preserves (frame is_extract_event all_keys) (retry_generate E fuel c contents).
Proof.
  induction fuel as [|fuel IH]; simpl.
  - apply preserves_stop; apply _.
  - apply preserves_bind; [apply _ | | intros r].
    + apply preserves_try. by_prim (generate_content_frame E).
    + assert (Hs : preserves (frame is_extract_event all_keys)
                     (bind (py_sleep 5)
                           (fun _ => retry_generate E fuel c contents))).
      { apply preserves_bind; [apply _ | | intros _; exact IH].
        by_prim py_sleep_frame. }
      destruct r as [e|parsed]; [exact Hs|].
      destruct (truthy parsed); [apply preserves_ret; apply _ | exact Hs].
Qed.

Lemma get_gemini_output_extracts (pdf_url : string) :
  preserves (frame is_extract_event all_keys) (get_gemini_output E pdf_url).
Proof.
  unfold get_gemini_output.
  destruct (genai_client E) as [c|]; [|apply preserves_ret; apply _].
  apply preserves_bind; [apply _ | | intros r].
  - apply preserves_try. by_prim (download_frame E).
  - destruct r as [e|pdf_bytes].
    + destruct (is_request_exception e);
        [apply preserves_ret | apply preserves_raise]; apply _.
    + apply preserves_bind; [apply _ | | intros parsed; apply preserves_ret; apply _].
      apply (preserves_at _ (fun s0 => retry_generate E (S (budget s0)) c pdf_bytes)).
      intros s0. apply retry_generate_extracts.
Qed.

(** The calls of one item: those of the extraction, then at most one
    insert, of the record the extraction returned. *)
Lemma process_alert_shape (sb : option string) (item : string * string)
    (s : state) :
  exists evs ins,
    trace (final (process_alert E sb item s)) = trace s ++ evs ++ ins /\
    Forall (fun e => is_extract_event e = true) evs /\
    (ins = [] \/
     exists data ok s1,
       ins = [EvInsert data ok] /\
       get_gemini_output E (snd item) s = Done (Some data) s1 /\
       sb <> None).
Proof.
  unfold process_alert. unfold bind at 1. unfold try. unfold bind at 1.
  destruct (get_gemini_output_extracts (snd item) s) as (_ & _ & evs & Htr & Hall).
  destruct (get_gemini_output E (snd item) s) as [[data|] s1|e s1|s1] eqn:Hg;
    cbn [final] in *;
    try (exists evs, []; rewrite app_nil_r; repeat split; auto; fail).
  destruct (truthy data);
    [|exists evs, []; rewrite app_nil_r; repeat split; auto].
  unfold add_incident.
  destruct sb as [sb|];
    [|exists evs, []; rewrite app_nil_r; repeat split; auto].
  destruct data;
    try (exists evs, []; rewrite app_nil_r; repeat split; auto; fail).
  unfold_monad. destruct (budget s1) as [|b];
    [exists evs, []; rewrite app_nil_r; repeat split; auto|].
  cbn. eexists evs, [_]. split; [now rewrite Htr, <- app_assoc|].
  split; [exact Hall|]. right. eexists _, _, s1. repeat split. discriminate.
Qed.

Lemma extract_events_no_insert (evs : list event) :
  Forall (fun e => is_extract_event e = true) evs ->
  List.filter is_insert_event evs = [].
Proof.
  induction 1 as [|e evs He _ IH]; [reflexivity|].
  simpl. rewrite IH. now destruct e.
Qed.

End Ingestion.

(** X3. While the new items are processed the insert is called at most
    once per item, after the calls of that item's extraction and with the
    record the extraction returned; it is never called without a Supabase
    client. *)
Theorem one_insert_per_item (E : env) (supabase_client : option string)
    (items : Dict.t string) (s : state) :
  (exists evs,
      trace (final (for_each (process_alert E supabase_client) items s))
        = trace s ++ evs /\
      length (List.filter is_insert_event evs) <= length items /\
      (supabase_client = None -> List.filter is_insert_event evs = [])) /\
  (forall item,
      exists evs ins,
        trace (final (process_alert E supabase_client item s))
          = trace s ++ evs ++ ins /\
        Forall (fun e => is_extract_event e = true) evs /\
        (ins = [] \/
         exists data ok s1,
           ins = [EvInsert data ok] /\
           get_gemini_output E (snd item) s = Done (Some data) s1 /\
           supabase_client <> None)).
Proof.
  split; [|intros item; apply process_alert_shape].
  revert s; induction items as [|item items IH]; intros s.
  - exists []. cbn. rewrite app_nil_r. repeat split. lia.
  - cbn [for_each]. unfold bind.
    destruct (process_alert_shape E supabase_client item s)
      as (evs & ins & Htr & Hall & Hins).
    assert (Hcount : length (List.filter is_insert_event (evs ++ ins)) <= 1 /\
                     (supabase_client = None ->
                      List.filter is_insert_event (evs ++ ins) = [])).
    { rewrite List.filter_app, (extract_events_no_insert evs Hall).
      destruct Hins as [->|(data & ok & s1 & -> & _ & Hsb)]; cbn.
      - split; [lia|reflexivity].
      - split; [lia|]. intros Hn. now rewrite Hn in Hsb. }
    destruct (process_alert E supabase_client item s) as [[] s1|e s1|s1];
      cbn [final] in *.
    + destruct (IH s1) as (evs' & Htr' & Hlen & Hnone).
      exists ((evs ++ ins) ++ evs'). split; [|split].
      * rewrite Htr', Htr. now rewrite <- !app_assoc.
      * rewrite List.filter_app, length_app. cbn [length]. lia.
      * intros Hn. rewrite List.filter_app, (proj2 Hcount Hn), (Hnone Hn).
        reflexivity.
    + exists (evs ++ ins). split; [exact Htr|]. split; [cbn [length]; lia|].
      apply Hcount.
    + exists (evs ++ ins). split; [exact Htr|]. split; [cbn [length]; lia|].
      apply Hcount.
Qed.

(** ** The Observed Map *)

Lemma lower_char_idem (c : ascii) :
  PyStr.lower_char (PyStr.lower_char c) = PyStr.lower_char c.
Proof. destruct c as [[] [] [] [] [] [] [] []]; reflexivity. Qed.

Lemma lower_idem (s : string) : PyStr.lower (PyStr.lower s) = PyStr.lower s.
Proof.
  induction s as [|c s IH]; simpl; [reflexivity|].
  now rewrite lower_char_idem, IH.
Qed.

Lemma in_dict_set {V} (k k' : string) (v v' : V) (d : Dict.t V) :
  Dict.wf d ->
  In (k', v') (Dict.set k v d) <->
    (k' = k /\ v' = v) \/ (k' <> k /\ In (k', v') d).
Proof.
  unfold Dict.wf, Dict.keys.
  induction d as [|[k0 v0] d IH]; simpl; intros Hwf.
  - split.
    + intros [[= <- <-]|[]]. now left.
    + intros [[-> ->]|[_ []]]. now left.
  - apply NoDup_cons in Hwf as [Hk0 Hwf].
    destruct (String.eqb_spec k0 k) as [->|Hne]; simpl.
    + split.
      * intros [[= <- <-]|Hin]; [now left|]. right. split; [|now right].
        intros ->. apply Hk0, list_elem_of_In, in_map_iff. now exists (k, v').
      * intros [[-> ->]|[Hk [[= <- _]|Hin]]]; [now left|congruence|now right].
    + rewrite (IH Hwf). split.
      * intros [[= <- <-]|[[-> ->]|[Hk Hin]]].
        -- right. split; [exact Hne|now left].
        -- now left.
        -- right. split; [exact Hk|now right].
      * intros [[-> ->]|[Hk [[= <- <-]|Hin]]].
        -- right. now left.
        -- now left.
        -- right. right. now split.
Qed.

Section ObservedMap.

Variable E : env.
Variable base_url : string.

Lemma scan_anchor_key (d : Dict.t string) (raw : string) :
  scan_anchor E base_url d raw =
    match anchor_key E base_url raw with
    | Some k => Dict.set k (anchor_url E base_url raw) d
    | None => d
    end.
Proof.
  rewrite scan_anchor_derived. unfold anchor_key, anchor_url.
  now destruct (PyStr.is_empty (PyStr.strip raw)).
Qed.

Lemma scan_anchor_wf (d : Dict.t string) (raw : string) :
  Dict.wf d -> Dict.wf (scan_anchor E base_url d raw).
Proof.
  intros Hd. rewrite scan_anchor_key.
  destruct (anchor_key E base_url raw); [now apply dict_set_wf | exact Hd].
Qed.

Lemma in_scan_anchor (d : Dict.t string) (raw k v : string) :
  Dict.wf d ->
  In (k, v) (scan_anchor E base_url d raw) <->
    if files_under E base_url k raw then v = anchor_url E base_url raw
    else In (k, v) d.
Proof.
  intros Hd. rewrite scan_anchor_key. unfold files_under.
  destruct (anchor_key E base_url raw) as [k0|]; [|reflexivity].
  rewrite (in_dict_set _ _ _ _ _ Hd).
  destruct (String.eqb_spec k0 k) as [->|Hne].
  - split; [intros [[_ ->]|[Hk _]]; congruence | intros ->; now left].
  - split; [intros [[-> _]|[_ Hin]]; congruence | intros Hin; right; split;
            [congruence | exact Hin]].
Qed.

Lemma in_scan_all (anchors : list string) :
  forall (d : Dict.t string) (k v : string),
    Dict.wf d ->
    In (k, v) (fold_left (scan_anchor E base_url) anchors d) <->
      match last_url E base_url k anchors with
      | Some v' => v = v'
      | None => In (k, v) d
      end.
Proof.
  induction anchors as [|raw rest IH]; intros d k v Hd; simpl; [reflexivity|].
  rewrite (IH _ k v (scan_anchor_wf d raw Hd)).
  destruct (last_url E base_url k rest) as [v'|]; [reflexivity|].
  rewrite (in_scan_anchor d raw k v Hd).
  now destruct (files_under E base_url k raw).
Qed.

Lemma last_url_some (k v : string) (anchors : list string) :
  last_url E base_url k anchors = Some v ->
  exists raw, In raw anchors /\ anchor_key E base_url raw = Some k /\
              v = anchor_url E base_url raw.
Proof.
  induction anchors as [|raw rest IH]; simpl; [discriminate|].
  destruct (last_url E base_url k rest) as [v'|].
  - intros [= ->]. destruct (IH eq_refl) as (r & Hin & Hk & Hv).
    exists r. split; [now right|now split].
  - unfold files_under.
    destruct (anchor_key E base_url raw) as [k'|] eqn:Hk; [|discriminate].
    destruct (String.eqb_spec k' k) as [->|]; [|discriminate].
    intros [= <-]. exists raw. split; [now left|now split].
Qed.

End ObservedMap.

Lemma derived_identifier_lower (E : env) (full_url k : string) :
  derived_identifier E full_url = Some k -> PyStr.lower k = k.
Proof.
  unfold derived_identifier.
  destruct (PyStr.is_empty (PyStr.basename _)); [discriminate|].
  destruct (PyStr.endswith _ _); [|discriminate].
  destruct (PyStr.is_empty (PyStr.lower _)); [discriminate|].
  intros [= <-]. apply lower_idem.
Qed.

(** X4. An identifier of the Observed Map maps to the address of the last
    anchor of the page that is filed under it: when two anchors normalize to
    the same identifier the later address replaces the earlier one, and an
    identifier is in the map exactly when some anchor is filed under it. *)
Theorem observed_map_last_wins (E : env) (html base_url k v : string) :
  In (k, v) (extract_pdf_names_and_urls E html base_url) <->
  last_url E base_url k (select_anchors E html) = Some v.
Proof.
  unfold extract_pdf_names_and_urls.
  rewrite (in_scan_all E base_url (select_anchors E html) [] k v);
    [|constructor].
  destruct (last_url E base_url k (select_anchors E html)) as [v'|].
  - split; [now intros ->|now intros [= ->]].
  - split; [intros []|discriminate].
Qed.

(** X5. Every entry of the Observed Map is in normal form: its address is
    the resolved address of an anchor of the page with a non-blank [href],
    that address normalizes to the entry's key, and the key is non-empty and
    lower-case. *)
Theorem observed_map_entries (E : env) (html base_url k v : string) :
  In (k, v) (extract_pdf_names_and_urls E html base_url) ->
  (exists raw,
      In raw (select_anchors E html) /\
      PyStr.strip raw <> EmptyString /\
      v = urljoin E base_url (PyStr.strip raw)) /\
  derived_identifier E v = Some k /\
  k <> EmptyString /\
  PyStr.lower k = k.
Proof.
  intros Hin.
  apply (proj1 (in_scan_all E base_url (select_anchors E html) [] k v
                  ltac:(constructor))) in Hin.
  destruct (last_url E base_url k (select_anchors E html)) as [v'|] eqn:Hl;
    [subst v'|destruct Hin].
  apply last_url_some in Hl as (raw & Hraw & Hk & Hv).
  unfold anchor_key in Hk.
  destruct (PyStr.is_empty (PyStr.strip raw)) eqn:He; [discriminate|].
  rewrite <- Hv in Hk.
  split; [|split; [exact Hk|]].
  - exists raw. split; [exact Hraw|]. split; [now apply is_empty_false|exact Hv].
  - pose proof (derived_identifier_sound E v k Hk) as [Hne _].
    split; [exact Hne|]. now apply (derived_identifier_lower E v).
Qed.

(** ** After a cycle every observed identifier is known *)

Lemma detect_new_all_known (found : Dict.t string) (known_list : list json) :
  (forall kv, In kv found -> str_in (fst kv) known_list = true) ->
  detect_new found known_list = ([], []).
Proof.
  unfold detect_new. generalize (@nil (string * string), @nil string).
  induction found as [|kv found IH]; intros acc Hall; [reflexivity|].
  simpl. rewrite (Hall kv (or_introl eq_refl)). simpl.
  apply IH. intros kv' Hin. apply Hall. now right.
Qed.

Lemma str_in_app (x : string) (l1 l2 : list json) :
  str_in x (l1 ++ l2) = str_in x l1 || str_in x l2.
Proof. unfold str_in. apply existsb_app. Qed.

Lemma handle_found_known (E : env) (json_path : string) (sb : option string)
    (found : Dict.t string) (s : state) :
  Dict.wf found ->
  known (final (handle_found E json_path sb found s)) =
    known s ++ map JStr (Dict.keys (new_entries found (known s))).
Proof.
  intros Hwf. rewrite handle_found_unfold, (detect_new_eq _ _ Hwf).
  cbv zeta. cbn [fst snd].
  destruct (new_entries found (known s)) as [|kv rest] eqn:Hn.
  - cbn. now rewrite app_nil_r.
  - cbn [Dict.is_empty negb].
    destruct (commit_and_process_frame E
                (known s ++ map JStr (Dict.keys (kv :: rest))) json_path sb
                (kv :: rest)
                (with_known (known s ++ map JStr (Dict.keys (kv :: rest))) s))
      as (Hk & _).
    exact Hk.
Qed.

(** X6. Detection is idempotent across a cycle: however the cycle ends,
    every identifier of the page it handled is in [known] afterwards, so
    running the detector again on the same Observed Map finds nothing new. *)
Theorem observed_become_known (E : env) (json_path : string)
    (supabase_client : option string) (found : Dict.t string) (s : state) :
  Dict.wf found ->
  let s' := final (handle_found E json_path supabase_client found s) in
  (forall k, In k (Dict.keys found) -> In (JStr k) (known s')) /\
  detect_new found (known s') = ([], []).
Proof.
  intros Hwf s'.
  assert (Hall : forall kv, In kv found -> str_in (fst kv) (known s') = true).
  { intros kv Hin. unfold s'. rewrite (handle_found_known _ _ _ _ _ Hwf).
    rewrite str_in_app. destruct (str_in (fst kv) (known s)) eqn:Hk;
      [reflexivity|]. cbn [orb].
    apply str_in_iff, in_map, in_map. unfold new_entries.
    apply filter_In. split; [exact Hin|]. now rewrite Hk. }
  split; [|now apply detect_new_all_known].
  intros k Hk. apply in_map_iff in Hk as (kv & <- & Hin).
  now apply str_in_iff, Hall.
Qed.

(** ** What was saved is what is loaded *)

Lemma load_known_array (E : env) (json_path : string) (s : state)
    (text : string) (items : list json) (b : nat) :
  fs s !! key E json_path = Some text ->
  budget s = S (S b) ->
  fs_fault E (length (trace s)) = false ->
  fs_fault E (S (length (trace s))) = false ->
  json_loads E text = Some (JArr items) ->
  load_known E json_path s =
    Done items (after_call (EvRead json_path true) b
                  (after_call (EvOpen json_path true) (S b) s)).
Proof.
  intros Hfile Hb Hopen Hread Hjson.
  unfold load_known, path_exists. unfold bind at 1. rewrite Hfile.
  cbn [negb]. unfold open_read, read_all, try.
  unfold bind, tick, get_fs. rewrite Hb.
  cbn [fs with_budget trace budget]. rewrite Hfile, Hopen.
  cbn [emit fs with_trace with_budget trace budget].
  rewrite Hfile. rewrite length_app, Nat.add_1_r, Hread.
  cbn [emit ret]. unfold json_load. now rewrite Hjson.
Qed.


(** ** Files the program leaves alone *)

#[global] Instance keeps_other_files_preorder (E : env) (json_path : string) :
  PreOrder (keeps_other_files E json_path).
Proof.
  split.
  - intros s k _. reflexivity.
  - intros s1 s2 s3 H1 H2 k Hk. rewrite H2, H1; auto.
Qed.

#[global] Instance keeps_but_preorder (k1 k2 : string) :
  PreOrder (keeps_but k1 k2).
Proof.
  split.
  - intros s k _ _. reflexivity.
  - intros s1 s2 s3 H1 H2 k Hk Hk'. rewrite H2, H1; auto.
Qed.

Lemma frame_keeps_other_files (E : env) (json_path : string)
    (P : event -> bool) (s s' : state) :
  frame P all_keys s s' -> keeps_other_files E json_path s s'.
Proof. intros H k _. now rewrite (frame_all_keys _ _ _ H). Qed.

Section OwnFiles.

Variable E : env.
Variable json_path : string.

Lemma write_phase_keeps_but (tmp : string) (chunks : list string) :
  preserves (keeps_but (key E tmp) (key E json_path))
    (finally (write_chunks E tmp chunks) (close_file E tmp)).
Proof.
  intros s k Hk _.
  now apply (frame_except_outside _ _ _ _ (write_phase_frame E tmp chunks s)).
Qed.

Lemma cleanup_keeps_but (tmp : string) :
  preserves (keeps_but (key E tmp) (key E json_path))
    (bind (path_exists E tmp)
          (fun present : bool =>
             if present then bind (try (remove E tmp)) (fun _ => ret tt)
             else ret tt)).
Proof.
  intros s k Hk _.
  now apply (frame_except_outside _ _ _ _ (cleanup_frame E tmp s)).
Qed.

Lemma move_keeps_but (tmp : string) :
  preserves (keeps_but (key E tmp) (key E json_path)) (move E tmp json_path).
Proof.
  intros s k Hk Hk'.
  now apply (frame_except2_outside _ _ _ _ _ (move_files E tmp json_path s)).
Qed.

Lemma save_keeps_other_files (data : list json) :
  preserves (keeps_other_files E json_path)
    (save_known_atomic E data json_path).
Proof.
  intros s.
  change (save_known_atomic E data json_path s) with
    (bind (mkstemp E (tmp_prefix json_path) (target_dir E json_path))
       (fun tmp =>
          finally
            (bind (finally (write_chunks E tmp (json_chunks E data))
                           (close_file E tmp))
                  (fun _ => move E tmp json_path))
            (bind (path_exists E tmp)
                  (fun present : bool =>
                     if present then bind (try (remove E tmp)) (fun _ => ret tt)
                     else ret tt))) s).
  unfold bind at 1.
  destruct (mkstemp_cases E (tmp_prefix json_path) (target_dir E json_path) s)
    as [H | [(e & s' & H & Hfs & _) | (name & s1 & H & _ & Hfs1 & _)]];
    rewrite H.
  - reflexivity.
  - intros k _. cbn [final]. now rewrite Hfs.
  - cbv zeta in Hfs1. fold (tmp_path E json_path name) in *.
    set (tmp := tmp_path E json_path name) in *.
    assert (Hrest : keeps_but (key E tmp) (key E json_path) s1
              (final (finally
                 (bind (finally (write_chunks E tmp (json_chunks E data))
                                (close_file E tmp))
                       (fun _ => move E tmp json_path))
                 (bind (path_exists E tmp)
                       (fun present : bool =>
                          if present
                          then bind (try (remove E tmp)) (fun _ => ret tt)
                          else ret tt)) s1))).
    { apply preserves_finally; [apply _ | | apply cleanup_keeps_but].
      apply preserves_bind; [apply _ | apply write_phase_keeps_but
                            | intros _; apply move_keeps_but]. }
    intros k Hk.
    assert (Hk1 : k <> key E tmp).
    { intros ->. apply Hk. right. now exists name. }
    assert (Hk2 : k <> key E json_path).
    { intros ->. apply Hk. now left. }
    rewrite (Hrest k Hk1 Hk2), Hfs1. now apply lookup_insert_ne.
Qed.

Lemma handle_found_keeps_other_files (sb : option string)
    (found : Dict.t string) :
  preserves (keeps_other_files E json_path) (handle_found E json_path sb found).
Proof.
  intros s. rewrite handle_found_unfold. cbv zeta.
  destruct (negb _); [|reflexivity].
  set (s0 := with_known _ s).
  assert (H : preserves (keeps_other_files E json_path)
            (bind (save_known_atomic E (known s0) json_path)
                  (fun _ => for_each (process_alert E sb)
                              (fst (detect_new found (known s)))))).
  { apply preserves_bind; [apply _ | apply save_keeps_other_files | intros _].
    intros s1. eapply frame_keeps_other_files, process_all_frame. }
  exact (H s0).
Qed.

Lemma poll_cycle_keeps_other_files (target_url : string) (interval : Z)
    (once : bool) (sb : option string) :
  preserves (keeps_other_files E json_path)
    (poll_cycle E target_url json_path interval once sb).
Proof.
  unfold poll_cycle.
  assert (Hend : preserves (keeps_other_files E json_path)
            (if once then ret true
             else bind (py_sleep interval) (fun _ => ret false))).
  { destruct once; [apply preserves_ret; apply _|].
    apply preserves_bind; [apply _ | | intros _; apply preserves_ret; apply _].
    intros s. eapply frame_keeps_other_files, py_sleep_frame. }
  apply preserves_bind; [apply _ | | intros r].
  - apply preserves_try. intros s.
    eapply frame_keeps_other_files, fetch_html_frame.
  - destruct r as [e|html]; [exact Hend|].
    apply preserves_bind; [apply _ | | intros _; exact Hend].
    apply handle_found_keeps_other_files.
Qed.

Lemma poll_loop_keeps_other_files (fuel : nat) (target_url : string)
    (interval : Z) (once : bool) (sb : option string) :
  preserves (keeps_other_files E json_path)
    (poll_loop E fuel target_url json_path interval once sb).
Proof.
  induction fuel as [|fuel IH]; simpl.
  - apply preserves_stop; apply _.
  - apply preserves_bind; [apply _ | apply poll_cycle_keeps_other_files
                          | intros brk].
    destruct brk; [apply preserves_ret; apply _ | exact IH].
Qed.

End OwnFiles.


(** ** The file and the list in memory *)

#[global] Instance follows_preorder (E : env) (json_path : string) :
  PreOrder (follows E json_path).
Proof.
  split.
  - intros s. exists []. split; [now rewrite app_nil_r|auto].
  - intros s1 s2 s3 (evs1 & Htr1 & H1) (evs2 & Htr2 & H2).
    exists (evs1 ++ evs2). split; [now rewrite Htr2, Htr1, app_assoc|].
    intros Hall Hs. apply Forall_app in Hall as [Ha Hb]. auto.
Qed.

Lemma frame_follows (E : env) (json_path : string) (P : event -> bool)
    (s s' : state) :
  frame P all_keys s s' -> follows E json_path s s'.
Proof.
  intros Hf. pose proof (frame_all_keys _ _ _ Hf) as Hfs.
  destruct Hf as (Hk & _ & evs & Htr & _).
  exists evs. split; [exact Htr|]. intros _ (k0 & added & Hfile & Hkn).
  exists k0, added. now rewrite Hfs, Hk.
Qed.

Section Persisted.

Variable E : env.
Variable json_path : string.
Hypothesis Hdistinct : tmp_distinct E json_path.

(** Unless a rename failed, a save leaves the target as it was or holding
    the whole new text. *)
Lemma save_target_cases (data : list json) (s : state) :
  let s' := final (save_known_atomic E data json_path s) in
  known s' = known s /\
  exists evs,
    trace s' = trace s ++ evs /\
    (Forall (fun e => is_failed_rename e = false) evs ->
     fs s' !! key E json_path = fs s !! key E json_path \/
     fs s' !! key E json_path = Some (dump E data)).
Proof.
  intros s'.
  split; [apply (save_known_atomic_frame E data json_path s)|].
  assert (Hsafe : tmp_safe E json_path (fs s)) by (intros name _; apply Hdistinct).
  pose proof (save_known_atomic_run E data json_path s Hsafe) as Hrun.
  unfold s'. set (r := save_known_atomic E data json_path s) in *. clearbody r.
  destruct Hrun as
    [ | e s1 Hfs Htr
      | name r evs tmp Hfree Hnd Htr Hevs Hout Hcl
      | name s1 evs rest tmp Hfree Htr Hevs Hrest Hout
      | name r evs rest post tmp Hfree Hres Htr Hevs Hrest Hpost Hout Hcl
      | name s1 evs inner tmp Hfree Htr Hevs Hcalls Htext Hgone Hout ];
    cbn [final].
  - exists []. split; [now rewrite app_nil_r|]. now left.
  - eexists. split; [exact Htr|]. left. now rewrite Hfs.
  - eexists. split; [exact Htr|]. left. apply Hout.
    intros Heq. now apply (Hdistinct name).
  - eexists. split; [exact Htr|]. intros Hall. exfalso.
    rewrite Forall_forall in Hall.
    assert (Hin : EvRename tmp json_path false ∈
                  EvMkstemp (target_dir E json_path) (tmp_prefix json_path)
                    (Some tmp) :: evs ++ EvRename tmp json_path false :: rest).
    { apply list_elem_of_In. right. apply in_or_app. right. now left. }
    apply Hall in Hin. discriminate.
  - eexists. split; [exact Htr|]. intros Hall. exfalso.
    rewrite Forall_forall in Hall.
    assert (Hin : EvRename tmp json_path false ∈
                  EvMkstemp (target_dir E json_path) (tmp_prefix json_path)
                    (Some tmp)
                    :: evs ++ (EvRename tmp json_path false :: rest)
                           ++ EvMove tmp json_path false :: post).
    { apply list_elem_of_In. right. apply in_or_app. right. now left. }
    apply Hall in Hin. discriminate.
  - eexists. split; [exact Htr|]. now right.
Qed.

Lemma handle_found_follows (sb : option string) (found : Dict.t string) :
  preserves (follows E json_path) (handle_found E json_path sb found).
Proof.
  intros s. rewrite handle_found_unfold. cbv zeta.
  destruct (negb _); [|reflexivity].
  set (new := snd (detect_new found (known s))).
  set (data := known s ++ map JStr new).
  set (s0 := with_known data s).
  unfold bind.
  destruct (save_target_cases data s0) as (Hkn & evs & Htr & Htarget).
  cbv zeta in *.
  assert (Hsave : follows E json_path s
                    (final (save_known_atomic E data json_path s0))).
  { exists evs. split; [exact Htr|]. intros Hall (k0 & added & Hfile & Hk).
    destruct (Htarget Hall) as [Hsame|Hnew].
    - exists k0, (added ++ map JStr new). split.
      + rewrite Hsame. exact Hfile.
      + rewrite Hkn. cbn. unfold data. now rewrite Hk, <- app_assoc.
    - exists data, []. split; [exact Hnew|]. rewrite Hkn. cbn.
      now rewrite app_nil_r. }
  destruct (save_known_atomic E data json_path s0) as [u s1|e s1|s1];
    cbn [final] in *; try exact Hsave.
  etransitivity; [exact Hsave|].
  eapply frame_follows, process_all_frame.
Qed.

Lemma handle_found_in_step (sb : option string) (found : Dict.t string)
    (s s' : state) (u : unit) :
  handle_found E json_path sb found s = Done u s' ->
  in_step E json_path s -> in_step E json_path s'.
Proof.
  rewrite handle_found_unfold. cbv zeta.
  destruct (negb _); [|now intros [= _ <-]].
  set (new := snd (detect_new found (known s))).
  set (data := known s ++ map JStr new).
  set (s0 := with_known data s).
  intros H _. apply bind_done_inv in H as (u1 & s1 & Hsave & Hp).
  assert (Hsafe : tmp_safe E json_path (fs s0)) by (intros name _; apply Hdistinct).
  destruct (save_known_atomic_done E data json_path s0 s1 u1 Hsafe Hsave)
    as (tmp & evs & _ & _ & _ & Htext & Hkn).
  pose proof (process_all_frame E sb (fst (detect_new found (known s))) s1)
    as Hf.
  rewrite Hp in Hf. cbn [final] in Hf.
  pose proof (frame_all_keys _ _ _ Hf) as Hfs. destruct Hf as (Hk1 & _).
  unfold in_step. now rewrite Hfs, Hk1, Hkn.
Qed.

Lemma end_of_cycle_frame (interval : Z) (once : bool) :
  preserves (frame is_sleep_event all_keys)
    (if once then ret true else bind (py_sleep interval) (fun _ => ret false)).
Proof.
  destruct once; [apply preserves_ret; apply _|].
  apply preserves_bind; [apply _ | apply py_sleep_frame
                        | intros _; apply preserves_ret; apply _].
Qed.

Lemma frame_in_step (P : event -> bool) (s s' : state) :
  frame P all_keys s s' -> in_step E json_path s -> in_step E json_path s'.
Proof.
  intros Hf H. pose proof (frame_all_keys _ _ _ Hf) as Hfs.
  destruct Hf as (Hkn & _). unfold in_step. now rewrite Hfs, Hkn.
Qed.

Lemma poll_cycle_follows (target_url : string) (interval : Z) (once : bool)
    (sb : option string) :
  preserves (follows E json_path)
    (poll_cycle E target_url json_path interval once sb).
Proof.
  unfold poll_cycle.
  assert (Hend : preserves (follows E json_path)
            (if once then ret true
             else bind (py_sleep interval) (fun _ => ret false))).
  { intros s. eapply frame_follows, end_of_cycle_frame. }
  apply preserves_bind; [apply _ | | intros r].
  - apply preserves_try. intros s.
    eapply frame_follows, fetch_html_frame.
  - destruct r as [e|html]; [exact Hend|].
    apply preserves_bind; [apply _ | | intros _; exact Hend].
    apply handle_found_follows.
Qed.

Lemma poll_loop_follows (fuel : nat) (target_url : string) (interval : Z)
    (once : bool) (sb : option string) :
  preserves (follows E json_path)
    (poll_loop E fuel target_url json_path interval once sb).
Proof.
  induction fuel as [|fuel IH]; simpl.
  - apply preserves_stop; apply _.
  - apply preserves_bind; [apply _ | apply poll_cycle_follows | intros brk].
    destruct brk; [apply preserves_ret; apply _ | exact IH].
Qed.

Lemma poll_cycle_in_step (target_url : string) (interval : Z) (once : bool)
    (sb : option string) (s s' : state) (brk : bool) :
  poll_cycle E target_url json_path interval once sb s = Done brk s' ->
  in_step E json_path s -> in_step E json_path s'.
Proof.
  unfold poll_cycle. unfold bind at 1.
  pose proof (preserves_try _ _ (fetch_html_frame E target_url) s) as Hf.
  destruct (try (fetch_html E target_url) s) as [r s1|e s1|s1];
    cbn [final] in *; try discriminate.
  intros H Hs. apply (frame_in_step _ _ _ Hf) in Hs. clear Hf.
  assert (Hend : forall s2,
             (if once then ret true
              else bind (py_sleep interval) (fun _ => ret false)) s2
               = Done brk s' ->
             in_step E json_path s2 -> in_step E json_path s').
  { intros s2 He. pose proof (end_of_cycle_frame interval once s2) as Hfr.
    rewrite He in Hfr. apply (frame_in_step _ _ _ Hfr). }
  destruct r as [e|html]; [now apply (Hend s1)|].
  apply bind_done_inv in H as (u & s2 & Hh & He).
  apply (Hend s2 He). now apply (handle_found_in_step _ _ _ _ _ Hh).
Qed.

End Persisted.

Lemma no_failed_rename_in (evs : list event) :
  forallb (fun e => negb (is_failed_rename e)) evs = true ->
  forall src dst, ~ In (EvRename src dst false) evs.
Proof.
  intros H src dst Hin. rewrite forallb_forall in H.
  apply H in Hin. discriminate.
Qed.


(** ** The calls of a run *)

Lemma emits_nil (P : event -> bool) (s s' : state) :
  trace s' = trace s -> emits P s s'.
Proof. intros H. exists []. now rewrite app_nil_r. Qed.

Lemma emits_one (P : event -> bool) (s s' : state) (ev : event) :
  trace s' = trace s ++ [ev] -> P ev = true -> emits P s s'.
Proof. intros H HP. exists [ev]. split; [exact H|]. now constructor. Qed.

Ltac calls_prim :=
  intros s; unfold_monad; split_cases;
  first [ apply emits_nil; reflexivity
        | eapply emits_one;
          [ reflexivity
          | cbn [commit_call loop_call is_load_of andb orb];
            rewrite ?String.eqb_refl, ?Z.eqb_refl, ?orb_true_r;
            try reflexivity; try assumption ] ].

Section LoopCalls.

Variable E : env.
Variable json_path : string.
Variable sb : option string.


Lemma write_chunks_calls (p : string) (chunks : list string) :
  preserves (emits (commit_call E json_path sb)) (write_chunks E p chunks).
Proof.
  induction chunks as [|c r IH]; simpl.
  - apply preserves_ret; apply _.
  - apply preserves_bind; [apply _ | | intros _; exact IH].
    unfold write_chunk. calls_prim.
Qed.

Lemma mkstemp_calls :
  preserves (emits (commit_call E json_path sb))
    (mkstemp E (tmp_prefix json_path) (target_dir E json_path)).
Proof. unfold mkstemp. calls_prim. Qed.

Lemma move_calls_allowed (tmp : string) :
  preserves (emits (commit_call E json_path sb)) (move E tmp json_path).
Proof.
  assert (H : preserves (emits (commit_call E json_path sb))
                (rename_or_copy E tmp json_path)).
  { unfold rename_or_copy.
    apply preserves_bind; [apply _ | | intros r].
    { apply preserves_try. unfold os_rename. calls_prim. }
    destruct r as [e|u]; [|apply preserves_ret; apply _].
    destruct (is_os_error e); [|apply preserves_raise; apply _].
    apply preserves_bind; [apply _ | | intros _; unfold remove; calls_prim].
    unfold copy2.
    apply preserves_bind; [apply _ | unfold copy_open; calls_prim | intros text].
    apply preserves_bind; [apply _ | | intros _; unfold copystat; calls_prim].
    apply preserves_finally; [apply _ | | unfold close_file; calls_prim].
    induction text as [|c r IH]; simpl; [apply preserves_ret; apply _|].
    apply preserves_bind; [apply _ | unfold copy_block; calls_prim
                          | intros _; exact IH]. }
  intros s. unfold move. specialize (H s).
  destruct (rename_or_copy E tmp json_path s) as [u s1|e s1|s1];
    cbn [final] in H; [| |exact H].
  - etransitivity; [exact H|].
    eapply emits_one; [reflexivity|]. cbn. apply String.eqb_refl.
  - etransitivity; [exact H|].
    eapply emits_one; [reflexivity|]. cbn. apply String.eqb_refl.
Qed.

Lemma save_known_atomic_calls (data : list json) :
  preserves (emits (commit_call E json_path sb)) (save_known_atomic E data json_path).
Proof.
  unfold save_known_atomic.
  apply preserves_bind; [apply _ | | intros tmp].
  { apply mkstemp_calls. }
  apply preserves_finally; [apply _ | |].
  - apply preserves_bind; [apply _ | | intros _].
    + apply preserves_finally; [apply _ | apply write_chunks_calls|].
      unfold close_file. calls_prim.
    + apply move_calls_allowed.
  - apply preserves_bind; [apply _ | | intros present].
    + unfold path_exists. calls_prim.
    + destruct present; [|apply preserves_ret; apply _].
      apply preserves_bind; [apply _ | | intros _; apply preserves_ret; apply _].
      apply preserves_try. unfold remove. calls_prim.
Qed.

Lemma process_alert_unconfigured (item : string * string) (s : state) :
  genai_client E = None -> process_alert E sb item s = Done tt s.
Proof.
  intros Hg. unfold process_alert, get_gemini_output. now rewrite Hg.
Qed.

Lemma for_each_unconfigured (items : list (string * string)) (s : state) :
  genai_client E = None ->
  for_each (process_alert E sb) items s = Done tt s.
Proof.
  intros Hg. induction items as [|item r IH]; simpl; [reflexivity|].
  unfold bind. now rewrite process_alert_unconfigured.
Qed.

Lemma retry_generate_calls (fuel : nat) (c : client) (contents : string) :
  genai_client E = Some c ->
  preserves (emits (commit_call E json_path sb)) (retry_generate E fuel c contents).
Proof.
  intros Hg.
  assert (Hsleep : preserves (emits (commit_call E json_path sb)) (py_sleep 5)).
  { unfold py_sleep. intros s. unfold_monad. split_cases;
      first [ apply emits_nil; reflexivity
            | eapply emits_one; [reflexivity | cbn; now rewrite Hg] ]. }
  induction fuel as [|fuel IH]; simpl.
  - apply preserves_stop; apply _.
  - apply preserves_bind; [apply _ | | intros r].
    + apply preserves_try. unfold generate_content. intros s.
      unfold_monad. split_cases;
        first [ apply emits_nil; reflexivity
              | eapply emits_one;
                [reflexivity | cbn; rewrite Hg; apply String.eqb_refl] ].
    + destruct r as [e|parsed].
      * apply preserves_bind; [apply _ | exact Hsleep | intros _; exact IH].
      * destruct (truthy parsed); [apply preserves_ret; apply _|].
        apply preserves_bind; [apply _ | exact Hsleep | intros _; exact IH].
Qed.

Lemma process_alert_calls (item : string * string) :
  preserves (emits (commit_call E json_path sb)) (process_alert E sb item).
Proof.
  destruct (genai_client E) as [c|] eqn:Hg.
  - unfold process_alert.
    apply preserves_bind; [apply _ | | intros _; apply preserves_ret; apply _].
    apply preserves_try.
    apply preserves_bind; [apply _ | | intros data].
    + unfold get_gemini_output. rewrite Hg.
      apply preserves_bind; [apply _ | | intros r].
      * apply preserves_try. unfold download. intros s.
        unfold_monad. split_cases;
          first [ apply emits_nil; reflexivity
                | eapply emits_one; [reflexivity | cbn; now rewrite Hg] ].
      * destruct r as [e|pdf_bytes].
        -- destruct (is_request_exception e);
             [apply preserves_ret | apply preserves_raise]; apply _.
        -- apply preserves_bind;
             [apply _ | | intros parsed; apply preserves_ret; apply _].
           apply (preserves_at _
                    (fun s0 => retry_generate E (S (budget s0)) c pdf_bytes)).
           intros s0. now apply retry_generate_calls.
    + destruct data as [data|]; [|apply preserves_ret; apply _].
      destruct (truthy data); [|apply preserves_ret; apply _].
      unfold add_incident. intros s. unfold_monad. split_cases;
        first [ apply emits_nil; reflexivity
              | eapply emits_one; [reflexivity | cbn; now rewrite Hg] ].
  - intros s. rewrite process_alert_unconfigured by exact Hg.
    apply emits_nil. reflexivity.
Qed.

Lemma handle_found_calls (found : Dict.t string) :
  preserves (emits (commit_call E json_path sb)) (handle_found E json_path sb found).
Proof.
  intros s. rewrite handle_found_unfold. cbv zeta.
  destruct (negb _); [|reflexivity].
  set (data := known s ++ _). set (items := fst _).
  apply (emits_same_trace _ s (with_known data s) _ eq_refl).
  revert s data items. intros s data items.
  apply (preserves_bind (emits (commit_call E json_path sb)) (save_known_atomic E data json_path)
           (fun _ => for_each (process_alert E sb) items)).
  - apply save_known_atomic_calls.
  - intros _. apply preserves_for_each; [apply _|].
    intros item. apply process_alert_calls.
Qed.

Variable target_url : string.
Variable interval : Z.


Lemma commit_call_loop_call (e : event) : commit_call E json_path sb e = true ->
  loop_call E target_url json_path interval sb e = true.
Proof.
  destruct e; cbn; try (intros H; exact H); try discriminate.
  intros ->. apply orb_true_r.
Qed.

Lemma end_of_cycle_calls (once : bool) :
  preserves (emits (loop_call E target_url json_path interval sb))
    (if once then ret true else bind (py_sleep interval) (fun _ => ret false)).
Proof.
  destruct once; [apply preserves_ret; apply _|].
  apply preserves_bind; [apply _ | | intros _; apply preserves_ret; apply _].
  unfold py_sleep. calls_prim.
Qed.

Lemma poll_cycle_calls (once : bool) :
  preserves (emits (loop_call E target_url json_path interval sb)) (poll_cycle E target_url json_path interval once sb).
Proof.
  unfold poll_cycle.
  apply preserves_bind; [apply _ | | intros r].
  - apply preserves_try. unfold fetch_html. calls_prim.
  - destruct r as [e|html]; [apply end_of_cycle_calls|].
    apply preserves_bind; [apply _ | | intros _; apply end_of_cycle_calls].
    intros s. eapply emits_weaken; [apply commit_call_loop_call|].
    apply handle_found_calls.
Qed.

Lemma poll_loop_calls (fuel : nat) (once : bool) :
  preserves (emits (loop_call E target_url json_path interval sb)) (poll_loop E fuel target_url json_path interval once sb).
Proof.
  induction fuel as [|fuel IH]; simpl.
  - apply preserves_stop; apply _.
  - apply preserves_bind; [apply _ | apply poll_cycle_calls | intros brk].
    destruct brk; [apply preserves_ret; apply _ | exact IH].
Qed.

Lemma load_known_calls :
  preserves (emits (is_load_of json_path)) (load_known E json_path).
Proof.
  unfold load_known.
  apply preserves_bind; [apply _ | | intros present].
  { unfold path_exists. calls_prim. }
  destruct present; cbn [negb]; [|apply preserves_ret; apply _].
  apply preserves_bind; [apply _ | | intros _].
  { unfold open_read. calls_prim. }
  apply preserves_bind; [apply _ | | intros r].
  - apply preserves_try.
    apply preserves_bind; [apply _ | | intros text].
    { unfold read_all. calls_prim. }
    apply preserves_bind; [apply _ | | intros data].
    { unfold json_load. calls_prim. }
    assert (Hl : preserves (emits (is_load_of json_path)) (py_list data)).
    { unfold py_list. calls_prim. }
    destruct data; exact Hl.
  - destruct r; apply preserves_ret; apply _.
Qed.

End LoopCalls.

(** X10. Every call of a run of [main_loop] is one its call sites allow:
    first the Known-Set file is opened and read, and nothing is read after
    that; then every fetch goes to [dev_url] when it is given and non-empty
    and to [url] otherwise, temporary files are made in the directory of
    [json_path] under its dotted name, every rename, copy and move ends at
    [json_path], every
    model call goes through the module's client, an insert needs both
    clients, and every pause lasts [interval] or five seconds. *)
Theorem main_loop_call_sites (E : env) (url json_path : string)
    (interval : Z) (dev_url : option string) (once : bool)
    (supabase_client : option string) (genai_client_obj : option client)
    (s : state) :
  exists loads calls,
    trace (final (main_loop E url json_path interval dev_url once
                            supabase_client genai_client_obj s))
      = trace s ++ loads ++ calls /\
    Forall (fun e => is_load_of json_path e = true) loads /\
    Forall (fun e => loop_call E (target_of url dev_url) json_path interval
                       supabase_client e = true) calls.
Proof.
  unfold main_loop. fold (target_of url dev_url). unfold bind at 1.
  destruct (load_known_calls E json_path s) as (loads & Htr & Hloads).
  destruct (load_known E json_path s) as [loaded s1|e s1|s1];
    cbn [final] in *;
    try (exists loads, []; rewrite app_nil_r; now repeat split).
  unfold bind, put_known.
  destruct (poll_loop_calls E json_path supabase_client
              (target_of url dev_url) interval
              (S (budget (with_known loaded s1))) once
              (with_known loaded s1)) as (calls & Htr2 & Hcalls).
  exists loads, calls. split; [|now split].
  rewrite Htr2. cbn [trace with_known]. now rewrite Htr, app_assoc.
Qed.

(** X11. With no model client ([genai_client] is [None]) processing the new
    items does nothing at all, so a run of the polling loop makes no
    download, model or insert call: the items it commits to the Known Set
    are never extracted. *)
Theorem unconfigured_extractor_skips_items (E : env) (fuel : nat)
    (target_url json_path : string) (interval : Z) (once : bool)
    (supabase_client : option string) (s : state) :
  genai_client E = None ->
  (forall items s0,
      for_each (process_alert E supabase_client) items s0 = Done tt s0) /\
  exists evs,
    trace (final (poll_loop E fuel target_url json_path interval once
                            supabase_client s)) = trace s ++ evs /\
    Forall (fun e => is_item_event e = false) evs.
Proof.
  intros Hg. split.
  - intros items s0. now apply for_each_unconfigured.
  - destruct (poll_loop_calls E json_path supabase_client target_url interval
                fuel once s) as (evs & Htr & Hall).
    exists evs. split; [exact Htr|].
    eapply Forall_impl; [exact Hall|].
    intros e. destruct e; cbn; try reflexivity; rewrite Hg; cbn;
      try discriminate.
Qed.

(** ** Single-shot runs and unreachable pages *)

Section Polling.

Variable E : env.

Lemma try_fetch_cases (url : string) (s : state) :
  try (fetch_html E url) s = Stopped s \/
  exists s1,
    trace s1 = trace s ++ [EvFetch url (match fetch_resp E (length (trace s)) url
                                        with inl _ => false | inr _ => true end)]
    /\ known s1 = known s /\ fs s1 = fs s /\
    try (fetch_html E url) s =
      Done (match fetch_resp E (length (trace s)) url with
            | inl e => inl e
            | inr html => inr html
            end) s1.
Proof.
  unfold fetch_html. unfold_monad.
  destruct (budget s) as [|b]; [now left|]. right.
  cbn [trace with_budget].
  destruct (fetch_resp E (length (trace s)) url) as [e|html];
    refine (ex_intro _ _ (conj _ (conj _ (conj _ eq_refl)))); reflexivity.
Qed.

Lemma single_shot_cycle (target_url json_path : string) (interval : Z)
    (sb : option string) (s : state) :
  let r := poll_cycle E target_url json_path interval true sb s in
  (forall s', r <> Done false s') /\
  (final r = s \/
   exists ok rest,
     trace (final r) = trace s ++ EvFetch target_url ok :: rest /\
     Forall (fun e => commit_call E json_path sb e = true) rest).
Proof.
  intros r.
  assert (Hr : r = match try (fetch_html E target_url) s with
                   | Done (inl _) s1 => Done true s1
                   | Done (inr html) s1 =>
                       bind (handle_found E json_path sb
                               (extract_pdf_names_and_urls E html target_url))
                            (fun _ => ret true) s1
                   | Raised e s1 => Raised e s1
                   | Stopped s1 => Stopped s1
                   end).
  { unfold r, poll_cycle. unfold bind at 1.
    destruct (try (fetch_html E target_url) s) as [[e|html] s1|e s1|s1];
      reflexivity. }
  clearbody r.
  destruct (try_fetch_cases target_url s) as [Hf|(s1 & Htr & _ & _ & Hf)];
    rewrite Hf in Hr; subst r; [split; [discriminate | now left]|].
  destruct (fetch_resp E (length (trace s)) target_url) as [e|html].
  - split; [discriminate|]. right. exists false, []. now split.
  - unfold bind.
    destruct (handle_found_calls E json_path sb
                (extract_pdf_names_and_urls E html target_url) s1)
      as (rest & Htr1 & Hrest).
    destruct (handle_found E json_path sb _ s1) as [u s2|e s2|s2];
      cbn [final ret] in *; (split; [discriminate|]); right;
      exists true, rest; (split; [|exact Hrest]);
      now rewrite Htr1, Htr, <- app_assoc.
Qed.

Section Unreachable.

Variable target_url : string.
Variable interval : Z.
Hypothesis Hdown : forall t, exists e, fetch_resp E t target_url = inl e.

Lemma unreachable_cycle (json_path : string) (once : bool)
    (sb : option string) :
  preserves (frame (is_failed_poll target_url interval) all_keys)
    (poll_cycle E target_url json_path interval once sb).
Proof.
  intros s. unfold poll_cycle. unfold bind at 1.
  destruct (try_fetch_cases target_url s)
    as [->|(s1 & Htr & Hk & Hfs & ->)]; [reflexivity|].
  destruct (Hdown (length (trace s))) as (e & He). rewrite He in *.
  assert (H1 : frame (is_failed_poll target_url interval) all_keys s s1).
  { eapply frame_emit; [exact Htr | | exact Hk | intros; now rewrite Hfs].
    cbn. now rewrite String.eqb_refl. }
  etransitivity; [exact H1|].
  revert s1 Htr Hk Hfs H1. intros s1 _ _ _ _. revert s1.
  change (preserves (frame (is_failed_poll target_url interval) all_keys)
            (if once then ret true
             else bind (py_sleep interval) (fun _ => ret false))).
  destruct once; [apply preserves_ret; apply _|].
  apply preserves_bind; [apply _ | | intros _; apply preserves_ret; apply _].
  intros s0. unfold py_sleep.
  destruct (interval <? 0)%Z; [apply frame_same; reflexivity|].
  unfold_monad.
  destruct (budget s0); [apply frame_same; reflexivity|].
  eapply frame_emit; [reflexivity | cbn; apply Z.eqb_refl
                     | reflexivity | reflexivity ].
Qed.

Lemma unreachable_loop (fuel : nat) (json_path : string) (once : bool)
    (sb : option string) :
  preserves (frame (is_failed_poll target_url interval) all_keys)
    (poll_loop E fuel target_url json_path interval once sb).
Proof.
  induction fuel as [|fuel IH]; simpl.
  - apply preserves_stop; apply _.
  - apply preserves_bind; [apply _ | apply unreachable_cycle | intros brk].
    destruct brk; [apply preserves_ret; apply _ | exact IH].
Qed.

End Unreachable.

End Polling.

(** X12. With [once] set the loop body runs once: a cycle never asks for
    another turn, and whatever the fuel the run either does nothing (it was
    stopped before the fetch) or makes exactly one fetch, of [target_url],
    followed only by calls of the commit and of the items: no second fetch,
    no pause of [interval]. *)
Theorem single_shot_run (E : env) (fuel : nat) (target_url json_path : string)
    (interval : Z) (supabase_client : option string) (s : state) :
  (forall s',
      poll_cycle E target_url json_path interval true supabase_client s
        <> Done false s') /\
  let s' := final (poll_loop E (S fuel) target_url json_path interval true
                             supabase_client s) in
  s' = s \/
  exists ok rest,
    trace s' = trace s ++ EvFetch target_url ok :: rest /\
    Forall (fun e => commit_call E json_path supabase_client e = true) rest.
Proof.
  destruct (single_shot_cycle E target_url json_path interval supabase_client s)
    as [Hbrk Hc].
  split; [exact Hbrk|]. cbv zeta in *. simpl. unfold bind.
  destruct (poll_cycle E target_url json_path interval true supabase_client s)
    as [brk s1|e s1|s1]; cbn [final] in *; try exact Hc.
  destruct brk; [exact Hc|]. now destruct (Hbrk s1).
Qed.

(** X13. While the page cannot be fetched the loop changes nothing: the
    list [known] and every file stay as they were, and the only calls are
    failed fetches of [target_url] and pauses of [interval]. *)
Theorem unreachable_page_changes_nothing (E : env) (fuel : nat)
    (target_url json_path : string) (interval : Z) (once : bool)
    (supabase_client : option string) (s : state) :
  (forall t, exists e, fetch_resp E t target_url = inl e) ->
  let s' := final (poll_loop E fuel target_url json_path interval once
                             supabase_client s) in
  known s' = known s /\ fs s' = fs s /\
  exists evs,
    trace s' = trace s ++ evs /\
    Forall (fun e => is_failed_poll target_url interval e = true) evs.
Proof.
  intros Hdown s'.
  pose proof (unreachable_loop E target_url interval Hdown fuel json_path once
                supabase_client s) as Hf.
  pose proof (frame_all_keys _ _ _ Hf) as Hfs.
  destruct Hf as (Hk & _ & He). now repeat split.
Qed.

(** ** The script *)

Lemma init_supabase_client_none (supabase_url supabase_key : option string)
    (create_client : string -> string -> exn + string) :
  init_supabase_client supabase_url supabase_key create_client = None <->
  no_store supabase_url supabase_key create_client.
Proof.
  unfold init_supabase_client, no_store. split.
  - destruct supabase_url as [url|]; [|now left].
    destruct supabase_key as [k|]; [|now right; right; left].
    destruct url as [|c url]; [now right; left|].
    destruct k as [|c' k]; [now right; right; right; left|].
    cbn. destruct (create_client _ _) as [e|sb] eqn:Hc; [|discriminate].
    intros _. right; right; right; right. now exists (String c url), (String c' k), e.
  - intros [->|[->|[->|[->|(url & k & e & -> & -> & Hc)]]]].
    + reflexivity.
    + now destruct supabase_key.
    + now destruct supabase_url.
    + destruct supabase_url as [url|]; [|reflexivity].
      cbn. now rewrite orb_true_r.
    + rewrite Hc. now destruct (_ || _).
Qed.

Lemma main_loop_no_store (E : env) (url json_path : string) (interval : Z)
    (dev_url : option string) (once : bool) (g : option client) (s : state) :
  exists evs,
    trace (final (main_loop E url json_path interval dev_url once None g s))
      = trace s ++ evs /\
    Forall (fun e => is_insert_event e = false) evs.
Proof.
  unfold main_loop. fold (target_of url dev_url). unfold bind at 1.
  destruct (load_known_calls E json_path s) as (loads & Htr & Hloads).
  assert (Hl : Forall (fun e => is_insert_event e = false) loads).
  { eapply Forall_impl; [exact Hloads|]. now intros []. }
  destruct (load_known E json_path s) as [loaded s1|e s1|s1];
    cbn [final] in *; try (now exists loads).
  unfold bind, put_known.
  destruct (poll_loop_calls E json_path None (target_of url dev_url) interval
              (S (budget (with_known loaded s1))) once
              (with_known loaded s1)) as (calls & Htr2 & Hcalls).
  exists (loads ++ calls). split.
  - rewrite Htr2. cbn [trace with_known]. now rewrite Htr, app_assoc.
  - apply Forall_app. split; [exact Hl|].
    eapply Forall_impl; [exact Hcalls|].
    intros e. destruct e; cbn; try reflexivity.
    now rewrite andb_false_r.
Qed.


(** ** Runs of the properties above *)

Lemma observed_map_entries_witness :
  let E := Scenario.healthy in
  In ("beta"%string, "https://x/beta.pdf"%string)
     (extract_pdf_names_and_urls E Scenario.page "https://x/") /\
  derived_identifier E "https://x/beta.pdf" = Some "beta"%string /\
  PyStr.lower "beta" = "beta"%string.
Proof.
  intros E.
  assert (H : In ("beta"%string, "https://x/beta.pdf"%string)
                (extract_pdf_names_and_urls E Scenario.page "https://x/"))
    by (right; left; reflexivity).
  split; [exact H|].
  destruct (observed_map_entries E Scenario.page "https://x/" _ _ H)
    as (_ & Hid & _ & Hlow).
  split; [exact Hid | exact Hlow].
Defined.

Lemma observed_become_known_witness :
  let E := Scenario.healthy in
  let found := extract_pdf_names_and_urls E Scenario.page "https://x/" in
  let s := Demo.start Scenario.disk [JStr "alpha"] 100 in
  let s' := final (handle_found E Scenario.known_file (Some "sb"%string)
                                found s) in
  Dict.wf found /\
  (forall k, In k (Dict.keys found) -> In (JStr k) (known s')) /\
  detect_new found (known s') = ([], []).
Proof.
  intros E found s s'.
  assert (Hwf : Dict.wf found) by apply extract_wf.
  split; [exact Hwf|].
  exact (observed_become_known E Scenario.known_file (Some "sb"%string)
           found s Hwf).
Defined.




Lemma unconfigured_extractor_skips_items_witness :
  let E := Cases.no_extractor in
  let s := Demo.start Scenario.disk [JStr "alpha"] 100 in
  genai_client E = None /\
  for_each (process_alert E (Some "sb"%string))
           (extract_pdf_names_and_urls E Scenario.page "https://x/") s
    = Done tt s.
Proof.
  intros E s.
  assert (Hg : genai_client E = None) by reflexivity.
  split; [exact Hg|].
  exact (proj1 (unconfigured_extractor_skips_items E 50 "https://x/"
                  Scenario.known_file 5 false (Some "sb"%string) s Hg) _ s).
Defined.

Lemma unreachable_page_changes_nothing_witness :
  let E := Cases.page_down in
  let s := Demo.start Scenario.disk [JStr "alpha"] 100 in
  let s' := final (poll_loop E 50 "https://x/" Scenario.known_file 5 false
                             (Some "sb"%string) s) in
  (forall t, exists e, fetch_resp E t "https://x/" = inl e) /\
  known s' = known s /\ fs s' = fs s.
Proof.
  intros E s s'.
  assert (Hdown : forall t, exists e, fetch_resp E t "https://x/" = inl e)
    by (intros t; now exists RequestException).
  split; [exact Hdown|].
  destruct (unreachable_page_changes_nothing E 50 "https://x/"
              Scenario.known_file 5 false (Some "sb"%string) s Hdown)
    as (Hk & Hf & _).
  split; [exact Hk | exact Hf].
Defined.

